(** * RLPx transport of taiyuechain: encryption handshake and frame codec

    A shallow embedding of [p2p/rlpx.go] and of the parts of
    [crypto/crypto.go] and [crypto/signature_cgo.go] it calls.

    - Bytes are integers ([Z]); every place where Go truncates to [byte],
      [uint16] or [uint32] has the wrap-around written out.
    - A Go function returning [(T, error)] returns a [result T]; a Go panic is
      the third outcome [Panic].
    - Code that writes to the connection or advances a cipher or hash threads
      its state explicitly (the monad [M]): the state reached is kept also
      when the call fails, since bytes already written stay written.
    - The primitives that live outside the files above (Keccak, SM3, AES,
      the elliptic-curve suites, RLP, Snappy, certificates) are the fields of
      the interface classes below. *)

From Stdlib Require Import String ZArith List Bool Lia.
Import ListNotations.
Local Open Scope Z_scope.


(* ================================================================== *)
(** ** Bytes *)

Definition byte := Z.
Definition bytes := list Z.

(** [len(b)] as an integer. *)
Definition len {A : Type} (b : list A) : Z := Z.of_nat (length b).

(** Conversions [byte(v)], [uint16(v)], [uint32(v)]. *)
Definition to_byte (v : Z) : byte := v mod 256.
Definition uint16 (v : Z) : Z := v mod 2 ^ 16.
Definition uint32 (v : Z) : Z := v mod 2 ^ 32.

(** [b[:n]] and [b[n:]] for [n <= len(b)]. *)
Definition take (n : Z) (b : bytes) : bytes := firstn (Z.to_nat n) b.
Definition drop (n : Z) (b : bytes) : bytes := skipn (Z.to_nat n) b.

(** [make([]byte, n)]. *)
Definition make (n : Z) : bytes := repeat 0 (Z.to_nat n).

(** [copy(dst[:], src)] into a fresh zeroed buffer of [n] bytes: the first
    [min n (len src)] bytes of [src], then zeroes. *)
Definition copyInto (n : Z) (src : bytes) : bytes :=
  take n src ++ make (n - len (take n src)).

Fixpoint bytes_eqb (a b : bytes) : bool :=
  match a, b with
  | [], [] => true
  | x :: a', y :: b' => (x =? y) && bytes_eqb a' b'
  | _, _ => false
  end.

(** Big-endian integer of a byte string, and the [n] low-order bytes of an
    integer in big-endian order. *)
Definition be_value (b : bytes) : Z := fold_left (fun acc x => acc * 256 + x) b 0.

Fixpoint be_bytes (n : nat) (v : Z) : bytes :=
  match n with
  | O => []
  | S n' => be_bytes n' (v / 256) ++ [v mod 256]
  end.

(* ================================================================== *)
(** ** Errors and outcomes *)

(** The errors of [rlpx.go], [crypto.go] and [signature_cgo.go], one
    constructor per [errors.New] / [fmt.Errorf] site, the [io] errors of
    [io.ReadFull] and [net.Conn.Write], and [errExternal] for an error raised
    inside a collaborator. *)
Inductive error : Type :=
| errPlainMessageTooLarge            (* "message length >= 16MB" *)
| errMsgSizeOverflowsUint24          (* "message size overflows uint24" *)
| errBadHeaderMAC                    (* "bad header MAC" *)
| errBadFrameMAC                     (* "bad frame MAC" *)
| errDecrypt                         (* "Decrypt error" *)
| errAuthRespVersion (v : Z)         (* "enc AuthResp %d version error" *)
| errHandshakeVersion (v : Z)        (* "enc handshake %d version error" *)
| errInitiatorCertSizeZero           (* "initiator remote cert size  equal 0" *)
| errReceiverCertSizeZero            (* "receiver remote cert size  equal 0" *)
| errRemoteCertSize                  (* "remote cert size error" *)
| errCertNotMatch                    (* "cert not match private key" *)
| errInvalidPubkeyLength (n : Z)     (* "invalid public key length %v (expect 64/65)" *)
| errInvalidPubkey                   (* crypto.errInvalidPubkey, "invalid public key" *)
| errSigLength                       (* "sig length is wrong !!!" *)
| errDecompressLength                (* "DecompressPubkey length is wrong !" *)
| errHashLength (n : Z)              (* "hash is required to be exactly 32 bytes (%d)" *)
| io_EOF
| io_ErrUnexpectedEOF
| io_ErrClosedPipe
| errExternal (who : string).

Inductive result (A : Type) : Type :=
| Ok (a : A)
| Err (e : error)
| Panic (why : string).

Arguments Ok {A} a.
Arguments Err {A} e.
Arguments Panic {A} why.

Definition rbind {A B : Type} (r : result A) (k : A -> result B) : result B :=
  match r with
  | Ok a => k a
  | Err e => Err e
  | Panic w => Panic w
  end.

Declare Scope result_scope.
Delimit Scope result_scope with result.
Notation "x <- r ;; k" := (rbind r (fun x => k))
  (at level 61, r at next level, right associativity) : result_scope.
Notation "' p <- r ;; k" := (rbind r (fun p => k))
  (at level 61, p pattern, r at next level, right associativity) : result_scope.

(** The failure classes of the design document, and the class of each error
    of the code. *)
Inductive errorClass : Type :=
| MalformedMessage | DecryptionFailure | VersionMismatch
| CertificateMissing | CertificateSizeMismatch | CertificateInvalid
| CertificateIdentityMismatch | FrameTooLarge | MacMismatch
| TransportFailure | PrimitiveFailure.

Definition taxonomy (e : error) : errorClass :=
  match e with
  | errPlainMessageTooLarge | errMsgSizeOverflowsUint24 => FrameTooLarge
  | errBadHeaderMAC | errBadFrameMAC => MacMismatch
  | errDecrypt => DecryptionFailure
  | errAuthRespVersion _ | errHandshakeVersion _ => VersionMismatch
  | errInitiatorCertSizeZero | errReceiverCertSizeZero => CertificateMissing
  | errRemoteCertSize => CertificateSizeMismatch
  | errCertNotMatch => CertificateIdentityMismatch
  | errInvalidPubkeyLength _ | errInvalidPubkey | errSigLength
  | errDecompressLength | errHashLength _ => MalformedMessage
  | io_EOF | io_ErrUnexpectedEOF | io_ErrClosedPipe => TransportFailure
  | errExternal _ => PrimitiveFailure
  end.

(** State-and-outcome monad: the state is returned on failure too. *)
Definition M (S A : Type) : Type := S -> S * result A.

Definition mret {S A : Type} (a : A) : M S A := fun s => (s, Ok a).

Definition mbind {S A B : Type} (m : M S A) (k : A -> M S B) : M S B :=
  fun s =>
    match m s with
    | (s', Ok a) => k a s'
    | (s', Err e) => (s', Err e)
    | (s', Panic w) => (s', Panic w)
    end.

Definition lift {S A : Type} (r : result A) : M S A := fun s => (s, r).
Definition mget {S : Type} : M S S := fun s => (s, Ok s).
Definition mput {S : Type} (s : S) : M S unit := fun _ => (s, Ok tt).

Declare Scope M_scope.
Delimit Scope M_scope with M.
Notation "x <- m ;; k" := (mbind m (fun x => k))
  (at level 61, m at next level, right associativity) : M_scope.
Notation "' p <- m ;; k" := (mbind m (fun p => k))
  (at level 61, p pattern, m at next level, right associativity) : M_scope.
Notation "m ;;; k" := (mbind m (fun _ => k))
  (at level 61, right associativity) : M_scope.

(* ================================================================== *)
(** ** Constants of rlpx.go *)

Definition maxUint24 : Z := Z.shiftr (2 ^ 32 - 1) 8.   (* ^uint32(0) >> 8 *)

Definition sskLen : Z := 16.
Definition sigLen : Z := 98.
Definition pubLen : Z := 64.
Definition shaLen : Z := 32.
Definition authRLPDecLen : Z := -25.
Definition authRespRLPIncLen : Z := 5.
Definition certSize : Z := 2.

Definition authMsgLen : Z := sigLen + shaLen + pubLen + shaLen + 1 + authRLPDecLen + certSize.
Definition authRespLen : Z := pubLen + shaLen + 1 + authRespRLPIncLen + certSize.
Definition eciesOverhead : Z := 65 + 16 + 32.
Definition encAuthMsgLen : Z := authMsgLen + eciesOverhead.
Definition encAuthRespLen : Z := authRespLen + eciesOverhead.

Definition TaiRLPXVersion : Z := 15.

Definition zeroHeader : bytes := [0xC2; 0x80; 0x80].
Definition zero16 : bytes := make 16.

(* ================================================================== *)
(** ** Small helpers of rlpx.go *)

(** [xor(one, other)]: a buffer of [len(one)] bytes, filled left to right
    with [one[i] ^ other[i]]; indexing [other] past its end panics. *)
Fixpoint xor (one other : bytes) : result bytes :=
  match one with
  | [] => Ok []
  | a :: one' =>
      match other with
      | [] => Panic "index out of range"
      | b :: other' => rbind (xor one' other') (fun r => Ok (Z.lxor a b :: r))
      end
  end.

Definition readInt24 (b : bytes) : Z :=
  Z.lor (nth 2 b 0) (Z.lor (Z.shiftl (nth 1 b 0) 8) (Z.shiftl (nth 0 b 0) 16)).

(** [putInt24(v, b)] writes the three bytes [b[0..2]]; these are they. *)
Definition putInt24 (v : Z) : bytes :=
  [to_byte (Z.shiftr v 16); to_byte (Z.shiftr v 8); to_byte v].

(** [binary.BigEndian.PutUint16] and [binary.BigEndian.Uint16]. *)
Definition PutUint16 (v : Z) : bytes := [to_byte (Z.shiftr v 8); to_byte v].
Definition Uint16 (b : bytes) : Z := Z.lor (nth 1 b 0) (Z.shiftl (nth 0 b 0) 8).

(* ================================================================== *)
(** ** Interfaces of the collaborators used by the frame codec *)

(** Hash and block-cipher primitives: [golang.org/x/crypto/sha3],
    [crypto/gm/sm3] and [crypto/aes]. Each field is the mathematical function
    the package computes; the buffers the Go code puts the values in are
    written out below ([hash_Sum], [block_Encrypt]). *)
Class SymmetricPrimitives : Type := {
  keccak256_sponge : bytes -> bytes;        (* Keccak-256 of the absorbed bytes *)
  sm3_digest : bytes -> bytes;              (* SM3 of the absorbed bytes *)
  aes_encryptBlock : bytes -> bytes -> bytes  (* AES: key, one 16-byte block *)
}.

(** Encoders of the [rlp] and [snappy] packages the codec calls. *)
Class FrameEncoders : Type := {
  rlp_EncodeUint : Z -> bytes;                 (* rlp.EncodeToBytes(msg.Code) *)
  rlp_DecodeUint : bytes -> result (Z * bytes);  (* rlp.Decode(content, &msg.Code):
                                                  the code and what is left to read *)
  snappy_Encode : bytes -> bytes;
  snappy_Decode : bytes -> result bytes;
  snappy_DecodedLen : bytes -> result Z
}.

Section FrameCodec.

Context {prims : SymmetricPrimitives} {encs : FrameEncoders}.

(** *** hash.Hash over Keccak-256 *)

(** A [hash.Hash] made by [sha3.NewLegacyKeccak256] is determined by the bytes
    written to it so far. [Sum(nil)] leaves the state as it is and returns a
    32-byte buffer. *)
Definition hashState : Type := bytes.
Definition sha3_NewLegacyKeccak256 : hashState := [].
Definition hash_Write (h : hashState) (p : bytes) : hashState := h ++ p.
Definition hash_Sum (h : hashState) : bytes := copyInto 32 (keccak256_sponge h).

(** *** crypto/aes and cipher.NewCTR *)

(** [aes.NewCipher(key)]: the block is determined by its key. *)
Definition aes_NewCipher (key : bytes) : result bytes :=
  if (len key =? 16) || (len key =? 24) || (len key =? 32)
  then Ok key
  else Err (errExternal "crypto/aes: invalid key size").

(** [block.Encrypt(dst, src)] with a 16-byte [dst]: encrypts [src[:16]]. *)
Definition block_Encrypt (block : bytes) (src : bytes) : result bytes :=
  if len src <? 16
  then Panic "crypto/aes: input not full block"
  else Ok (copyInto 16 (aes_encryptBlock block (take 16 src))).

(** A CTR stream: block, IV and the number of key-stream bytes consumed. *)
Record ctrStream : Type := mkCtr {
  ctr_block : bytes;
  ctr_iv : bytes;
  ctr_pos : Z
}.

Definition cipher_NewCTR (block iv : bytes) : ctrStream :=
  {| ctr_block := block; ctr_iv := iv; ctr_pos := 0 |}.

(** Key-stream byte number [n]: byte [n mod 16] of the encryption of the
    counter block [iv + n / 16] (a 128-bit big-endian counter). *)
Definition keystreamByte (s : ctrStream) (n : Z) : byte :=
  nth (Z.to_nat (n mod 16))
      (copyInto 16 (aes_encryptBlock (ctr_block s)
                      (be_bytes 16 (be_value (ctr_iv s) + n / 16))))
      0.

Fixpoint xorKeyStreamFrom (s : ctrStream) (pos : Z) (src : bytes) : bytes :=
  match src with
  | [] => []
  | b :: src' => Z.lxor b (keystreamByte s pos) :: xorKeyStreamFrom s (pos + 1) src'
  end.

(** [s.XORKeyStream(dst, src)]: the stream advanced, and [dst]. *)
Definition XORKeyStream (s : ctrStream) (src : bytes) : ctrStream * bytes :=
  ({| ctr_block := ctr_block s; ctr_iv := ctr_iv s; ctr_pos := ctr_pos s + len src |},
   xorKeyStreamFrom s (ctr_pos s) src).

(** *** The connection *)

(** One end of a byte stream: [rd] is what the peer has sent and this end has
    not read yet, [wr] is everything this end has written, [closed] says
    whether reads and writes fail. *)
Record Conn : Type := mkConn {
  rd : bytes;
  wr : bytes;
  closed : bool
}.

Definition conn_Write (p : bytes) : M Conn unit :=
  fun c =>
    if closed c then (c, Err io_ErrClosedPipe)
    else ({| rd := rd c; wr := wr c ++ p; closed := closed c |}, Ok tt).

(** [io.ReadFull(conn, buf)] with [len(buf) = n]. *)
Definition io_ReadFull (n : Z) : M Conn bytes :=
  fun c =>
    if n <=? 0 then (c, Ok [])
    else if closed c then (c, Err io_ErrClosedPipe)
    else if len (rd c) <? n
         then ({| rd := []; wr := wr c; closed := closed c |},
               Err (if len (rd c) =? 0 then io_EOF else io_ErrUnexpectedEOF))
         else ({| rd := drop n (rd c); wr := wr c; closed := closed c |},
               Ok (take n (rd c))).

(** *** rlpxFrameRW *)

(** [Msg] of the p2p package: code, declared size, payload reader. *)
Record Msg : Type := mkMsg {
  Code : Z;          (* uint64 *)
  Size : Z;          (* uint32 *)
  Payload : bytes    (* what reading msg.Payload to its end yields *)
}.

Record rlpxFrameRW : Type := mkRW {
  conn : Conn;
  enc : ctrStream;
  dec : ctrStream;
  macCipher : bytes;
  egressMAC : hashState;
  ingressMAC : hashState;
  snappy : bool
}.

Definition set_conn (rw : rlpxFrameRW) (c : Conn) : rlpxFrameRW :=
  let 'mkRW _ e d m eg ing sn := rw in mkRW c e d m eg ing sn.
Definition set_enc (rw : rlpxFrameRW) (s : ctrStream) : rlpxFrameRW :=
  let 'mkRW c _ d m eg ing sn := rw in mkRW c s d m eg ing sn.
Definition set_dec (rw : rlpxFrameRW) (s : ctrStream) : rlpxFrameRW :=
  let 'mkRW c e _ m eg ing sn := rw in mkRW c e s m eg ing sn.
Definition set_egressMAC (rw : rlpxFrameRW) (h : hashState) : rlpxFrameRW :=
  let 'mkRW c e d m _ ing sn := rw in mkRW c e d m h ing sn.
Definition set_ingressMAC (rw : rlpxFrameRW) (h : hashState) : rlpxFrameRW :=
  let 'mkRW c e d m eg _ sn := rw in mkRW c e d m eg h sn.

(** [updateMAC(mac, block, seed)]: the hash after the write, and the tag
    [mac.Sum(nil)[:16]]. *)
Definition updateMAC (mac : hashState) (block : bytes) (seed : bytes)
  : result (hashState * bytes) :=
  (aesbuf <- block_Encrypt block (hash_Sum mac) ;;
   aesbuf' <- xor aesbuf seed ;;
   let mac' := hash_Write mac aesbuf' in
   Ok (mac', take 16 (hash_Sum mac')))%result.

(** The operations of [WriteMsg] and [ReadMsg] on the fields of [rw]. *)
Definition rw_connWrite (p : bytes) : M rlpxFrameRW unit :=
  fun rw => let '(c, r) := conn_Write p (conn rw) in (set_conn rw c, r).

Definition rw_ReadFull (n : Z) : M rlpxFrameRW bytes :=
  fun rw => let '(c, r) := io_ReadFull n (conn rw) in (set_conn rw c, r).

Definition rw_encXOR (p : bytes) : M rlpxFrameRW bytes :=
  fun rw => let '(s, out) := XORKeyStream (enc rw) p in (set_enc rw s, Ok out).

Definition rw_decXOR (p : bytes) : M rlpxFrameRW bytes :=
  fun rw => let '(s, out) := XORKeyStream (dec rw) p in (set_dec rw s, Ok out).

Definition rw_egressUpdateMAC (seed : bytes) : M rlpxFrameRW bytes :=
  fun rw =>
    match updateMAC (egressMAC rw) (macCipher rw) seed with
    | Ok (mac, tag) => (set_egressMAC rw mac, Ok tag)
    | Err e => (rw, Err e)
    | Panic w => (rw, Panic w)
    end.

Definition rw_ingressUpdateMAC (seed : bytes) : M rlpxFrameRW bytes :=
  fun rw =>
    match updateMAC (ingressMAC rw) (macCipher rw) seed with
    | Ok (mac, tag) => (set_ingressMAC rw mac, Ok tag)
    | Err e => (rw, Err e)
    | Panic w => (rw, Panic w)
    end.

(** [cipher.StreamWriter{S: rw.enc, W: io.MultiWriter(rw.conn, rw.egressMAC)}]:
    encrypt, write to the connection, and, if that went through, to the hash. *)
Definition tee_Write (src : bytes) : M rlpxFrameRW unit :=
  (c <- rw_encXOR src ;;
   rw_connWrite c ;;;
   fun rw => (set_egressMAC rw (hash_Write (egressMAC rw) c), Ok tt))%M.

(** The snappy step of [WriteMsg] (rlpx.go:670-679). *)
Definition compressMsg (sn : bool) (msg : Msg) : result Msg :=
  if sn then
    if Size msg >? maxUint24 then Err errPlainMessageTooLarge
    else
      let payload := snappy_Encode (Payload msg) in
      Ok {| Code := Code msg; Size := uint32 (len payload); Payload := payload |}
  else Ok msg.

(** [fsize] of [WriteMsg] (rlpx.go:682), a [uint32] sum. *)
Definition frameSize (ptype : bytes) (msg : Msg) : Z :=
  uint32 (uint32 (len ptype) + Size msg).

Definition WriteMsg (msg : Msg) : M rlpxFrameRW unit :=
  fun rw =>
    let ptype := rlp_EncodeUint (Code msg) in
    (msg <- lift (compressMsg (snappy rw) msg) ;;
     let fsize := frameSize ptype msg in
     if fsize >? maxUint24 then lift (Err errMsgSizeOverflowsUint24)
     else
       (* write header *)
       let headbuf := putInt24 fsize ++ zeroHeader ++ make 10 in
       hdr <- rw_encXOR headbuf ;;
       (* write header MAC *)
       tag <- rw_egressUpdateMAC hdr ;;
       rw_connWrite (hdr ++ tag) ;;;
       (* write encrypted frame, updating the egress MAC *)
       tee_Write ptype ;;;
       tee_Write (Payload msg) ;;;
       (if fsize mod 16 >? 0
        then tee_Write (take (16 - fsize mod 16) zero16)
        else mret tt) ;;;
       (* write frame MAC *)
       rw' <- mget ;;
       mac <- rw_egressUpdateMAC (hash_Sum (egressMAC rw')) ;;
       rw_connWrite mac)%M rw.

(** [hmac.Equal]. *)
Definition hmac_Equal (a b : bytes) : bool := bytes_eqb a b.

(** The snappy step of [ReadMsg] (rlpx.go:768-785). *)
Definition decompressMsg (sn : bool) (msg : Msg) : result Msg :=
  if sn then
    (size <- snappy_DecodedLen (Payload msg) ;;
     if size >? maxUint24 then Err errPlainMessageTooLarge
     else
       payload <- snappy_Decode (Payload msg) ;;
       Ok {| Code := Code msg; Size := uint32 size; Payload := payload |})%result
  else Ok msg.

Definition ReadMsg : M rlpxFrameRW Msg :=
  (* read the header *)
  (headbuf <- rw_ReadFull 32 ;;
   (* verify header mac *)
   shouldMAC <- rw_ingressUpdateMAC (take 16 headbuf) ;;
   if negb (hmac_Equal shouldMAC (drop 16 headbuf))
   then lift (Err errBadHeaderMAC)
   else
     hdr <- rw_decXOR (take 16 headbuf) ;;
     let fsize := readInt24 hdr in
     (* read the frame content *)
     let rsize := if fsize mod 16 >? 0
                  then uint32 (fsize + (16 - fsize mod 16))
                  else fsize in
     framebuf <- rw_ReadFull rsize ;;
     (* read and validate frame MAC *)
     (fun rw => (set_ingressMAC rw (hash_Write (ingressMAC rw) framebuf), Ok tt)) ;;;
     rw' <- mget ;;
     let fmacseed := hash_Sum (ingressMAC rw') in
     trailer <- rw_ReadFull 16 ;;
     shouldMAC <- rw_ingressUpdateMAC fmacseed ;;
     if negb (hmac_Equal shouldMAC trailer)
     then lift (Err errBadFrameMAC)
     else
       (* decrypt frame content *)
       framebuf <- rw_decXOR framebuf ;;
       (* decode message code *)
       '(code, rest) <- lift (rlp_DecodeUint (take fsize framebuf)) ;;
       let msg := {| Code := code; Size := uint32 (len rest); Payload := rest |} in
       (* if snappy is enabled, verify and decompress message *)
       rw'' <- mget ;;
       lift (decompressMsg (snappy rw'') msg))%M.

End FrameCodec.

(* ================================================================== *)
(** ** Keys and the elliptic-curve collaborators *)

(** The three modes [crypto.CryptoType] is compared with. *)
Inductive cryptoType : Type :=
| CRYPTO_P256_SH3_AES
| CRYPTO_SM2_SM3_SM4
| CRYPTO_S256_SH3_AES.

Inductive curve : Type := P256 | P256Sm2 | S256.

(** [ecdsa.PublicKey] and [ecdsa.PrivateKey]; [X] and [Y] are pointers and
    may be nil. *)
Record PublicKey : Type := mkPub {
  Curve : curve;
  X : option Z;
  Y : option Z
}.

Record PrivateKey : Type := mkPrv {
  PubOf : PublicKey;      (* prv.PublicKey *)
  D : Z
}.

Definition curve_eqb (a b : curve) : bool :=
  match a, b with
  | P256, P256 | P256Sm2, P256Sm2 | S256, S256 => true
  | _, _ => false
  end.

Definition optZ_eqb (a b : option Z) : bool :=
  match a, b with
  | Some x, Some y => x =? y
  | None, None => true
  | _, _ => false
  end.

Definition PublicKey_eqb (a b : PublicKey) : bool :=
  curve_eqb (Curve a) (Curve b) && optZ_eqb (X a) (X b) && optZ_eqb (Y a) (Y b).

(** [reflect.DeepEqual] on two [*ecdsa.PublicKey]. *)
Definition DeepEqual (a b : option PublicKey) : bool :=
  match a, b with
  | Some p, Some q => PublicKey_eqb p q
  | None, None => true
  | _, _ => false
  end.

(** Dereferencing a pointer that may be nil. *)
Definition deref {A : Type} (p : option A) : result A :=
  match p with
  | Some a => Ok a
  | None => Panic "invalid memory address or nil pointer dereference"
  end.

(** [b[n:]] and [b[:n]], which panic when [n > len(b)]. *)
Definition slice_from (n : Z) (b : bytes) : result bytes :=
  if len b <? n then Panic "slice bounds out of range" else Ok (drop n b).
Definition slice_to (n : Z) (b : bytes) : result bytes :=
  if len b <? n then Panic "slice bounds out of range" else Ok (take n b).

(** The packages [crypto/ecies], [crypto/gm/sm2], [crypto/p256],
    [crypto/secp256k1], [crypto/elliptic] and [common/math]. A first argument
    called [seed] is the randomness the call draws from [rand.Reader]. *)
Class CurveSuites : Type := {
  ecies_GenerateKey : bytes -> curve -> result PrivateKey;
  ecies_Encrypt : bytes -> PublicKey -> bytes -> result bytes;
  ecies_Decrypt : PrivateKey -> bytes -> result bytes;
  ecies_GenerateShared : PrivateKey -> PublicKey -> Z -> Z -> result bytes;
  sm2_Encrypt : bytes -> PublicKey -> bytes -> result bytes;
  sm2_Decrypt : PrivateKey -> bytes -> result bytes;
  sm2_GenerateShared : PrivateKey -> PublicKey -> Z -> Z -> result bytes;
  p256_Sign : bytes -> PrivateKey -> bytes -> result bytes;
  sm2_Sign : bytes -> PrivateKey -> bytes -> result bytes;
  secp256k1_Sign : bytes -> bytes -> result bytes;
  p256_ECRecovery : bytes -> bytes -> result PublicKey;
  secp256k1_RecoverPubkey : bytes -> bytes -> result bytes;
  p256_DecompressPubkey : bytes -> result PublicKey;
  sm2_Decompress : bytes -> PublicKey;
  secp256k1_DecompressPubkey : bytes -> option (Z * Z);
  p256_CompressPubkey : PublicKey -> bytes;
  sm2_Compress : PublicKey -> bytes;
  secp256k1_CompressPubkey : option Z -> option Z -> bytes;
  elliptic_Marshal : curve -> Z -> Z -> bytes;
  elliptic_Unmarshal : curve -> bytes -> option (Z * Z);
  math_PaddedBigBytes : Z -> Z -> bytes
}.

(** The process-wide variable [crypto.CryptoType]. *)
Class CryptoConfig : Type := { CryptoType : cryptoType }.

(* ================================================================== *)
(** ** crypto/crypto.go and crypto/signature_cgo.go *)

Section Crypto.

Context {prims : SymmetricPrimitives} {ec : CurveSuites} {cfg : CryptoConfig}.

Definition Keccak256 (data : list bytes) : bytes :=
  match CryptoType with
  | CRYPTO_P256_SH3_AES =>
      hash_Sum (fold_left hash_Write data sha3_NewLegacyKeccak256)
  | CRYPTO_SM2_SM3_SM4 =>
      copyInto 32 (sm3_digest (fold_left (fun d b => d ++ b) data []))
  | CRYPTO_S256_SH3_AES => []
  end.

(** The curve each function of crypto.go picks for a mode. *)
Definition curveOf (t : cryptoType) : curve :=
  match t with
  | CRYPTO_P256_SH3_AES => P256
  | CRYPTO_SM2_SM3_SM4 => P256Sm2
  | CRYPTO_S256_SH3_AES => S256
  end.

Definition UnmarshalPubkey (pub : bytes) : result PublicKey :=
  match elliptic_Unmarshal (curveOf CryptoType) pub with
  | None => Err errInvalidPubkey
  | Some (x, y) => Ok {| Curve := curveOf CryptoType; X := Some x; Y := Some y |}
  end.

Definition FromECDSAPub (pub : option PublicKey) : bytes :=
  match pub with
  | Some {| Curve := _; X := Some x; Y := Some y |} =>
      elliptic_Marshal (curveOf CryptoType) x y
  | _ => []
  end.

(** [GenerateKey]: only the P256 branch looks at the error of
    [ecies.GenerateKey]; the other two call [ExportECDSA] on what may be nil. *)
Definition GenerateKey (seed : bytes) : result PrivateKey :=
  match CryptoType with
  | CRYPTO_P256_SH3_AES => ecies_GenerateKey seed P256
  | CRYPTO_SM2_SM3_SM4 =>
      match ecies_GenerateKey seed P256Sm2 with
      | Err _ => Panic "invalid memory address or nil pointer dereference"
      | r => r
      end
  | CRYPTO_S256_SH3_AES =>
      match ecies_GenerateKey seed S256 with
      | Err _ => Panic "invalid memory address or nil pointer dereference"
      | r => r
      end
  end.

Definition Encrypt (seed : bytes) (pub : PublicKey) (m : bytes) : result bytes :=
  match CryptoType with
  | CRYPTO_P256_SH3_AES => ecies_Encrypt seed pub m
  | CRYPTO_SM2_SM3_SM4 => sm2_Encrypt seed pub m
  | CRYPTO_S256_SH3_AES => ecies_Encrypt seed pub m
  end.

Definition Decrypt (pri : PrivateKey) (c : bytes) : result bytes :=
  match CryptoType with
  | CRYPTO_P256_SH3_AES => ecies_Decrypt pri c
  | CRYPTO_SM2_SM3_SM4 => sm2_Decrypt pri c
  | CRYPTO_S256_SH3_AES => ecies_Decrypt pri c
  end.

Definition GenerateShared (pri : PrivateKey) (pub : PublicKey) (skLen macLen : Z)
  : result bytes :=
  match CryptoType with
  | CRYPTO_P256_SH3_AES => ecies_GenerateShared pri pub skLen macLen
  | CRYPTO_SM2_SM3_SM4 => sm2_GenerateShared pri pub skLen macLen
  | CRYPTO_S256_SH3_AES => ecies_GenerateShared pri pub skLen macLen
  end.

Definition CompressPubkey (pubkey : option PublicKey) : bytes :=
  match pubkey with
  | None => []
  | Some p =>
      match CryptoType with
      | CRYPTO_P256_SH3_AES => p256_CompressPubkey p
      | CRYPTO_SM2_SM3_SM4 => sm2_Compress p
      | CRYPTO_S256_SH3_AES => secp256k1_CompressPubkey (X p) (Y p)
      end
  end.

Definition DecompressPubkey (pubkey : bytes) : result PublicKey :=
  if negb (len pubkey =? 33) then Err errDecompressLength
  else
    match CryptoType with
    | CRYPTO_P256_SH3_AES => p256_DecompressPubkey pubkey
    | CRYPTO_SM2_SM3_SM4 => Ok (sm2_Decompress pubkey)
    | CRYPTO_S256_SH3_AES =>
        match secp256k1_DecompressPubkey pubkey with
        | None => Err errInvalidPubkey
        | Some (x, y) => Ok {| Curve := S256; X := Some x; Y := Some y |}
        end
    end.

(** [Ecrecover]; the two [fmt.Println] evaluate [sig[65:]] when
    [len(sig) != 98]. *)
Definition Ecrecover (hash sig : bytes) : result bytes :=
  (_ <- (if negb (len sig =? 98) then slice_from 65 sig else Ok []) ;;
   match CryptoType with
   | CRYPTO_P256_SH3_AES =>
       sig65 <- slice_to 65 sig ;;
       p256pub <- p256_ECRecovery hash sig65 ;;
       Ok (FromECDSAPub (Some p256pub))
   | CRYPTO_SM2_SM3_SM4 =>
       tail <- slice_from 65 sig ;;
       Ok (FromECDSAPub (Some (sm2_Decompress tail)))
   | CRYPTO_S256_SH3_AES => secp256k1_RecoverPubkey hash sig
   end)%result.

Definition SigToPub (hash sig : bytes) : result PublicKey :=
  match CryptoType with
  | CRYPTO_P256_SH3_AES =>
      (tail <- slice_from 65 sig ;; DecompressPubkey tail)%result
  | CRYPTO_SM2_SM3_SM4 =>
      (tail <- slice_from 65 sig ;; DecompressPubkey tail)%result
  | CRYPTO_S256_SH3_AES =>
      (s <- Ecrecover hash sig ;;
       match elliptic_Unmarshal S256 s with
       | Some (x, y) => Ok {| Curve := S256; X := Some x; Y := Some y |}
       | None => Ok {| Curve := S256; X := None; Y := None |}
       end)%result
  end.

Definition Sign (seed digestHash : bytes) (prv : PrivateKey) : result bytes :=
  match CryptoType with
  | CRYPTO_P256_SH3_AES =>
      (p256sign <- p256_Sign seed prv digestHash ;;
       if negb (len p256sign =? 65) then Err errSigLength
       else Ok (p256sign ++ CompressPubkey (Some (PubOf prv))))%result
  | CRYPTO_SM2_SM3_SM4 =>
      (smsign <- sm2_Sign seed prv digestHash ;;
       if negb (len smsign =? 65) then Err errSigLength
       else Ok (smsign ++ CompressPubkey (Some (PubOf prv))))%result
  | CRYPTO_S256_SH3_AES =>
      if negb (len digestHash =? 32) then Err (errHashLength (len digestHash))
      else secp256k1_Sign digestHash (math_PaddedBigBytes (D prv) (256 / 8))
  end.

End Crypto.

(* ================================================================== *)
(** ** The encryption handshake (rlpx.go) *)

(** [encHandshake]: the state of the encryption handshake. *)
Record encHandshake : Type := mkHS {
  h_CertSize : Z;                        (* uint16 *)
  initiator : bool;
  remote : option PublicKey;             (* remote-pubk *)
  initNonce : bytes;
  respNonce : bytes;
  randomPrivKey : option PrivateKey;     (* ecdhe-random *)
  remoteRandomPub : option PublicKey     (* ecdhe-random-pubk *)
}.

(** [secrets]: the connection secrets. *)
Record secrets : Type := mkSecrets {
  Remote : option PublicKey;
  AES : bytes;
  MAC : bytes;
  EgressMAC : hashState;
  IngressMAC : hashState;
  Token : bytes
}.

(** [authMsgV4] and [authRespV4]; the arrays are byte strings of the length
    the type gives them, and [CertSize] is not part of the RLP encoding. *)
Record authMsgV4 : Type := mkAuth {
  Signature : bytes;          (* [sigLen]byte *)
  InitiatorPubkey : bytes;    (* [pubLen]byte *)
  auth_Nonce : bytes;         (* [shaLen]byte *)
  auth_Version : Z;
  auth_CertSize : Z
}.

Record authRespV4 : Type := mkResp {
  RandomPubkey : bytes;       (* [pubLen]byte *)
  resp_Nonce : bytes;         (* [shaLen]byte *)
  resp_Version : Z;
  resp_CertSize : Z
}.

(** RLP of the two handshake messages ([rlp.EncodeToBytes], and [rlp.Decode]
    into a fresh message, whose [CertSize] stays 0). *)
Class HandshakeEncoders : Type := {
  rlp_EncodeAuthMsg : authMsgV4 -> result bytes;
  rlp_DecodeAuthMsg : bytes -> result authMsgV4;
  rlp_EncodeAuthResp : authRespV4 -> result bytes;
  rlp_DecodeAuthResp : bytes -> result authRespV4
}.

(** The certificate collaborators: [cim.CimList.VerifyCert] and
    [crypto.FromCertBytesToPubKey]. *)
Class CertAuthority : Type := {
  CimList : Type;
  VerifyCert : CimList -> bytes -> result unit;
  FromCertBytesToPubKey : bytes -> result (option PublicKey)
}.

(** [certManager]: the local certificate and the trusted list. *)
Record certManager {ca : CertAuthority} : Type := mkCM {
  cert : bytes;
  certList : CimList     (* cm.list *)
}.

(** What one handshake run draws from [rand.Reader]: the outcome of
    [rand.Read] on the nonce, and the randomness of key generation, signing
    and sealing. *)
Record Entropy : Type := mkEntropy {
  rand_nonce : result bytes;
  rand_key : bytes;
  rand_sig : bytes;
  rand_seal : bytes
}.

(** [plainDecoder]: the interface [readHandshakeMsg] decodes through. *)
Class plainDecoder (T : Type) : Type := {
  decodePlain : bytes -> result T;
  setCertSize : T -> Z -> T
}.

Section Handshake.

Context {prims : SymmetricPrimitives} {ec : CurveSuites} {cfg : CryptoConfig}
        {hsenc : HandshakeEncoders} {ca : CertAuthority}.

(** [rand.Read(buf)] on a fresh buffer of [n] bytes. *)
Definition rand_Read (ent : Entropy) (n : Z) : result bytes :=
  (b <- rand_nonce ent ;; Ok (copyInto n b))%result.

Definition encHandshake_secrets (h : encHandshake) (auth authResp : bytes)
  : result secrets :=
  (prv <- deref (randomPrivKey h) ;;
   pub <- deref (remoteRandomPub h) ;;
   ecdheSecret <- GenerateShared prv pub sskLen sskLen ;;
   (* derive base secrets from ephemeral key agreement *)
   let sharedSecret := Keccak256 [ecdheSecret; Keccak256 [respNonce h; initNonce h]] in
   let aesSecret := Keccak256 [ecdheSecret; sharedSecret] in
   let macSecret := Keccak256 [ecdheSecret; aesSecret] in
   (* setup sha3 instances for the MACs *)
   x1 <- xor macSecret (respNonce h) ;;
   let mac1 := hash_Write (hash_Write sha3_NewLegacyKeccak256 x1) auth in
   x2 <- xor macSecret (initNonce h) ;;
   let mac2 := hash_Write (hash_Write sha3_NewLegacyKeccak256 x2) authResp in
   Ok {| Remote := remote h;
         AES := aesSecret;
         MAC := macSecret;
         EgressMAC := if initiator h then mac1 else mac2;
         IngressMAC := if initiator h then mac2 else mac1;
         Token := [] |})%result.

Definition staticSharedSecret (h : encHandshake) (prv : PrivateKey) : result bytes :=
  (r <- deref (remote h) ;; GenerateShared prv r sskLen sskLen)%result.

(** The digest [makeAuthMsg] signs (rlpx.go:370-374). *)
Definition signedDigest (h : encHandshake) (prv : PrivateKey) : result bytes :=
  (token <- staticSharedSecret h prv ;; xor token (initNonce h))%result.

Definition makeAuthMsg (h : encHandshake) (prv : PrivateKey) (ent : Entropy)
  : result (encHandshake * authMsgV4) :=
  (* Generate random initiator nonce. *)
  (nonce <- rand_Read ent shaLen ;;
   (* Generate random keypair for ECDH. *)
   key <- GenerateKey (rand_key ent) ;;
   let h := mkHS (h_CertSize h) (initiator h) (remote h) nonce (respNonce h)
                 (Some key) (remoteRandomPub h) in
   (* Sign known message: static-shared-secret ^ nonce *)
   signed <- signedDigest h prv ;;
   signature <- Sign (rand_sig ent) signed key ;;
   pubTail <- slice_from 1 (FromECDSAPub (Some (PubOf prv))) ;;
   Ok (h, {| Signature := copyInto sigLen signature;
             InitiatorPubkey := copyInto pubLen pubTail;
             auth_Nonce := copyInto shaLen nonce;
             auth_Version := TaiRLPXVersion;
             auth_CertSize := h_CertSize h |}))%result.

(** [importPublicKey] unmarshals 512 bit public keys. *)
Definition importPublicKey (pubKey : bytes) : result PublicKey :=
  if len pubKey =? 64 then UnmarshalPubkey (0x04 :: pubKey)
  else if len pubKey =? 65 then UnmarshalPubkey pubKey
  else Err (errInvalidPubkeyLength (len pubKey)).

Definition exportPubkey (pub : option PublicKey) : result bytes :=
  match pub with
  | None => Panic "nil pubkey"
  | Some p =>
      (x <- deref (X p) ;;
       y <- deref (Y p) ;;
       slice_from 1 (elliptic_Marshal (Curve p) x y))%result
  end.

(** [handleAuthResp]: the nonce and the imported key are stored first, the
    version is compared next, and the import error is returned last. *)
Definition handleAuthResp (h : encHandshake) (msg : authRespV4) : result encHandshake :=
  match importPublicKey (RandomPubkey msg) with
  | Panic w => Panic w
  | imported =>
      let h := mkHS (h_CertSize h) (initiator h) (remote h) (initNonce h)
                    (resp_Nonce msg) (randomPrivKey h)
                    (match imported with Ok p => Some p | _ => None end) in
      if negb (resp_Version msg =? TaiRLPXVersion)
      then Err (errAuthRespVersion (resp_Version msg))
      else match imported with
           | Err e => Err e
           | _ => Ok h
           end
  end.

Definition handleAuthMsg (h : encHandshake) (msg : authMsgV4) (prv : PrivateKey)
                         (ent : Entropy) : result encHandshake :=
  (* Import the remote identity. *)
  (rpub <- importPublicKey (InitiatorPubkey msg) ;;
   (* Generate random keypair for ECDH, unless one is already set. *)
   key <- match randomPrivKey h with
          | None => GenerateKey (rand_key ent)
          | Some k => Ok k
          end ;;
   let h := mkHS (h_CertSize h) (initiator h) (Some rpub) (auth_Nonce msg)
                 (respNonce h) (Some key) (remoteRandomPub h) in
   (* Check the signature. *)
   signedMsg <- signedDigest h prv ;;
   rrp <- SigToPub signedMsg (Signature msg) ;;
   Ok (mkHS (h_CertSize h) (initiator h) (remote h) (initNonce h) (respNonce h)
            (randomPrivKey h) (Some rrp)))%result.

Definition makeAuthResp (h : encHandshake) (ent : Entropy)
  : result (encHandshake * authRespV4) :=
  (* Generate random nonce. *)
  (nonce <- rand_Read ent shaLen ;;
   let h := mkHS (h_CertSize h) (initiator h) (remote h) (initNonce h) nonce
                 (randomPrivKey h) (remoteRandomPub h) in
   key <- deref (randomPrivKey h) ;;
   pubBytes <- exportPubkey (Some (PubOf key)) ;;
   Ok (h, {| RandomPubkey := copyInto pubLen pubBytes;
             resp_Nonce := copyInto shaLen nonce;
             resp_Version := TaiRLPXVersion;
             resp_CertSize := h_CertSize h |}))%result.

Definition authMsgV4_sealPlain (msg : authMsgV4) (h : encHandshake) (ent : Entropy)
  : result bytes :=
  (data <- rlp_EncodeAuthMsg msg ;;
   let buf := PutUint16 (auth_CertSize msg) in
   r <- deref (remote h) ;;
   Encrypt (rand_seal ent) r (buf ++ data))%result.

Definition authRespV4_sealPlain (msg : authRespV4) (hs : encHandshake) (ent : Entropy)
  : result bytes :=
  (data <- rlp_EncodeAuthResp msg ;;
   let buf := PutUint16 (resp_CertSize msg) in
   r <- deref (remote hs) ;;
   Encrypt (rand_seal ent) r (buf ++ data))%result.

(** [decodePlain] of both messages panics when [rlp.Decode] fails. *)
Definition authMsgV4_decodePlain (input : bytes) : result authMsgV4 :=
  match rlp_DecodeAuthMsg input with
  | Err _ => Panic "authRespV4 decode error"
  | r => r
  end.

Definition authRespV4_decodePlain (input : bytes) : result authRespV4 :=
  match rlp_DecodeAuthResp input with
  | Err _ => Panic "authRespV4 decode error"
  | r => r
  end.

#[export] Instance authMsgV4_plainDecoder : plainDecoder authMsgV4 := {
  decodePlain := authMsgV4_decodePlain;
  setCertSize := fun msg size =>
    mkAuth (Signature msg) (InitiatorPubkey msg) (auth_Nonce msg) (auth_Version msg) size
}.

#[export] Instance authRespV4_plainDecoder : plainDecoder authRespV4 := {
  decodePlain := authRespV4_decodePlain;
  setCertSize := fun msg size =>
    mkResp (RandomPubkey msg) (resp_Nonce msg) (resp_Version msg) size
}.

(** What [readHandshakeMsg] does with the packet once it is read
    (rlpx.go:570-577): the decoded message, its cert size set. *)
Definition openHandshakeMsg {T : Type} {pd : plainDecoder T}
                            (prv : PrivateKey) (buf : bytes) : result T :=
  match Decrypt prv buf with
  | Ok dec =>
      (prefix <- slice_to 2 dec ;;
       let size := Uint16 prefix in
       rest <- slice_from 2 dec ;;
       msg <- decodePlain rest ;;
       Ok (setCertSize msg size))%result
  | Err _ => Err errDecrypt
  | Panic w => Panic w
  end.

(** [readHandshakeMsg]: the message and the packet as read. *)
Definition readHandshakeMsg {T : Type} {pd : plainDecoder T}
                            (plainSize : Z) (prv : PrivateKey) : M Conn (T * bytes) :=
  (buf <- io_ReadFull plainSize ;;
   msg <- lift (openHandshakeMsg prv buf) ;;
   mret (msg, buf))%M.

(** The certificate step of the initiator (rlpx.go:321-350). *)
Definition initiatorCertExchange (cm : option certManager) (h : encHandshake)
                                 (authRespMsg : authRespV4) : M Conn unit :=
  match cm with
  | Some c =>
      if negb (len (cert c) =? 0) then
        if resp_CertSize authRespMsg =? 0 then lift (Err errInitiatorCertSizeZero)
        else if negb (uint16 (len (cert c)) =? resp_CertSize authRespMsg)
        then lift (Err errRemoteCertSize)
        else
          (conn_Write (cert c) ;;;
           buf <- io_ReadFull (resp_CertSize authRespMsg) ;;
           lift (VerifyCert (certList c) buf) ;;;
           pub <- lift (FromCertBytesToPubKey buf) ;;
           if negb (DeepEqual pub (remote h))
           then lift (Err errCertNotMatch)
           else mret tt)%M
      else mret tt
  | None => mret tt
  end.

Definition initiatorEncHandshake (cm : option certManager) (ent : Entropy)
                                 (prv : PrivateKey) (remotePub : PublicKey)
  : M Conn secrets :=
  let size := match cm with Some c => len (cert c) | None => 0 end in
  let h := mkHS (uint16 size) true (Some remotePub) [] [] None None in
  ('(h, authMsg) <- lift (makeAuthMsg h prv ent) ;;
   authPacket <- lift (authMsgV4_sealPlain authMsg h ent) ;;
   conn_Write authPacket ;;;
   '(authRespMsg, authRespPacket) <- readHandshakeMsg encAuthRespLen prv ;;
   h <- lift (handleAuthResp h authRespMsg) ;;
   initiatorCertExchange cm h authRespMsg ;;;
   lift (encHandshake_secrets h authPacket authRespPacket))%M.

(** The certificate gate of the receiver (rlpx.go:419-428): [find]. *)
Definition receiverCertGate (cm : option certManager) (authMsg : authMsgV4)
  : result bool :=
  match cm with
  | Some c =>
      if negb (len (cert c) =? 0) then
        if auth_CertSize authMsg =? 0 then Err errReceiverCertSizeZero
        else if negb (uint16 (len (cert c)) =? auth_CertSize authMsg)
        then Err errRemoteCertSize
        else Ok true
      else Ok false
  | None => Ok false
  end.

(** The certificate step of the receiver (rlpx.go:445-467). *)
Definition receiverCertExchange (cm : option certManager) (find : bool)
                                (h : encHandshake) (authMsg : authMsgV4) : M Conn unit :=
  if find then
    (buf <- io_ReadFull (auth_CertSize authMsg) ;;
     c <- lift (deref cm) ;;
     lift (VerifyCert (certList c) buf) ;;;
     pub <- lift (FromCertBytesToPubKey buf) ;;
     if negb (DeepEqual pub (remote h))
     then lift (Err errCertNotMatch)
     else conn_Write (cert c))%M
  else mret tt.

Definition receiverEncHandshake (cm : option certManager) (ent : Entropy)
                                (prv : PrivateKey) : M Conn secrets :=
  ('(authMsg, authPacket) <- readHandshakeMsg encAuthMsgLen prv ;;
   let h := mkHS (match cm with Some c => uint16 (len (cert c)) | None => 0 end)
                 false None [] [] None None in
   h <- lift (handleAuthMsg h authMsg prv ent) ;;
   find <- lift (receiverCertGate cm authMsg) ;;
   '(h, authRespMsg) <- lift (makeAuthResp h ent) ;;
   authRespPacket <- lift (authRespV4_sealPlain authRespMsg h ent) ;;
   conn_Write authRespPacket ;;;
   if negb (auth_Version authMsg =? TaiRLPXVersion)
   then lift (Err (errHandshakeVersion (auth_Version authMsg)))
   else
     receiverCertExchange cm find h authMsg ;;;
     lift (encHandshake_secrets h authPacket authRespPacket))%M.

(** [newRLPXFrameRW]. *)
Definition newRLPXFrameRW (c : Conn) (s : secrets) : result rlpxFrameRW :=
  match aes_NewCipher (MAC s) with
  | Ok macc =>
      match aes_NewCipher (AES s) with
      | Ok encc =>
          let iv := make 16 in
          Ok {| conn := c;
                enc := cipher_NewCTR encc iv;
                dec := cipher_NewCTR encc iv;
                macCipher := macc;
                egressMAC := EgressMAC s;
                ingressMAC := IngressMAC s;
                snappy := false |}
      | _ => Panic "invalid AES secret"
      end
  | _ => Panic "invalid MAC secret"
  end.

End Handshake.

(* ================================================================== *)
(** ** The transport and the rest of crypto.go and signature_cgo.go *)

(** [secp256k1N] and [secp256k1halfN] (crypto.go:51-54). *)
Definition secp256k1N : Z :=
  0xfffffffffffffffffffffffffffffffebaaedce6af48a03bbfd25e8cd0364141.
Definition secp256k1halfN : Z := secp256k1N / 2.

(** [ValidateSignatureValues]; [r] and [s] are the values of the two
    [*big.Int]. *)
Definition ValidateSignatureValues (v : byte) (r s : Z) (homestead : bool) : bool :=
  if (r <? 1) || (s <? 1) then false
  else if homestead && (s >? secp256k1halfN) then false
  else (r <? secp256k1N) && (s <? secp256k1N) && ((v =? 0) || (v =? 1)).

(** What else crypto.go and signature_cgo.go take from other packages: the
    parameters and the base-point multiplication of [crypto/elliptic], the
    three signature checks, and [common.BytesToAddress]. *)
Class KeyCollaborators : Type := {
  curve_BitSize : curve -> Z;                               (* Params().BitSize *)
  curve_ScalarBaseMult : curve -> bytes -> option (Z * Z);  (* nil X: [None] *)
  p256_Verify : PublicKey -> bytes -> bytes -> bool;
  sm2_Verify : PublicKey -> bytes -> bytes -> bool;
  secp256k1_VerifySignature : bytes -> bytes -> bytes -> bool;
  common_BytesToAddress : bytes -> bytes
}.

(** The errors of [toECDSA], one constructor per [fmt.Errorf] / [errors.New]
    site. *)
Inductive keyError : Type :=
| errKeyLength (bits : Z)     (* "invalid length, need %d bits" *)
| errKeyTooLarge              (* "invalid private key, >=N" *)
| errKeyNotPositive           (* "invalid private key, zero or negative" *)
| errKeyNoPoint.              (* "invalid private key" *)

(** [hex.EncodeToString]: two lower-case digits per byte, as character
    codes. *)
Definition hexDigit (n : Z) : Z := if n <? 10 then 48 + n else 87 + n.

Definition hex_EncodeToString (a : bytes) : bytes :=
  flat_map (fun b => [hexDigit (b / 16); hexDigit (b mod 16)]) a.

(** The loop of [Hex] from index [i] on: [hash[i/2]] panics past the end of
    the hash; a character above ['9'] whose nibble of the hash is above 7
    loses 32. *)
Fixpoint checksumFrom (hash : bytes) (i : nat) (chars : bytes) : result bytes :=
  match chars with
  | [] => Ok []
  | c :: chars' =>
      match nth_error hash (Nat.div i 2) with
      | None => Panic "index out of range"
      | Some h =>
          let hashByte := if Nat.even i then Z.shiftr h 4 else Z.land h 0xf in
          let c' := if (c >? 57) && (hashByte >? 7) then to_byte (c - 32) else c in
          rbind (checksumFrom hash (S i) chars') (fun r => Ok (c' :: r))
      end
  end.

(** An upper-case hexadecimal letter made lower-case, and the characters
    [hex.EncodeToString] produces. *)
Definition lowerHex (c : Z) : Z := if (65 <=? c) && (c <=? 70) then c + 32 else c.

Definition isHexChar (c : Z) : Prop := 48 <= c <= 57 \/ 97 <= c <= 102.

Section CryptoMore.

Context {prims : SymmetricPrimitives} {ec : CurveSuites} {cfg : CryptoConfig}
        {kc : KeyCollaborators}.

(** [toECDSA]: the length is checked against the curve, the value against
    [secp256k1N] whatever the curve. *)
Definition toECDSA (c : curve) (d : bytes) (strict : bool) : PrivateKey + keyError :=
  if strict && negb (8 * len d =? curve_BitSize c) then inr (errKeyLength (curve_BitSize c))
  else
    let D := be_value d in
    (* The priv.D must < N *)
    if D >=? secp256k1N then inr errKeyTooLarge
    (* The priv.D must not be zero or negative. *)
    else if D <=? 0 then inr errKeyNotPositive
    else
      match curve_ScalarBaseMult c d with
      | None => inr errKeyNoPoint
      | Some (x, y) => inl {| PubOf := {| Curve := c; X := Some x; Y := Some y |}; D := D |}
      end.

Definition ToECDSA (d : bytes) : PrivateKey + keyError :=
  toECDSA (curveOf CryptoType) d true.

Definition ToECDSAUnsafe (d : bytes) : option PrivateKey :=
  match toECDSA (curveOf CryptoType) d true with
  | inl k => Some k
  | inr _ => None
  end.

(** [FromECDSA]. *)
Definition FromECDSA (priv : option PrivateKey) : bytes :=
  match priv with
  | None => []
  | Some k => math_PaddedBigBytes (D k) (curve_BitSize (Curve (PubOf k)) / 8)
  end.

(** [PubkeyToAddress]: both slice expressions panic on a slice that is too
    short. *)
Definition PubkeyToAddress (p : PublicKey) : result bytes :=
  (tail <- slice_from 1 (FromECDSAPub (Some p)) ;;
   h <- slice_from 12 (Keccak256 [tail]) ;;
   Ok (common_BytesToAddress h))%result.

(** [CreateAddress2]. *)
Definition CreateAddress2 (b salt inithash : bytes) : result bytes :=
  (h <- slice_from 12 (Keccak256 [[0xff]; b; salt; inithash]) ;;
   Ok (common_BytesToAddress h))%result.

(** [VerifySignature]. *)
Definition VerifySignature (pubkey digestHash signature : bytes) : result bool :=
  if negb (len signature =? 98) || negb (len digestHash =? 32) then Ok false
  else
    let withKey (verify : PublicKey -> bytes -> bytes -> bool) : result bool :=
      match (if len pubkey =? 33 then DecompressPubkey pubkey
             else UnmarshalPubkey pubkey) with
      | Ok p => Ok (verify p digestHash signature)
      | Err _ => Ok false
      | Panic w => Panic w
      end in
    match CryptoType with
    | CRYPTO_P256_SH3_AES => withKey p256_Verify
    | CRYPTO_SM2_SM3_SM4 => withKey sm2_Verify
    | CRYPTO_S256_SH3_AES => Ok (secp256k1_VerifySignature pubkey digestHash signature)
    end.

(** [Hex]: the checksummed hexadecimal form, as character codes. *)
Definition Hex (a : bytes) : result bytes :=
  let unchecksummed := hex_EncodeToString a in
  match CryptoType with
  | CRYPTO_P256_SH3_AES =>
      (r <- checksumFrom (hash_Sum (hash_Write sha3_NewLegacyKeccak256 unchecksummed))
                         0 unchecksummed ;;
       Ok ([48; 120] ++ r))%result
  | CRYPTO_SM2_SM3_SM4 =>
      (r <- checksumFrom (copyInto 32 (sm3_digest unchecksummed)) 0 unchecksummed ;;
       Ok ([48; 120] ++ r))%result
  | CRYPTO_S256_SH3_AES => Ok []
  end.

End CryptoMore.

(** [rlpx]: the connection and, once the handshake is done, the frame codec
    over it. *)
Record rlpx : Type := mkRLPX {
  fd : Conn;
  t_rw : option rlpxFrameRW
}.

Section Transport.

Context {prims : SymmetricPrimitives} {ec : CurveSuites} {cfg : CryptoConfig}
        {hsenc : HandshakeEncoders} {ca : CertAuthority}.

(** [doEncHandshake]: the receiver's run when [dial] is nil, the
    initiator's otherwise; then the codec is built over the connection. *)
Definition doEncHandshake (cm : option certManager) (ent : Entropy) (prv : PrivateKey)
                          (dial : option PublicKey) : M rlpx (option PublicKey) :=
  fun t =>
    let '(c, r) := match dial with
                   | None => receiverEncHandshake cm ent prv (fd t)
                   | Some d => initiatorEncHandshake cm ent prv d (fd t)
                   end in
    match r with
    | Ok sec =>
        match newRLPXFrameRW c sec with
        | Ok rw => ({| fd := c; t_rw := Some rw |}, Ok (Remote sec))
        | Err e => ({| fd := c; t_rw := t_rw t |}, Err e)
        | Panic w => ({| fd := c; t_rw := t_rw t |}, Panic w)
        end
    | Err e => ({| fd := c; t_rw := t_rw t |}, Err e)
    | Panic w => ({| fd := c; t_rw := t_rw t |}, Panic w)
    end.

(** The number of certificate bytes a side waits for: the [uint16] of the
    length of its own certificate when it has one. *)
Definition certAwaited (cm : option certManager) : Z :=
  match cm with
  | Some c => if len (cert c) =? 0 then 0 else uint16 (len (cert c))
  | None => 0
  end.

End Transport.

(* ================================================================== *)
(** ** A reference suite of collaborators

    A small, executable instance of every interface above, used to run the
    handshake and the codec on concrete inputs. Its encoders produce the
    sizes of the real ones (RLP of integers and of the two handshake
    messages, a 113-byte sealing overhead, 65-byte signatures, 33-byte
    compressed keys); its hash, cipher and curve are arithmetic stand-ins. *)

Module Ref.

Definition K : Z := 37.

(** A polynomial hash of 61 bits, repeated to fill 32 bytes, least
    significant byte first. *)
Definition polyHash (iv : Z) (x : bytes) : bytes :=
  let s := fold_left (fun acc b => Z.land (K * acc + b + 1) (Z.ones 61)) x iv in
  rev (be_bytes 32 (s + Z.shiftl s 64 + Z.shiftl s 128 + Z.shiftl s 192)).

(** A byte-wise substitution under the key. *)
Definition mixBlock (key blk : bytes) : bytes :=
  map (fun p => (fst p + 7 * snd p + 1) mod 256) (combine blk key).

#[export] Instance prims : SymmetricPrimitives := {
  keccak256_sponge := polyHash 7;
  sm3_digest := polyHash 11;
  aes_encryptBlock := mixBlock
}.

(** RLP of a [uint64]. *)
Definition uintSize (c : Z) : nat :=
  if c <? 2 ^ 8 then 1 else if c <? 2 ^ 16 then 2 else if c <? 2 ^ 24 then 3
  else if c <? 2 ^ 32 then 4 else if c <? 2 ^ 40 then 5 else if c <? 2 ^ 48 then 6
  else if c <? 2 ^ 56 then 7 else 8%nat.

Definition encodeUint (c : Z) : bytes :=
  if c =? 0 then [0x80]
  else if c <? 0x80 then [c]
  else (0x80 + Z.of_nat (uintSize c)) :: be_bytes (uintSize c) c.

Definition decodeUint (input : bytes) : result (Z * bytes) :=
  match input with
  | [] => Err io_EOF
  | b :: rest =>
      if b <? 0x80 then
        if b =? 0 then Err (errExternal "rlp: non-canonical integer") else Ok (b, rest)
      else if b =? 0x80 then Ok (0, rest)
      else if b <=? 0x88 then
        let n := b - 0x80 in
        if len rest <? n then Err io_ErrUnexpectedEOF
        else
          let v := be_value (take n rest) in
          if (nth 0 rest 0 =? 0) || ((n =? 1) && (v <? 0x80))
          then Err (errExternal "rlp: non-canonical integer")
          else Ok (v, drop n rest)
      else Err (errExternal "rlp: expected integer")
  end.

(** A stand-in for snappy: the length in four bytes, then the data. *)
Definition packEncode (p : bytes) : bytes := be_bytes 4 (len p) ++ p.
Definition packDecodedLen (c : bytes) : result Z :=
  if len c <? 4 then Err (errExternal "snappy: corrupt input")
  else Ok (be_value (take 4 c)).
Definition packDecode (c : bytes) : result bytes :=
  if len c <? 4 then Err (errExternal "snappy: corrupt input")
  else if be_value (take 4 c) =? len (drop 4 c) then Ok (drop 4 c)
  else Err (errExternal "snappy: corrupt input").

#[export] Instance encs : FrameEncoders := {
  rlp_EncodeUint := encodeUint;
  rlp_DecodeUint := decodeUint;
  snappy_Encode := packEncode;
  snappy_Decode := packDecode;
  snappy_DecodedLen := packDecodedLen
}.

(** RLP of a byte array of 2 to 255 bytes, and of a list of up to 255
    bytes of payload. *)
Definition encodeString (b : bytes) : bytes :=
  if len b <? 56 then (0x80 + len b) :: b else 0xb8 :: len b :: b.
Definition encodeList (payload : bytes) : bytes :=
  if len payload <? 56 then (0xc0 + len payload) :: payload
  else 0xf8 :: len payload :: payload.

Definition encodeAuthMsg (m : authMsgV4) : result bytes :=
  Ok (encodeList (encodeString (Signature m) ++ encodeString (InitiatorPubkey m)
                  ++ encodeString (auth_Nonce m) ++ encodeUint (auth_Version m))).

Definition encodeAuthResp (m : authRespV4) : result bytes :=
  Ok (encodeList (encodeString (RandomPubkey m) ++ encodeString (resp_Nonce m)
                  ++ encodeUint (resp_Version m))).

(** Decoding reads the fields back at their offsets and checks every header. *)
Definition decodeAuthMsg (input : bytes) : result authMsgV4 :=
  if bytes_eqb (take 2 input) [0xf8; len input - 2]
     && bytes_eqb (take 2 (drop 2 input)) [0xb8; sigLen]
     && bytes_eqb (take 2 (drop 102 input)) [0xb8; pubLen]
     && bytes_eqb (take 1 (drop 168 input)) [0x80 + shaLen]
  then
    match decodeUint (drop 201 input) with
    | Ok (v, []) =>
        Ok {| Signature := take sigLen (drop 4 input);
              InitiatorPubkey := take pubLen (drop 104 input);
              auth_Nonce := take shaLen (drop 169 input);
              auth_Version := v;
              auth_CertSize := 0 |}
    | Ok (_, _ :: _) => Err (errExternal "rlp: input list has too many elements")
    | Err e => Err e
    | Panic w => Panic w
    end
  else Err (errExternal "rlp: malformed authMsgV4").

Definition decodeAuthResp (input : bytes) : result authRespV4 :=
  if bytes_eqb (take 2 input) [0xf8; len input - 2]
     && bytes_eqb (take 2 (drop 2 input)) [0xb8; pubLen]
     && bytes_eqb (take 1 (drop 68 input)) [0x80 + shaLen]
  then
    match decodeUint (drop 101 input) with
    | Ok (v, []) =>
        Ok {| RandomPubkey := take pubLen (drop 4 input);
              resp_Nonce := take shaLen (drop 69 input);
              resp_Version := v;
              resp_CertSize := 0 |}
    | Ok (_, _ :: _) => Err (errExternal "rlp: input list has too many elements")
    | Err e => Err e
    | Panic w => Panic w
    end
  else Err (errExternal "rlp: malformed authRespV4").

#[export] Instance hsenc : HandshakeEncoders := {
  rlp_EncodeAuthMsg := encodeAuthMsg;
  rlp_DecodeAuthMsg := decodeAuthMsg;
  rlp_EncodeAuthResp := encodeAuthResp;
  rlp_DecodeAuthResp := decodeAuthResp
}.

(** The stand-in group: integers modulo [Q] under addition, generator [G];
    a public key is [d * G], its second coordinate the square of the first. *)
Definition Q : Z := 2 ^ 255 - 19.
Definition G : Z := 9.

Definition pubOfScalar (c : curve) (d : Z) : PublicKey :=
  let x := (d * G) mod Q in
  {| Curve := c; X := Some x; Y := Some ((x * x) mod Q) |}.

Definition generateKey (seed : bytes) (c : curve) : result PrivateKey :=
  let d := 1 + be_value seed mod (Q - 1) in
  Ok {| PubOf := pubOfScalar c d; D := d |}.

(** Key agreement fills a buffer of [skLen + macLen] bytes. *)
Definition generateShared (prv : PrivateKey) (pub : PublicKey) (skLen macLen : Z)
  : result bytes :=
  match X pub with
  | Some x => Ok (be_bytes (Z.to_nat (skLen + macLen)) ((D prv * x) mod Q))
  | None => Err (errExternal "ecies: invalid public key")
  end.

(** Sealing: 65 bytes naming the recipient, a 16-byte IV taken from the
    seed, a 32-byte tag, then the message shifted by the IV's first byte. *)
Definition sealTo (seed : bytes) (pub : PublicKey) (m : bytes) : result bytes :=
  match X pub with
  | Some x =>
      let iv := copyInto 16 seed in
      Ok (be_bytes 65 x ++ iv ++ polyHash 13 m
          ++ map (fun b => Z.lxor b (nth 0 iv 0)) m)
  | None => Err (errExternal "ecies: invalid public key")
  end.

Definition openWith (prv : PrivateKey) (c : bytes) : result bytes :=
  if len c <? eciesOverhead then Err (errExternal "ecies: invalid message")
  else
    let m := map (fun b => Z.lxor b (nth 65 c 0)) (drop eciesOverhead c) in
    if optZ_eqb (X (PubOf prv)) (Some (be_value (take 65 c)))
       && bytes_eqb (take 32 (drop 81 c)) (polyHash 13 m)
    then Ok m
    else Err (errExternal "ecies: invalid message").

(** Signatures: 64 bytes binding key and digest, and a recovery byte. *)
Definition signWith (seed : bytes) (prv : PrivateKey) (digest : bytes) : result bytes :=
  Ok (polyHash (D prv) digest ++ polyHash (D prv + 1) (digest ++ seed) ++ [0]).

Definition compress (p : PublicKey) : bytes :=
  match X p with
  | Some x => (2 + x mod 2) :: be_bytes 32 x
  | None => []
  end.

Definition decompress (c : curve) (b : bytes) : PublicKey :=
  let x := be_value (drop 1 b) in
  {| Curve := c; X := Some x; Y := Some ((x * x) mod Q) |}.

Definition marshal (c : curve) (x y : Z) : bytes :=
  0x04 :: be_bytes 32 x ++ be_bytes 32 y.

Definition unmarshal (c : curve) (b : bytes) : option (Z * Z) :=
  if (len b =? 65) && (nth 0 b 0 =? 0x04) then
    let x := be_value (take 32 (drop 1 b)) in
    let y := be_value (drop 33 b) in
    if y =? (x * x) mod Q then Some (x, y) else None
  else None.

#[export] Instance ec : CurveSuites := {
  ecies_GenerateKey := generateKey;
  ecies_Encrypt := sealTo;
  ecies_Decrypt := openWith;
  ecies_GenerateShared := generateShared;
  sm2_Encrypt := sealTo;
  sm2_Decrypt := openWith;
  sm2_GenerateShared := generateShared;
  p256_Sign := signWith;
  sm2_Sign := signWith;
  secp256k1_Sign := fun digest seckey => Ok (polyHash (be_value seckey) digest
                                             ++ polyHash (be_value seckey + 1) digest ++ [0]);
  p256_ECRecovery := fun _ _ => Err (errExternal "p256: recovery failed");
  secp256k1_RecoverPubkey := fun _ sig =>
    if len sig =? 65 then Err (errExternal "secp256k1: recovery failed")
    else Err (errExternal "invalid signature length");
  p256_DecompressPubkey := fun b => Ok (decompress P256 b);
  sm2_Decompress := decompress P256Sm2;
  secp256k1_DecompressPubkey := fun b =>
    let x := be_value (drop 1 b) in Some (x, (x * x) mod Q);
  p256_CompressPubkey := compress;
  sm2_Compress := compress;
  secp256k1_CompressPubkey := fun x _ =>
    match x with Some v => (2 + v mod 2) :: be_bytes 32 v | None => [] end;
  elliptic_Marshal := marshal;
  elliptic_Unmarshal := unmarshal;
  math_PaddedBigBytes := fun d n => be_bytes (Z.to_nat n) d
}.

(** Certificates of the reference authority: the marshalled public key;
    the trusted list holds the accepted certificates. *)
Definition certTrusted (l : list bytes) (b : bytes) : result unit :=
  if existsb (bytes_eqb b) l then Ok tt else Err (errExternal "cim: unknown certificate").

#[export] Instance p256cfg : CryptoConfig := {| CryptoType := CRYPTO_P256_SH3_AES |}.

Definition certPubKey (b : bytes) : result (option PublicKey) :=
  match unmarshal P256 b with
  | Some (x, y) => Ok (Some {| Curve := P256; X := Some x; Y := Some y |})
  | None => Err (errExternal "x509: malformed certificate")
  end.

#[export] Instance ca : CertAuthority := {
  CimList := list bytes;
  VerifyCert := certTrusted;
  FromCertBytesToPubKey := certPubKey
}.

End Ref.

(* ================================================================== *)
(** ** Definitions used to state the properties of the frame codec *)

Section FrameCodecSpec.

Context {prims : SymmetricPrimitives} {encs : FrameEncoders}.

(** Byte-wise XOR of two strings, up to the shorter one. *)
Definition xorPrefix (a b : bytes) : bytes :=
  map (fun p => Z.lxor (fst p) (snd p)) (combine a b).

(** The hash after [updateMAC(mac, block, seed)], and the tag it returns. *)
Definition reseed (mac : hashState) (block seed : bytes) : hashState :=
  hash_Write mac
    (xorPrefix (copyInto 16 (aes_encryptBlock block (take 16 (hash_Sum mac)))) seed).

Definition tagOf (mac : hashState) : bytes := take 16 (hash_Sum mac).

(** The header of a frame before encryption, and the zero padding after the
    frame content. *)
Definition plainHeader (fsize : Z) : bytes := putInt24 fsize ++ zeroHeader ++ make 10.

Definition padding (fsize : Z) : bytes :=
  if fsize mod 16 >? 0 then take (16 - fsize mod 16) zero16 else [].

(** A frame built in one piece from the state of the writer: the four parts
    on the wire, and the stream and hash the writer is left with. *)
Record sealed : Type := mkSealed {
  s_header : bytes;
  s_headerMAC : bytes;
  s_body : bytes;
  s_frameMAC : bytes;
  s_enc : ctrStream;
  s_egressMAC : hashState
}.

Definition sealFrame (rw : rlpxFrameRW) (ptype payload : bytes) (fsize : Z) : sealed :=
  let '(s1, hdr) := XORKeyStream (enc rw) (plainHeader fsize) in
  let mac1 := reseed (egressMAC rw) (macCipher rw) hdr in
  let '(s2, body) := XORKeyStream s1 (ptype ++ payload ++ padding fsize) in
  let mac2 := hash_Write mac1 body in
  let mac3 := reseed mac2 (macCipher rw) (hash_Sum mac2) in
  {| s_header := hdr; s_headerMAC := tagOf mac1; s_body := body;
     s_frameMAC := tagOf mac3; s_enc := s2; s_egressMAC := mac3 |}.

Definition wire (f : sealed) : bytes :=
  s_header f ++ s_headerMAC f ++ s_body f ++ s_frameMAC f.

(** The state [WriteMsg] leaves behind when it has written the frame [f]. *)
Definition written (rw : rlpxFrameRW) (f : sealed) : rlpxFrameRW :=
  mkRW {| rd := rd (conn rw); wr := wr (conn rw) ++ wire f; closed := closed (conn rw) |}
       (s_enc f) (dec rw) (macCipher rw) (s_egressMAC f) (ingressMAC rw) (snappy rw).

(** The state [ReadMsg] leaves behind when it has accepted the frame [f]. *)
Definition accepted (r : rlpxFrameRW) (f : sealed) (rest : bytes) : rlpxFrameRW :=
  mkRW {| rd := rest; wr := wr (conn r); closed := closed (conn r) |}
       (enc r) (s_enc f) (macCipher r) (egressMAC r) (s_egressMAC f) (snappy r).

(** What [ReadMsg] makes of the decrypted frame content (rlpx.go:759-786). *)
Definition decodeContent (sn : bool) (content : bytes) : result Msg :=
  (p <- rlp_DecodeUint content ;;
   decompressMsg sn {| Code := fst p; Size := uint32 (len (snd p)); Payload := snd p |})%result.


(** Bit [i] of a byte string flipped, bits counted from the first byte. *)
Fixpoint flipBit (i : nat) (b : bytes) : bytes :=
  match b with
  | [] => []
  | x :: b' =>
      if Nat.ltb i 8 then Z.lxor x (2 ^ Z.of_nat i) :: b'
      else x :: flipBit (i - 8) b'
  end.






(** The header MAC as the design document words it: the whitened digest is
    XOR-ed with the header bytes as they were before encryption. *)
Definition headerMAC_over_plaintext (rw : rlpxFrameRW) (fsize : Z) : bytes :=
  tagOf (reseed (egressMAC rw) (macCipher rw) (plainHeader fsize)).

(** A writer and a reader are matched when the reader decrypts with the
    stream the writer encrypts with and verifies with the writer's MAC. *)
Definition matched (w r : rlpxFrameRW) : Prop :=
  enc w = dec r /\ macCipher w = macCipher r /\ egressMAC w = ingressMAC r
  /\ snappy w = snappy r.

(** The reader [r] with [input] waiting on its connection. *)
Definition receiving (r : rlpxFrameRW) (input : bytes) : rlpxFrameRW :=
  set_conn r {| rd := input; wr := wr (conn r); closed := closed (conn r) |}.

End FrameCodecSpec.

(* ================================================================== *)
(** ** Definitions used to state the properties of the handshake *)

Section HandshakeSpec.

Context {prims : SymmetricPrimitives} {ec : CurveSuites} {cfg : CryptoConfig}
        {hsenc : HandshakeEncoders} {ca : CertAuthority}.

(** What a side has written when its certificate step went through. *)
Definition certSent (cm : option certManager) : bytes :=
  match cm with
  | Some c => if len (cert c) =? 0 then [] else cert c
  | None => []
  end.

(** A key that [GenerateKey] returns for some randomness. *)
Definition generated (k : PrivateKey) : Prop := exists seed, GenerateKey seed = Ok k.

(** What the handshake needs of the collaborators: key agreement is
    symmetric, a sealed message opens under the recipient's key, the key that
    signed is recovered from the signature, public keys and the two handshake
    messages survive their wire encoding. *)
Record SuiteLaws : Prop := {
  law_agreement : forall a b, generated a -> generated b ->
    GenerateShared a (PubOf b) sskLen sskLen = GenerateShared b (PubOf a) sskLen sskLen;
  law_open : forall seed prv m c, generated prv ->
    Encrypt seed (PubOf prv) m = Ok c -> Decrypt prv c = Ok m;
  law_recover : forall seed d k sig, generated k ->
    Sign seed d k = Ok sig -> SigToPub d (copyInto sigLen sig) = Ok (PubOf k);
  law_static_pub : forall k t, generated k ->
    slice_from 1 (FromECDSAPub (Some (PubOf k))) = Ok t ->
    importPublicKey (copyInto pubLen t) = Ok (PubOf k);
  law_random_pub : forall k t, generated k ->
    exportPubkey (Some (PubOf k)) = Ok t ->
    importPublicKey (copyInto pubLen t) = Ok (PubOf k);
  law_rlp_auth : forall m b,
    len (Signature m) = sigLen -> len (InitiatorPubkey m) = pubLen ->
    len (auth_Nonce m) = shaLen -> auth_Version m = TaiRLPXVersion ->
    rlp_EncodeAuthMsg m = Ok b -> rlp_DecodeAuthMsg b = Ok (setCertSize m 0);
  law_rlp_resp : forall m b,
    len (RandomPubkey m) = pubLen -> len (resp_Nonce m) = shaLen ->
    resp_Version m = TaiRLPXVersion ->
    rlp_EncodeAuthResp m = Ok b -> rlp_DecodeAuthResp b = Ok (setCertSize m 0)
}.

End HandshakeSpec.

(* ================================================================== *)
(** ** Concrete runs over the reference suite

    Two peers A and B (and a third key C), the randomness each draws, the
    packets their handshake runs produce, and a frame writer and reader. *)

Module Scenario.

Import Ref.

Definition noKey : PrivateKey :=
  {| PubOf := {| Curve := P256; X := None; Y := None |}; D := 0 |}.

Definition keyOf (seed : bytes) : PrivateKey :=
  match GenerateKey seed with Ok k => k | _ => noKey end.

Definition keyA : PrivateKey := keyOf [1; 2; 3].
Definition keyB : PrivateKey := keyOf [9; 9; 9; 1].
Definition keyC : PrivateKey := keyOf [4; 4].

Definition entA : Entropy :=
  mkEntropy (Ok (map Z.of_nat (seq 1 32))) [5; 6; 7] [8] [42; 1].
Definition entB : Entropy :=
  mkEntropy (Ok (map Z.of_nat (seq 100 32))) [15; 16; 17] [8] [43; 1].

(** An open connection with [input] waiting and nothing written yet. *)
Definition pipe (input : bytes) : Conn := mkConn input [] false.

Definition secretsOf (run : Conn * result secrets) : secrets :=
  match snd run with Ok s => s | _ => mkSecrets None [] [] [] [] [] end.

Definition bytesOf (r : result bytes) : bytes :=
  match r with Ok b => b | _ => [] end.

Definition valueOf {A : Type} (fallback : A) (r : result A) : A :=
  match r with Ok a => a | _ => fallback end.

Definition noState : encHandshake := mkHS 0 false None [] [] None None.

(** *** A handshake without certificates *)

Definition authPacketA : bytes :=
  wr (fst (initiatorEncHandshake None entA keyA (PubOf keyB) (pipe []))).

Definition runB : Conn * result secrets :=
  receiverEncHandshake None entB keyB (pipe authPacketA).

Definition respPacketB : bytes := wr (fst runB).

Definition runA : Conn * result secrets :=
  initiatorEncHandshake None entA keyA (PubOf keyB) (pipe respPacketB).

(** *** The two messages as each side decodes them, and copies of them that
    carry another version number *)

Definition authMsgA : authMsgV4 :=
  match openHandshakeMsg keyB authPacketA with
  | Ok m => m
  | _ => mkAuth [] [] [] 0 0
  end.

Definition respMsgB : authRespV4 :=
  match openHandshakeMsg keyA respPacketB with
  | Ok m => m
  | _ => mkResp [] [] 0 0
  end.

Definition authMsgV16 : authMsgV4 :=
  mkAuth (Signature authMsgA) (InitiatorPubkey authMsgA) (auth_Nonce authMsgA) 16 0.

Definition respMsgV16 : authRespV4 :=
  mkResp (RandomPubkey respMsgB) (resp_Nonce respMsgB) 16 0.

Definition authPacketV16 : bytes :=
  bytesOf (authMsgV4_sealPlain authMsgV16
             (mkHS 0 true (Some (PubOf keyB)) [] [] None None) entA).

Definition respPacketV16 : bytes :=
  bytesOf (authRespV4_sealPlain respMsgV16
             (mkHS 0 false (Some (PubOf keyA)) [] [] None None) entB).

(** The steps of the two runs on these packets, one by one. *)

Definition madeAuthA : encHandshake * authMsgV4 :=
  valueOf (noState, mkAuth [] [] [] 0 0)
          (makeAuthMsg (mkHS 0 true (Some (PubOf keyB)) [] [] None None) keyA entA).

Definition handledV16 : encHandshake :=
  valueOf noState (handleAuthMsg noState authMsgV16 keyB entB).

Definition madeRespV16 : encHandshake * authRespV4 :=
  valueOf (noState, mkResp [] [] 0 0) (makeAuthResp handledV16 entB).

(** *** Packets that do not decrypt, and packets that decrypt to bytes that
    are not the RLP of a handshake message *)

Definition noiseAuth : bytes := make encAuthMsgLen.
Definition noiseResp : bytes := make encAuthRespLen.
Definition junkAuth : bytes := bytesOf (Encrypt [7] (PubOf keyB) (make 204)).
Definition junkResp : bytes := bytesOf (Encrypt [7] (PubOf keyA) (make 104)).

(** *** A handshake with certificates: a certificate is the marshalled public
    key; both sides trust the certificates of A, B and C *)

Definition certOf (k : PrivateKey) : bytes := FromECDSAPub (Some (PubOf k)).

Definition cmA : certManager := mkCM ca (certOf keyA) [certOf keyB; certOf keyC].
Definition cmB : certManager := mkCM ca (certOf keyB) [certOf keyA; certOf keyC].

Definition authPacketAc : bytes :=
  wr (fst (initiatorEncHandshake (Some cmA) entA keyA (PubOf keyB) (pipe []))).

Definition runBc : Conn * result secrets :=
  receiverEncHandshake (Some cmB) entB keyB (pipe (authPacketAc ++ certOf keyA)).

Definition respPacketBc : bytes := take encAuthRespLen (wr (fst runBc)).

Definition runAc : Conn * result secrets :=
  initiatorEncHandshake (Some cmA) entA keyA (PubOf keyB) (pipe (respPacketBc ++ certOf keyB)).

(** The steps of the two runs with certificates, one by one. *)

Definition madeAuthAc : encHandshake * authMsgV4 :=
  valueOf (noState, mkAuth [] [] [] 0 0)
          (makeAuthMsg (mkHS (uint16 (len (cert cmA))) true (Some (PubOf keyB)) [] [] None None)
                       keyA entA).

Definition respMsgBc : authRespV4 :=
  valueOf (mkResp [] [] 0 0) (openHandshakeMsg keyA respPacketBc).

Definition handledRespAc : encHandshake :=
  valueOf noState (handleAuthResp (fst madeAuthAc) respMsgBc).

Definition authMsgAc : authMsgV4 :=
  valueOf (mkAuth [] [] [] 0 0) (openHandshakeMsg keyB authPacketAc).

Definition handledAc : encHandshake :=
  valueOf noState
          (handleAuthMsg (mkHS (uint16 (len (cert cmB))) false None [] [] None None)
                         authMsgAc keyB entB).

Definition madeRespBc : encHandshake * authRespV4 :=
  valueOf (noState, mkResp [] [] 0 0) (makeAuthResp handledAc entB).

(** *** A handshake state holding both ephemeral keys and both nonces *)

Definition ephA : PrivateKey := keyOf (rand_key entA).
Definition ephB : PrivateKey := keyOf (rand_key entB).

Definition stateA : encHandshake :=
  mkHS 0 true (Some (PubOf keyB)) (bytesOf (rand_nonce entA)) (bytesOf (rand_nonce entB))
       (Some ephA) (Some (PubOf ephB)).

(** [stateA] with bit 0 of byte 20 of the initiator nonce flipped. *)
Definition stateA20 : encHandshake :=
  mkHS 0 true (Some (PubOf keyB)) (flipBit 160 (initNonce stateA)) (respNonce stateA)
       (Some ephA) (Some (PubOf ephB)).

(** *** The S256 mode *)

Definition s256cfg : CryptoConfig := {| CryptoType := CRYPTO_S256_SH3_AES |}.

(** What [makeAuthMsg] of A returns in that mode. *)
Definition madeAuthS256 : encHandshake * authMsgV4 :=
  valueOf (noState, mkAuth [] [] [] 0 0)
          (makeAuthMsg (cfg := s256cfg)
                       (mkHS 0 true (Some (PubOf keyB)) [] [] None None) keyA entA).

(** *** A frame writer and a matching reader *)

Definition frameKey : bytes := map Z.of_nat (seq 3 32).
Definition frameMacKey : bytes := map Z.of_nat (seq 50 32).

Definition writer (sn : bool) : rlpxFrameRW :=
  mkRW (pipe []) (cipher_NewCTR frameKey (make 16)) (cipher_NewCTR frameKey (make 16))
       frameMacKey [1; 2; 3] [9] sn.

Definition reader (sn : bool) : rlpxFrameRW :=
  mkRW (pipe []) (cipher_NewCTR frameKey (make 16)) (cipher_NewCTR frameKey (make 16))
       frameMacKey [7] [1; 2; 3] sn.

Definition msg17 : Msg := mkMsg 3 17 (map Z.of_nat (seq 10 17)).

(** Messages at the size limit: the payloads are zero bytes. *)
Definition msgOfSize (n : Z) : Msg := mkMsg 0 n (make n).

End Scenario.

(* ================================================================== *)
(** ** The reference suite, continued, and more concrete inputs *)

Module RefKeys.

Import Ref.

#[export] Instance kc : KeyCollaborators := {
  curve_BitSize := fun _ => 256;
  curve_ScalarBaseMult := fun _ d =>
    let x := (be_value d * G) mod Q in Some (x, (x * x) mod Q);
  p256_Verify := fun _ _ _ => true;
  sm2_Verify := fun _ _ _ => true;
  secp256k1_VerifySignature := fun _ _ sig => len sig =? 64;
  common_BytesToAddress := fun b =>
    if len b >? 20 then drop (len b - 20) b else make (20 - len b) ++ b
}.

End RefKeys.

Module ScenarioMore.

Import Ref RefKeys Scenario.

(** *** Frames *)

Definition closedWriter : rlpxFrameRW :=
  mkRW (mkConn [] [] true) (enc (writer false)) (dec (writer false))
       (macCipher (writer false)) (egressMAC (writer false)) (ingressMAC (writer false))
       false.

Definition msg5 : Msg := mkMsg 4 5 [1; 2; 3; 4; 5].

(** A payload that announces [2^24] bytes to the stand-in decompressor. *)
Definition bigAnnounce : bytes := [1; 0; 0; 0; 9].

(** *** Handshakes *)

(** The auth message of A with the first 65 bytes of its signature zeroed. *)
Definition authMsgForged : authMsgV4 :=
  mkAuth (make 65 ++ drop 65 (Signature authMsgA)) (InitiatorPubkey authMsgA)
         (auth_Nonce authMsgA) (auth_Version authMsgA) (auth_CertSize authMsgA).

(** What the receiver makes of the auth packets of A. *)
Definition handledA : encHandshake :=
  valueOf noState (handleAuthMsg noState authMsgA keyB entB).

Definition madeRespB : encHandshake * authRespV4 :=
  valueOf (noState, mkResp [] [] 0 0) (makeAuthResp handledA entB).

Definition handledRespA : encHandshake :=
  valueOf noState (handleAuthResp (fst madeAuthA) respMsgB).

Definition handledRespAn : encHandshake :=
  valueOf noState (handleAuthResp (fst madeAuthA) respMsgBc).

Definition handledAcert : encHandshake :=
  valueOf noState
          (handleAuthMsg (mkHS (uint16 (len (cert cmB))) false None [] [] None None)
                         authMsgA keyB entB).

(** B without a certificate on the auth packet of the A who has one. *)
Definition handledAn : encHandshake :=
  valueOf noState (handleAuthMsg noState authMsgAc keyB entB).

Definition madeRespBn : encHandshake * authRespV4 :=
  valueOf (noState, mkResp [] [] 0 0) (makeAuthResp handledAn entB).

Definition respPacketBn : bytes :=
  bytesOf (authRespV4_sealPlain (snd madeRespBn) (fst madeRespBn) entB).

(** The response B writes to the auth packet of version 16. *)
Definition respPacketToV16 : bytes :=
  bytesOf (authRespV4_sealPlain (snd madeRespV16) (fst madeRespV16) entB).

(** *** The S256 mode: a response sealed for A, and A's run on it *)

Definition respPacketS256 : bytes :=
  bytesOf (authRespV4_sealPlain (cfg := s256cfg)
             (mkResp (bytesOf (exportPubkey (Some (PubOf ephB)))) (bytesOf (rand_nonce entB))
                     TaiRLPXVersion 0)
             (mkHS 0 false (Some (PubOf keyA)) [] [] None None) entB).

Definition runS256 : Conn * result secrets :=
  initiatorEncHandshake (cfg := s256cfg) None entA keyA (PubOf keyB) (pipe respPacketS256).

(** *** Keys and addresses *)

Definition keyBytes : bytes := map Z.of_nat (seq 1 32).

Definition importedKey : PrivateKey :=
  match ToECDSA keyBytes with inl k => k | inr _ => noKey end.

Definition address20 : bytes := map Z.of_nat (seq 160 20).

Definition checksummed : bytes := bytesOf (Hex address20).

Definition noCoordinates : PublicKey := {| Curve := P256; X := None; Y := None |}.

Definition digest32 : bytes := map Z.of_nat (seq 7 32).

End ScenarioMore.

(* ================================================================== *)
(** ** A hash without collisions

    The reference hash of [Ref] is short and has collisions. Where a property
    rests on the absence of collisions, it is run on this one. *)

Module Ideal.

Import Ref Scenario.

(** A byte string as one number, two bits per bit of each element: an
    element (any integer, folded onto the positive numbers) is written bit by
    bit with the symbols 2 and 3 and closed with the symbol 1, in base 4. *)
Definition zigzag (x : Z) : Z := if x <? 0 then - 2 * x - 1 else 2 * x.

Fixpoint emit (p : positive) (rest : Z) : Z :=
  match p with
  | xI p' => 4 * emit p' rest + 3
  | xO p' => 4 * emit p' rest + 2
  | xH => 4 * rest + 1
  end.

Fixpoint code (l : bytes) : Z :=
  match l with
  | [] => 0
  | x :: l' => emit (Z.to_pos (zigzag x + 1)) (code l')
  end.

(** A hash without collisions: its digest starts with the code of what it
    has absorbed (a number, not a byte). The block cipher is the one of
    [Ref]. *)
Definition prims : SymmetricPrimitives := {|
  keccak256_sponge := fun h => [code h];
  sm3_digest := fun h => [code h];
  aes_encryptBlock := mixBlock
|}.


End Ideal.

(* ================================================================== *)
(** ** Facts about byte strings *)

Lemma len_nil : forall A : Type, len (@nil A) = 0.
Proof. reflexivity. Qed.

Lemma len_cons : forall (A : Type) (x : A) (l : list A), len (x :: l) = 1 + len l.
Proof. intros; unfold len; cbn [length]; lia. Qed.

Lemma len_app : forall (A : Type) (a b : list A), len (a ++ b) = len a + len b.
Proof. intros; unfold len; rewrite length_app; lia. Qed.

Lemma len_nonneg : forall (A : Type) (l : list A), 0 <= len l.
Proof. intros; unfold len; lia. Qed.

Lemma len_take : forall n b, 0 <= n <= len b -> len (take n b) = n.
Proof. intros n b H; unfold len, take in *; rewrite length_firstn; lia. Qed.

Lemma len_make : forall n, 0 <= n -> len (make n) = n.
Proof. intros; unfold len, make; rewrite repeat_length; lia. Qed.

Lemma take_app_exact : forall a b n, len a = n -> take n (a ++ b) = a.
Proof.
  intros a b n H; unfold take, len in *.
  replace (Z.to_nat n) with (length a + 0)%nat by lia.
  rewrite firstn_app_2; cbn; apply app_nil_r.
Qed.

Lemma drop_app_exact : forall a b n, len a = n -> drop n (a ++ b) = b.
Proof.
  intros a b n H; unfold drop, len in *.
  replace (Z.to_nat n) with (length a) by lia.
  rewrite skipn_app, skipn_all, Nat.sub_diag; reflexivity.
Qed.

Lemma take_all : forall b n, len b <= n -> take n b = b.
Proof. intros b n H; unfold take, len in *; apply firstn_all2; lia. Qed.

Lemma copyInto_length : forall n b, 0 <= n -> len (copyInto n b) = n.
Proof.
  intros n b Hn; unfold copyInto; rewrite len_app.
  assert (H : len (take n b) <= n).
  { unfold len, take; rewrite length_firstn; lia. }
  rewrite len_make; [lia | lia].
Qed.

Lemma bytes_eqb_refl : forall a, bytes_eqb a a = true.
Proof. induction a as [|x a IH]; cbn; [reflexivity | rewrite Z.eqb_refl, IH; reflexivity]. Qed.


(** *** xor *)

Lemma xor_Ok : forall one other,
  (length one <= length other)%nat -> xor one other = Ok (xorPrefix one other).
Proof.
  induction one as [|a one IH]; intros other H; [reflexivity|].
  destruct other as [|b other]; cbn in H; [lia|].
  cbn; rewrite IH by lia; reflexivity.
Qed.

Lemma xor_Panic : forall one other,
  (length other < length one)%nat -> xor one other = Panic "index out of range".
Proof.
  induction one as [|a one IH]; intros other H; cbn in H; [lia|].
  destruct other as [|b other]; [reflexivity|].
  cbn in *; rewrite IH by lia; reflexivity.
Qed.

Lemma xorPrefix_length : forall a b,
  (length a <= length b)%nat -> length (xorPrefix a b) = length a.
Proof. intros; unfold xorPrefix; rewrite length_map, length_combine; lia. Qed.

Lemma xorPrefix_nth : forall a b i,
  (i < length a)%nat -> (length a <= length b)%nat ->
  nth i (xorPrefix a b) 0 = Z.lxor (nth i a 0) (nth i b 0).
Proof.
  induction a as [|x a IH]; intros b i Hi Hab; cbn in Hi; [lia|].
  destruct b as [|y b]; cbn in Hab; [lia|].
  destruct i as [|i]; cbn; [reflexivity | apply IH; lia].
Qed.

Lemma xorPrefix_firstn : forall a b,
  xorPrefix a (firstn (length a) b) = xorPrefix a b.
Proof.
  induction a as [|x a IH]; intros b; [reflexivity|].
  destruct b as [|y b]; [reflexivity|].
  cbn; unfold xorPrefix in IH; rewrite IH; reflexivity.
Qed.


(* ================================================================== *)
(** ** Facts about the stream cipher and the MAC *)

Section StreamFacts.

Context {prims : SymmetricPrimitives}.

Lemma xorKeyStreamFrom_length : forall s src pos,
  length (xorKeyStreamFrom s pos src) = length src.
Proof. induction src as [|b src IH]; intros pos; cbn; [reflexivity | rewrite IH; reflexivity]. Qed.

Lemma xorKeyStreamFrom_len : forall s src pos, len (xorKeyStreamFrom s pos src) = len src.
Proof. intros; unfold len; rewrite xorKeyStreamFrom_length; reflexivity. Qed.

Lemma xorKeyStreamFrom_app : forall s a b pos,
  xorKeyStreamFrom s pos (a ++ b)
  = xorKeyStreamFrom s pos a ++ xorKeyStreamFrom s (pos + len a) b.
Proof.
  induction a as [|x a IH]; intros b pos; cbn [xorKeyStreamFrom app].
  - rewrite ?len_nil, ?Z.add_0_r; reflexivity.
  - rewrite IH, len_cons; do 3 f_equal; lia.
Qed.

(** Decrypting at the position a string was encrypted at gives it back. *)
Lemma xorKeyStreamFrom_involutive : forall s src pos,
  xorKeyStreamFrom s pos (xorKeyStreamFrom s pos src) = src.
Proof.
  induction src as [|b src IH]; intros pos; cbn; [reflexivity|].
  rewrite IH, Z.lxor_assoc, Z.lxor_nilpotent, Z.lxor_0_r; reflexivity.
Qed.

(** The key stream depends on block and IV only. *)
Lemma xorKeyStreamFrom_ext : forall s s' src pos,
  ctr_block s = ctr_block s' -> ctr_iv s = ctr_iv s' ->
  xorKeyStreamFrom s pos src = xorKeyStreamFrom s' pos src.
Proof.
  induction src as [|b src IH]; intros pos Hb Hi; cbn; [reflexivity|].
  rewrite (IH _ Hb Hi); unfold keystreamByte; rewrite Hb, Hi; reflexivity.
Qed.

Lemma hash_Sum_len : forall h, len (hash_Sum h) = 32.
Proof. intros; unfold hash_Sum; apply copyInto_length; lia. Qed.

Lemma tagOf_len : forall h, len (tagOf h) = 16.
Proof. intros; unfold tagOf; apply len_take; rewrite hash_Sum_len; lia. Qed.

Lemma updateMAC_Ok : forall mac block seed,
  16 <= len seed ->
  updateMAC mac block seed = Ok (reseed mac block seed, tagOf (reseed mac block seed)).
Proof.
  intros mac block seed Hseed.
  unfold updateMAC, block_Encrypt.
  assert (H32 := hash_Sum_len mac).
  destruct (len (hash_Sum mac) <? 16) eqn:E; [apply Z.ltb_lt in E; lia|].
  cbn [rbind].
  rewrite xor_Ok.
  - reflexivity.
  - assert (H16 := copyInto_length 16 (aes_encryptBlock block (take 16 (hash_Sum mac)))).
    unfold len in *; lia.
Qed.

(** The seed of [updateMAC] matters through its first 16 bytes only. *)
Lemma reseed_take16 : forall mac block seed,
  reseed mac block (take 16 seed) = reseed mac block seed.
Proof.
  intros; unfold reseed; f_equal.
  set (a := copyInto 16 _).
  assert (Ha : length a = 16%nat).
  { assert (H := copyInto_length 16 (aes_encryptBlock block (take 16 (hash_Sum mac)))).
    unfold len in H; subst a; lia. }
  unfold take; change (Z.to_nat 16) with 16%nat; rewrite <- Ha.
  apply xorPrefix_firstn.
Qed.

End StreamFacts.

(** *** readInt24 and putInt24 *)

Lemma to_byte_range : forall v, 0 <= to_byte v < 256.
Proof. intros; unfold to_byte; apply Z.mod_pos_bound; lia. Qed.

Lemma land_shiftl_low : forall a b n,
  0 <= n -> 0 <= b < 2 ^ n -> Z.land (Z.shiftl a n) b = 0.
Proof.
  intros a b n Hn Hb.
  apply Z.bits_inj'; intros i Hi.
  rewrite Z.land_spec, Z.bits_0.
  destruct (Z.lt_ge_cases i n) as [Hlt|Hge].
  - rewrite Z.shiftl_spec_low by lia; reflexivity.
  - destruct (Z.eq_dec b 0) as [->|Hnz]; [rewrite Z.bits_0; apply andb_false_r|].
    rewrite (Z.bits_above_log2 b i); [apply andb_false_r | lia |].
    apply Z.log2_lt_pow2; [lia|].
    apply Z.lt_le_trans with (2 ^ n); [lia|].
    apply Z.pow_le_mono_r; lia.
Qed.

Lemma lor_shiftl_add : forall a b n,
  0 <= n -> 0 <= b < 2 ^ n -> Z.lor b (Z.shiftl a n) = Z.shiftl a n + b.
Proof.
  intros a b n Hn Hb.
  rewrite Z.lor_comm, <- Z.lxor_lor, <- Z.add_nocarry_lxor;
    try reflexivity; apply land_shiftl_low; assumption.
Qed.

Lemma readInt24_putInt24 : forall v rest,
  0 <= v < 2 ^ 24 -> readInt24 (putInt24 v ++ rest) = v.
Proof.
  intros v rest Hv; unfold readInt24, putInt24; cbn [nth app].
  assert (H2 := to_byte_range v).
  assert (H1 := to_byte_range (Z.shiftr v 8)).
  assert (H0 := to_byte_range (Z.shiftr v 16)).
  set (b0 := to_byte (Z.shiftr v 16)) in *.
  set (b1 := to_byte (Z.shiftr v 8)) in *.
  set (b2 := to_byte v) in *.
  rewrite (lor_shiftl_add b0 (Z.shiftl b1 8) 16);
    [| lia | rewrite Z.shiftl_mul_pow2 by lia; change (2 ^ 8) with 256;
             change (2 ^ 16) with 65536; lia].
  replace (Z.shiftl b0 16 + Z.shiftl b1 8) with (Z.shiftl (b0 * 256 + b1) 8)
    by (rewrite !Z.shiftl_mul_pow2 by lia; change (2 ^ 8) with 256;
        change (2 ^ 16) with 65536; lia).
  rewrite lor_shiftl_add; [| lia | change (2 ^ 8) with 256; lia].
  rewrite Z.shiftl_mul_pow2 by lia; change (2 ^ 8) with 256.
  subst b0 b1 b2; unfold to_byte.
  rewrite !Z.shiftr_div_pow2 by lia.
  change (2 ^ 8) with 256; change (2 ^ 16) with 65536.
  change (2 ^ 24) with 16777216 in Hv.
  assert (Hq : v / 65536 mod 256 = v / 65536).
  { apply Z.mod_small; split; [apply Z.div_pos; lia | apply Z.div_lt_upper_bound; lia]. }
  rewrite Hq.
  replace (v / 65536) with (v / 256 / 256) by (rewrite Z.div_div; [reflexivity | lia | lia]).
  pose proof (Z.div_mod v 256 ltac:(lia)).
  pose proof (Z.div_mod (v / 256) 256 ltac:(lia)).
  lia.
Qed.

(* ================================================================== *)
(** ** Facts about WriteMsg and ReadMsg *)

Section FrameCodecFacts.

Context {prims : SymmetricPrimitives} {encs : FrameEncoders}.

Lemma plainHeader_len : forall fsize, len (plainHeader fsize) = 16.
Proof. reflexivity. Qed.

Lemma padding_len : forall fsize,
  len (padding fsize) = if fsize mod 16 >? 0 then 16 - fsize mod 16 else 0.
Proof.
  intros; unfold padding.
  destruct (fsize mod 16 >? 0) eqn:E; [|reflexivity].
  assert (H := Z.mod_pos_bound fsize 16 ltac:(lia)).
  apply Z.gtb_lt in E.
  apply len_take; change (len zero16) with 16; lia.
Qed.

(** [WriteMsg] on an open connection writes exactly the frame built in one
    piece: streaming the MAC gives what hashing the buffered frame gives. *)
Lemma WriteMsg_sealFrame : forall rw msg msg',
  compressMsg (snappy rw) msg = Ok msg' ->
  frameSize (rlp_EncodeUint (Code msg)) msg' <= maxUint24 ->
  closed (conn rw) = false ->
  WriteMsg msg rw =
    (written rw (sealFrame rw (rlp_EncodeUint (Code msg)) (Payload msg')
                           (frameSize (rlp_EncodeUint (Code msg)) msg')),
     Ok tt).
Proof.
  intros rw msg msg' Hc Hsize Hopen.
  unfold WriteMsg, written, sealFrame, wire.
  set (ptype := rlp_EncodeUint (Code msg)) in *.
  unfold mbind at 1, lift at 1; rewrite Hc.
  set (fsize := frameSize ptype msg') in *.
  destruct (fsize >? maxUint24) eqn:E; [apply Z.gtb_lt in E; lia|].
  destruct rw as [[rdc wrc cl] e d mc eg ing sn]; cbn in Hopen; subst cl.
  unfold mbind, rw_encXOR, rw_egressUpdateMAC, rw_connWrite, tee_Write, mbind,
    rw_encXOR, rw_connWrite, conn_Write, mget, mret, XORKeyStream.
  cbn [conn enc dec macCipher egressMAC ingressMAC snappy set_conn set_enc
       set_egressMAC closed rd wr ctr_pos ctr_block ctr_iv fst snd].
  change (putInt24 fsize ++ zeroHeader ++ make 10) with (plainHeader fsize).
  rewrite updateMAC_Ok by (rewrite xorKeyStreamFrom_len, plainHeader_len; lia).
  cbn [conn enc dec macCipher egressMAC ingressMAC snappy set_conn set_enc
       set_egressMAC closed rd wr ctr_pos ctr_block ctr_iv fst snd].
  set (s0 := {| ctr_block := ctr_block e; ctr_iv := ctr_iv e; ctr_pos := ctr_pos e + len (plainHeader fsize) |}).
  set (hdr := xorKeyStreamFrom e (ctr_pos e) (plainHeader fsize)).
  set (mac1 := reseed eg mc hdr).
  assert (Hext : forall p b s,
            ctr_block s = ctr_block e -> ctr_iv s = ctr_iv e ->
            xorKeyStreamFrom s p b = xorKeyStreamFrom s0 p b).
  { intros p b s Hb Hi; apply xorKeyStreamFrom_ext; subst s0; cbn; assumption. }
  rewrite !xorKeyStreamFrom_app.
  unfold padding.
  destruct (fsize mod 16 >? 0) eqn:Epad.
  - unfold mbind, rw_encXOR, rw_connWrite, conn_Write, XORKeyStream.
    cbn [conn enc dec macCipher egressMAC ingressMAC snappy set_conn set_enc
         set_egressMAC closed rd wr ctr_pos ctr_block ctr_iv fst snd].
    rewrite updateMAC_Ok by (rewrite hash_Sum_len; lia).
    cbn [conn enc dec macCipher egressMAC ingressMAC snappy set_conn set_enc
         set_egressMAC closed rd wr ctr_pos ctr_block ctr_iv fst snd].
    unfold hash_Write.
    rewrite !len_app.
    rewrite (Hext _ _ {| ctr_block := ctr_block e; ctr_iv := ctr_iv e;
                         ctr_pos := ctr_pos e + len (plainHeader fsize) + len ptype |})
      by reflexivity.
    rewrite (Hext _ _ {| ctr_block := ctr_block e; ctr_iv := ctr_iv e;
                         ctr_pos := ctr_pos e + len (plainHeader fsize) + len ptype
                                    + len (Payload msg') |})
      by reflexivity.
    subst s0; cbn [ctr_pos s_header s_headerMAC s_body s_frameMAC s_enc s_egressMAC].
    rewrite <- !app_assoc.
    do 3 f_equal; lia.
  - unfold mbind, rw_encXOR, rw_connWrite, conn_Write, XORKeyStream, mret.
    cbn [conn enc dec macCipher egressMAC ingressMAC snappy set_conn set_enc
         set_egressMAC closed rd wr ctr_pos ctr_block ctr_iv fst snd].
    rewrite updateMAC_Ok by (rewrite hash_Sum_len; lia).
    cbn [conn enc dec macCipher egressMAC ingressMAC snappy set_conn set_enc
         set_egressMAC closed rd wr ctr_pos ctr_block ctr_iv fst snd xorKeyStreamFrom].
    unfold hash_Write.
    rewrite !len_app, len_nil, !app_nil_r.
    rewrite (Hext _ _ {| ctr_block := ctr_block e; ctr_iv := ctr_iv e;
                         ctr_pos := ctr_pos e + len (plainHeader fsize) + len ptype |})
      by reflexivity.
    subst s0; cbn [ctr_pos s_header s_headerMAC s_body s_frameMAC s_enc s_egressMAC].
    rewrite <- !app_assoc.
    do 3 f_equal; lia.
Qed.

End FrameCodecFacts.

Section FrameCodecRead.

Context {prims : SymmetricPrimitives} {encs : FrameEncoders}.

Lemma io_ReadFull_app : forall n a b w,
  len a = n ->
  io_ReadFull n {| rd := a ++ b; wr := w; closed := false |}
  = ({| rd := b; wr := w; closed := false |}, Ok a).
Proof.
  intros n a b w Ha; unfold io_ReadFull; cbn [rd wr closed].
  destruct (n <=? 0) eqn:E0.
  - apply Z.leb_le in E0.
    assert (a = []) by (destruct a; [reflexivity | rewrite len_cons in Ha; pose proof (len_nonneg _ a); lia]).
    subst a; reflexivity.
  - rewrite len_app.
    destruct (len a + len b <? n) eqn:E1.
    + apply Z.ltb_lt in E1; pose proof (len_nonneg _ b); lia.
    + rewrite take_app_exact, drop_app_exact by assumption; reflexivity.
Qed.

Lemma readInt24_plainHeader : forall fsize,
  0 <= fsize < 2 ^ 24 -> readInt24 (plainHeader fsize) = fsize.
Proof. intros; unfold plainHeader; apply readInt24_putInt24; assumption. Qed.

Lemma sealFrame_header_len : forall w ptype payload fsize,
  len (s_header (sealFrame w ptype payload fsize)) = 16.
Proof.
  intros; unfold sealFrame, XORKeyStream; cbn [s_header].
  rewrite xorKeyStreamFrom_len; reflexivity.
Qed.

Lemma sealFrame_body_len : forall w ptype payload fsize,
  len (s_body (sealFrame w ptype payload fsize))
  = len ptype + len payload + len (padding fsize).
Proof.
  intros; unfold sealFrame, XORKeyStream; cbn [s_body].
  rewrite xorKeyStreamFrom_len, !len_app; lia.
Qed.

(** A matched reader accepts the frame a writer built and gets its content
    back. *)
Lemma ReadMsg_sealed : forall w r ptype payload fsize rest,
  matched w r ->
  closed (conn r) = false ->
  0 <= fsize < 2 ^ 24 ->
  len ptype + len payload = fsize ->
  ReadMsg (receiving r (wire (sealFrame w ptype payload fsize) ++ rest))
  = (accepted r (sealFrame w ptype payload fsize) rest,
     decodeContent (snappy r) (ptype ++ payload)).
Proof.
  intros w r ptype payload fsize rest (Henc & Hmc & Hmac & Hsn) Hopen Hfs Hlen.
  assert (Hhl := sealFrame_header_len w ptype payload fsize).
  assert (Hbl := sealFrame_body_len w ptype payload fsize).
  unfold wire, accepted, receiving in *.
  revert Hhl Hbl.
  unfold sealFrame, XORKeyStream.
  cbn [s_header s_headerMAC s_body s_frameMAC s_enc s_egressMAC].
  set (hdr := xorKeyStreamFrom (enc w) (ctr_pos (enc w)) (plainHeader fsize)).
  set (mac1 := reseed (egressMAC w) (macCipher w) hdr).
  set (s1 := {| ctr_block := ctr_block (enc w); ctr_iv := ctr_iv (enc w);
                ctr_pos := ctr_pos (enc w) + len (plainHeader fsize) |}).
  set (body := xorKeyStreamFrom s1 (ctr_pos s1) (ptype ++ payload ++ padding fsize)).
  set (mac2 := hash_Write mac1 body).
  set (mac3 := reseed mac2 (macCipher w) (hash_Sum mac2)).
  intros Hhl Hbl.
  destruct r as [[rdc wrc cl] e d mc eg ing sn].
  cbn in Hopen, Henc, Hmc, Hmac, Hsn; subst cl d mc ing sn.
  unfold ReadMsg.
  unfold mbind at 1, rw_ReadFull at 1.
  cbn [conn set_conn rd wr closed enc dec macCipher egressMAC ingressMAC snappy].
  replace ((hdr ++ tagOf mac1 ++ body ++ tagOf mac3) ++ rest)
    with ((hdr ++ tagOf mac1) ++ (body ++ tagOf mac3 ++ rest))
    by (rewrite <- !app_assoc; reflexivity).
  rewrite io_ReadFull_app by (rewrite len_app, Hhl, tagOf_len; reflexivity).
  rewrite (take_app_exact hdr (tagOf mac1) 16 Hhl).
  rewrite (drop_app_exact hdr (tagOf mac1) 16 Hhl).
  unfold mbind at 1, rw_ingressUpdateMAC at 1.
  cbn [conn set_conn rd wr closed enc dec macCipher egressMAC ingressMAC snappy].
  rewrite updateMAC_Ok by lia.
  fold mac1.
  unfold hmac_Equal; rewrite bytes_eqb_refl; cbn [negb].
  unfold mbind at 1, rw_decXOR at 1, XORKeyStream.
  cbn [conn set_conn set_ingressMAC set_dec rd wr closed enc dec macCipher
       egressMAC ingressMAC snappy].
  subst hdr; rewrite xorKeyStreamFrom_involutive.
  set (hdr := xorKeyStreamFrom (enc w) (ctr_pos (enc w)) (plainHeader fsize)) in *.
  rewrite !readInt24_plainHeader by assumption.
  assert (Hpad := padding_len fsize).
  assert (Hm := Z.mod_pos_bound fsize 16 ltac:(lia)).
  change (2 ^ 24) with 16777216 in Hfs.
  set (rsize := if fsize mod 16 >? 0 then uint32 (fsize + (16 - fsize mod 16)) else fsize).
  assert (Hrsize : len body = rsize).
  { rewrite Hbl, Hpad; subst rsize.
    destruct (fsize mod 16 >? 0); [|lia].
    unfold uint32; change (2 ^ 32) with 4294967296.
    generalize dependent (fsize mod 16); intros m Hpad Hm.
    rewrite Z.mod_small; lia. }
  unfold mbind at 1, rw_ReadFull at 1.
  cbn [conn set_conn set_ingressMAC set_dec rd wr closed enc dec macCipher
       egressMAC ingressMAC snappy].
  rewrite io_ReadFull_app by exact Hrsize.
  unfold mbind at 1.
  cbn [conn set_conn set_ingressMAC set_dec rd wr closed enc dec macCipher
       egressMAC ingressMAC snappy].
  fold mac2.
  unfold mbind at 1, mget at 1.
  unfold mbind at 1, rw_ReadFull at 1.
  cbn [conn set_conn set_ingressMAC set_dec rd wr closed enc dec macCipher
       egressMAC ingressMAC snappy].
  rewrite io_ReadFull_app by apply tagOf_len.
  unfold mbind at 1, rw_ingressUpdateMAC at 1.
  cbn [conn set_conn set_ingressMAC set_dec rd wr closed enc dec macCipher
       egressMAC ingressMAC snappy].
  rewrite updateMAC_Ok by (rewrite hash_Sum_len; lia).
  fold mac3.
  rewrite bytes_eqb_refl; cbn [negb].
  unfold mbind at 1, rw_decXOR at 1, XORKeyStream.
  cbn [conn set_conn set_ingressMAC set_dec rd wr closed enc dec macCipher
       egressMAC ingressMAC snappy ctr_pos ctr_block ctr_iv].
  rewrite Hhl.
  assert (Hdec : xorKeyStreamFrom
                   {| ctr_block := ctr_block (enc w); ctr_iv := ctr_iv (enc w);
                      ctr_pos := ctr_pos (enc w) + 16 |}
                   (ctr_pos (enc w) + 16) body
                 = ptype ++ payload ++ padding fsize).
  { subst body s1; cbn [ctr_pos]; rewrite plainHeader_len.
    apply xorKeyStreamFrom_involutive. }
  rewrite Hdec.
  replace (take fsize (ptype ++ payload ++ padding fsize)) with (ptype ++ payload)
    by (rewrite app_assoc, take_app_exact; [reflexivity | rewrite len_app; assumption]).
  unfold mbind, lift, mget, decodeContent.
  assert (Hpos : ctr_pos (enc w) + 16 + len body
                 = ctr_pos s1 + len (ptype ++ payload ++ padding fsize)).
  { subst body s1; cbn [ctr_pos]; rewrite xorKeyStreamFrom_len, plainHeader_len; lia. }
  destruct (rlp_DecodeUint (ptype ++ payload)) as [[code rest']| |];
    cbn [rbind fst snd snappy set_dec set_ingressMAC set_conn conn enc dec
         macCipher egressMAC ingressMAC rd wr closed];
    rewrite Hpos; reflexivity.
Qed.

End FrameCodecRead.

(** *** Flipping one bit *)








Section FrameCodecReject.

Context {prims : SymmetricPrimitives} {encs : FrameEncoders}.



End FrameCodecReject.

Section FrameCodecClaims.

Context {prims : SymmetricPrimitives} {encs : FrameEncoders}.

Lemma maxUint24_value : maxUint24 = 2 ^ 24 - 1.
Proof. reflexivity. Qed.



(** C2 (as amended). The header MAC that [WriteMsg] emits is computed from
    the header as encrypted: the current egress digest is encrypted with the
    MAC cipher, XOR-ed with the 16 encrypted header bytes, absorbed into the
    egress MAC, and the first 16 bytes of the new digest follow the encrypted
    header on the wire. *)
Theorem header_mac_covers_encrypted_header : forall rw msg msg',
  compressMsg (snappy rw) msg = Ok msg' ->
  frameSize (rlp_EncodeUint (Code msg)) msg' <= maxUint24 ->
  closed (conn rw) = false ->
  let fsize := frameSize (rlp_EncodeUint (Code msg)) msg' in
  let hdr := snd (XORKeyStream (enc rw) (plainHeader fsize)) in
  let whitened :=
    copyInto 16 (aes_encryptBlock (macCipher rw) (take 16 (hash_Sum (egressMAC rw)))) in
  let absorbed := hash_Write (egressMAC rw) (xorPrefix whitened hdr) in
  snd (WriteMsg msg rw) = Ok tt /\
  take 32 (drop (len (wr (conn rw))) (wr (conn (fst (WriteMsg msg rw)))))
  = hdr ++ take 16 (hash_Sum absorbed).
Proof.
  intros rw msg msg' Hc Hsize Hopen fsize hdr whitened absorbed.
  rewrite (WriteMsg_sealFrame rw msg msg' Hc Hsize Hopen).
  split; [reflexivity|].
  cbn [fst written conn wr].
  rewrite drop_app_exact by reflexivity.
  unfold wire, sealFrame, XORKeyStream.
  cbn [s_header s_headerMAC s_body s_frameMAC].
  rewrite app_assoc.
  apply take_app_exact.
  rewrite len_app; fold (tagOf absorbed); rewrite tagOf_len.
  unfold hdr, XORKeyStream; cbn [snd]; rewrite xorKeyStreamFrom_len; reflexivity.
Qed.


End FrameCodecClaims.

Section FrameCodecTamper.

Context {prims : SymmetricPrimitives} {encs : FrameEncoders}.


Lemma length_of_len : forall (b : bytes) n, len b = Z.of_nat n -> length b = n.
Proof. intros b n H; unfold len in H; lia. Qed.

(** C8. At the failing input (code 0, declared size [2^32 - 1], no
    compression) the tag and the size together exceed the cap, yet their
    [uint32] sum wraps to 0, the check passes and [WriteMsg] writes a frame
    that announces length 0 and carries the payload. *)
Theorem WriteMsg_size_check_wraps : forall w payload,
  snappy w = false ->
  closed (conn w) = false ->
  len (rlp_EncodeUint 0) = 1 ->
  let msg := {| Code := 0; Size := 2 ^ 32 - 1; Payload := payload |} in
  2 ^ 24 <= len (rlp_EncodeUint (Code msg)) + Size msg /\
  WriteMsg msg w = (written w (sealFrame w (rlp_EncodeUint 0) payload 0), Ok tt).
Proof.
  intros w payload Hsn Hopen Hptype msg.
  split; [subst msg; cbn [Code Size]; rewrite Hptype; cbn; lia|].
  assert (Hc : compressMsg (snappy w) msg = Ok msg)
    by (unfold compressMsg; rewrite Hsn; reflexivity).
  assert (Hfs : frameSize (rlp_EncodeUint (Code msg)) msg = 0)
    by (unfold frameSize, msg; cbn [Code Size]; rewrite Hptype; reflexivity).
  rewrite (WriteMsg_sealFrame w msg msg Hc) by (rewrite ?Hfs; (cbv; discriminate) || assumption).
  rewrite Hfs; reflexivity.
Qed.









End FrameCodecTamper.

(* ================================================================== *)
(** ** Facts about the handshake *)

Section HandshakeFacts.

Context {prims : SymmetricPrimitives} {ec : CurveSuites} {cfg : CryptoConfig}
        {hsenc : HandshakeEncoders} {ca : CertAuthority}.

Lemma conn_Write_inv : forall p c c' (r : result unit),
  conn_Write p c = (c', r) ->
  (closed c = true /\ c' = c /\ r = Err io_ErrClosedPipe) \/
  (closed c = false /\ r = Ok tt /\ rd c' = rd c /\ wr c' = wr c ++ p /\ closed c' = false).
Proof.
  intros p c c' r H; unfold conn_Write in H.
  destruct (closed c) eqn:E; injection H as <- <-; [left | right]; cbn; auto.
Qed.

Lemma io_ReadFull_Ok : forall n c c' b,
  io_ReadFull n c = (c', Ok b) ->
  b = take n (rd c) /\ rd c' = drop n (rd c) /\ wr c' = wr c /\ closed c' = closed c
  /\ (0 < n -> closed c = false /\ n <= len (rd c)).
Proof.
  intros n c c' b H; unfold io_ReadFull in H.
  destruct (n <=? 0) eqn:E0.
  - apply Z.leb_le in E0; injection H as <- <-.
    unfold take, drop; replace (Z.to_nat n) with 0%nat by lia; cbn.
    repeat split; try reflexivity; lia.
  - apply Z.leb_gt in E0.
    destruct (closed c) eqn:Ec; [discriminate|].
    destruct (len (rd c) <? n) eqn:E1; [discriminate|].
    apply Z.ltb_ge in E1; injection H as <- <-; cbn; repeat split; auto.
Qed.

Lemma initiatorCertExchange_Ok : forall cm h resp c c',
  initiatorCertExchange cm h resp c = (c', Ok tt) ->
  wr c' = wr c ++ certSent cm.
Proof.
  intros cm h resp c c' H.
  unfold initiatorCertExchange, certSent in *.
  destruct cm as [m|]; [|injection H as <-; rewrite app_nil_r; reflexivity].
  destruct (len (cert m) =? 0); cbn [negb] in H;
    [injection H as <-; rewrite app_nil_r; reflexivity|].
  destruct (resp_CertSize resp =? 0); [discriminate|].
  destruct (negb (uint16 (len (cert m)) =? resp_CertSize resp)); [discriminate|].
  unfold mbind at 1 in H.
  destruct (conn_Write (cert m) c) as [c1 r1] eqn:Ew.
  apply conn_Write_inv in Ew; destruct Ew as [(_ & _ & ->) | (_ & -> & _ & Hw & _)];
    [discriminate|].
  unfold mbind at 1 in H.
  destruct (io_ReadFull (resp_CertSize resp) c1) as [c2 r2] eqn:Er.
  destruct r2 as [buf| |]; try discriminate.
  apply io_ReadFull_Ok in Er; destruct Er as (_ & _ & Hw2 & _).
  unfold mbind, lift in H.
  destruct (VerifyCert (certList m) buf); try discriminate.
  destruct (FromCertBytesToPubKey buf); try discriminate.
  destruct (negb (DeepEqual a0 (remote h))); try discriminate.
  unfold mret in H; injection H as <-.
  rewrite Hw2, Hw; reflexivity.
Qed.

(** The steps of an initiator run that returns secrets. *)
Lemma initiator_run_inv : forall cm ent prv remotePub c c' s,
  initiatorEncHandshake cm ent prv remotePub c = (c', Ok s) ->
  exists h1 authMsg authPacket respMsg h2,
    makeAuthMsg (mkHS (uint16 (match cm with Some m => len (cert m) | None => 0 end))
                      true (Some remotePub) [] [] None None) prv ent
      = Ok (h1, authMsg) /\
    authMsgV4_sealPlain authMsg h1 ent = Ok authPacket /\
    openHandshakeMsg prv (take encAuthRespLen (rd c)) = Ok respMsg /\
    handleAuthResp h1 respMsg = Ok h2 /\
    encHandshake_secrets h2 authPacket (take encAuthRespLen (rd c)) = Ok s /\
    wr c' = wr c ++ authPacket ++ certSent cm.
Proof.
  intros cm ent prv remotePub c c' s H.
  unfold initiatorEncHandshake in H.
  unfold mbind at 1, lift at 1 in H.
  destruct (makeAuthMsg _ prv ent) as [[h1 authMsg]| |] eqn:Emk; try discriminate.
  unfold mbind at 1, lift at 1 in H.
  destruct (authMsgV4_sealPlain authMsg h1 ent) as [authPacket| |] eqn:Eseal;
    try discriminate.
  unfold mbind at 1 in H.
  destruct (conn_Write authPacket c) as [c1 r1] eqn:Ew.
  apply conn_Write_inv in Ew.
  destruct Ew as [(_ & _ & ->) | (Hopen & -> & Hrd1 & Hwr1 & Hcl1)]; [discriminate|].
  unfold mbind at 1, readHandshakeMsg at 1, mbind at 1 in H.
  destruct (io_ReadFull encAuthRespLen c1) as [c2 r2] eqn:Er.
  destruct r2 as [buf| |]; try discriminate.
  apply io_ReadFull_Ok in Er; destruct Er as (-> & Hrd2 & Hwr2 & Hcl2 & _).
  unfold mbind at 1, lift at 1 in H.
  rewrite Hrd1 in *.
  destruct (openHandshakeMsg prv (take encAuthRespLen (rd c))) as [respMsg| |] eqn:Eopen;
    try discriminate.
  unfold mret in H.
  unfold mbind at 1, lift at 1 in H.
  destruct (handleAuthResp h1 respMsg) as [h2| |] eqn:Eh; try discriminate.
  unfold mbind at 1 in H.
  destruct (initiatorCertExchange cm h2 respMsg c2) as [c3 r3] eqn:Ecert.
  destruct r3 as [[]| |]; try discriminate.
  apply initiatorCertExchange_Ok in Ecert.
  unfold lift in H.
  destruct (encHandshake_secrets h2 authPacket (take encAuthRespLen (rd c))) eqn:Esec;
    try discriminate.
  injection H as <- <-.
  exists h1, authMsg, authPacket, respMsg, h2.
  repeat split; try assumption.
  rewrite Ecert, Hwr2, Hwr1, <- app_assoc; reflexivity.
Qed.


Lemma receiverCertGate_certSent : forall cm authMsg find,
  receiverCertGate cm authMsg = Ok find ->
  (if find then match cm with Some m => cert m | None => [] end else []) = certSent cm.
Proof.
  intros cm authMsg find H; unfold receiverCertGate, certSent in *.
  destruct cm as [m|]; [|injection H as <-; reflexivity].
  destruct (len (cert m) =? 0); cbn [negb] in H; [injection H as <-; reflexivity|].
  destruct (auth_CertSize authMsg =? 0); [discriminate|].
  destruct (negb (uint16 (len (cert m)) =? auth_CertSize authMsg)); [discriminate|].
  injection H as <-; reflexivity.
Qed.

Lemma receiverCertExchange_Ok : forall cm find h authMsg c c',
  receiverCertExchange cm find h authMsg c = (c', Ok tt) ->
  wr c' = wr c ++ (if find then match cm with Some m => cert m | None => [] end else []).
Proof.
  intros cm find h authMsg c c' H.
  unfold receiverCertExchange in H.
  destruct find; [|injection H as <-; rewrite app_nil_r; reflexivity].
  unfold mbind at 1 in H.
  destruct (io_ReadFull (auth_CertSize authMsg) c) as [c1 r1] eqn:Er.
  destruct r1 as [buf| |]; try discriminate.
  apply io_ReadFull_Ok in Er; destruct Er as (_ & _ & Hw1 & _).
  unfold mbind at 1, lift at 1 in H.
  destruct cm as [m|]; cbn [deref] in H; [|discriminate].
  unfold mbind, lift in H.
  destruct (VerifyCert (certList m) buf); try discriminate.
  destruct (FromCertBytesToPubKey buf); try discriminate.
  destruct (negb (DeepEqual a0 (remote h))); try discriminate.
  destruct (conn_Write (cert m) c1) as [c2 r2] eqn:Ew.
  apply conn_Write_inv in Ew; destruct Ew as [(_ & _ & ->) | (_ & -> & _ & Hw & _)].
  - discriminate.
  - injection H as <-; rewrite Hw, Hw1; reflexivity.
Qed.

(** The steps of a receiver run that returns secrets. *)
Lemma receiver_run_inv : forall cm ent prv c c' s,
  receiverEncHandshake cm ent prv c = (c', Ok s) ->
  exists authMsg h1 find h2 respMsg respPacket,
    openHandshakeMsg prv (take encAuthMsgLen (rd c)) = Ok authMsg /\
    handleAuthMsg (mkHS (match cm with Some m => uint16 (len (cert m)) | None => 0 end)
                        false None [] [] None None) authMsg prv ent = Ok h1 /\
    receiverCertGate cm authMsg = Ok find /\
    makeAuthResp h1 ent = Ok (h2, respMsg) /\
    authRespV4_sealPlain respMsg h2 ent = Ok respPacket /\
    auth_Version authMsg = TaiRLPXVersion /\
    encHandshake_secrets h2 (take encAuthMsgLen (rd c)) respPacket = Ok s /\
    wr c' = wr c ++ respPacket ++ certSent cm.
Proof.
  intros cm ent prv c c' s H.
  unfold receiverEncHandshake in H.
  unfold mbind at 1, readHandshakeMsg at 1, mbind at 1 in H.
  destruct (io_ReadFull encAuthMsgLen c) as [c1 r1] eqn:Er.
  destruct r1 as [buf| |]; try discriminate.
  apply io_ReadFull_Ok in Er; destruct Er as (-> & Hrd1 & Hwr1 & Hcl1 & _).
  unfold mbind at 1, lift at 1 in H.
  destruct (openHandshakeMsg prv (take encAuthMsgLen (rd c))) as [authMsg| |] eqn:Eopen;
    try discriminate.
  unfold mret in H.
  unfold mbind at 1, lift at 1 in H.
  destruct (handleAuthMsg _ authMsg prv ent) as [h1| |] eqn:Eh; try discriminate.
  unfold mbind at 1, lift at 1 in H.
  destruct (receiverCertGate cm authMsg) as [find| |] eqn:Egate; try discriminate.
  unfold mbind at 1, lift at 1 in H.
  destruct (makeAuthResp h1 ent) as [[h2 respMsg]| |] eqn:Emk; try discriminate.
  unfold mbind at 1, lift at 1 in H.
  destruct (authRespV4_sealPlain respMsg h2 ent) as [respPacket| |] eqn:Eseal;
    try discriminate.
  unfold mbind at 1 in H.
  destruct (conn_Write respPacket c1) as [c2 r2] eqn:Ew.
  apply conn_Write_inv in Ew.
  destruct Ew as [(_ & _ & ->) | (Hopen & -> & Hrd2 & Hwr2 & Hcl2)]; [discriminate|].
  destruct (auth_Version authMsg =? TaiRLPXVersion) eqn:Ev; cbn [negb] in H;
    [|discriminate].
  apply Z.eqb_eq in Ev.
  unfold mbind at 1 in H.
  destruct (receiverCertExchange cm find h2 authMsg c2) as [c3 r3] eqn:Ecert.
  destruct r3 as [[]| |]; try discriminate.
  apply receiverCertExchange_Ok in Ecert.
  unfold lift in H.
  destruct (encHandshake_secrets h2 (take encAuthMsgLen (rd c)) respPacket) eqn:Esec;
    try discriminate.
  injection H as <- <-.
  exists authMsg, h1, find, h2, respMsg, respPacket.
  repeat split; try assumption.
  rewrite Ecert, Hwr2, Hwr1, <- app_assoc.
  do 2 f_equal.
  apply (receiverCertGate_certSent cm authMsg find Egate).
Qed.


Lemma copyInto_exact : forall n b, len b = n -> copyInto n b = b.
Proof.
  intros n b H; unfold copyInto.
  rewrite take_all by lia.
  rewrite H, Z.sub_diag; cbn; apply app_nil_r.
Qed.

Lemma copyInto_idem : forall n b, 0 <= n -> copyInto n (copyInto n b) = copyInto n b.
Proof. intros; apply copyInto_exact, copyInto_length; assumption. Qed.

Lemma PutUint16_len : forall v, len (PutUint16 v) = 2.
Proof. reflexivity. Qed.

Lemma makeAuthMsg_inv : forall h prv ent h' m,
  makeAuthMsg h prv ent = Ok (h', m) ->
  exists b key d sig tail,
    rand_nonce ent = Ok b /\
    GenerateKey (rand_key ent) = Ok key /\
    h' = mkHS (h_CertSize h) (initiator h) (remote h) (copyInto shaLen b) (respNonce h)
              (Some key) (remoteRandomPub h) /\
    signedDigest h' prv = Ok d /\
    Sign (rand_sig ent) d key = Ok sig /\
    m = {| Signature := copyInto sigLen sig;
           InitiatorPubkey := copyInto pubLen tail;
           auth_Nonce := copyInto shaLen b;
           auth_Version := TaiRLPXVersion;
           auth_CertSize := h_CertSize h |} /\
    slice_from 1 (FromECDSAPub (Some (PubOf prv))) = Ok tail.
Proof.
  intros h prv ent h' m H; unfold makeAuthMsg, rand_Read in H.
  destruct (rand_nonce ent) as [b| |] eqn:Eb; cbn [rbind] in H; try discriminate.
  destruct (GenerateKey (rand_key ent)) as [key| |] eqn:Ek; cbn [rbind] in H;
    try discriminate.
  match type of H with rbind ?x _ = _ => destruct x as [d| |] eqn:Ed end;
    cbn [rbind] in H; try discriminate.
  destruct (Sign (rand_sig ent) d key) as [sig| |] eqn:Es; cbn [rbind] in H;
    try discriminate.
  destruct (slice_from 1 (FromECDSAPub (Some (PubOf prv)))) as [tail| |] eqn:Et;
    cbn [rbind] in H; try discriminate.
  injection H as <- <-.
  exists b, key, d, sig, tail; cbn [h_CertSize].
  rewrite copyInto_idem by (cbv; discriminate).
  repeat split; assumption || reflexivity.
Qed.

Lemma open_sealed_auth : forall m h ent prv p,
  SuiteLaws -> generated prv -> remote h = Some (PubOf prv) ->
  len (Signature m) = sigLen -> len (InitiatorPubkey m) = pubLen ->
  len (auth_Nonce m) = shaLen -> auth_Version m = TaiRLPXVersion ->
  authMsgV4_sealPlain m h ent = Ok p ->
  openHandshakeMsg prv p = Ok (setCertSize m (Uint16 (PutUint16 (auth_CertSize m)))).
Proof.
  intros m h ent prv p L Hg Hr H1 H2 H3 H4 H.
  unfold authMsgV4_sealPlain in H; rewrite Hr in H.
  destruct (rlp_EncodeAuthMsg m) as [data| |] eqn:Ed; cbn [rbind deref] in H;
    try discriminate.
  unfold openHandshakeMsg.
  rewrite (law_open L _ _ _ _ Hg H).
  unfold slice_to, slice_from.
  rewrite len_app, PutUint16_len.
  pose proof (len_nonneg _ data).
  destruct (2 + len data <? 2) eqn:E; [apply Z.ltb_lt in E; lia|].
  cbn [rbind].
  rewrite (take_app_exact _ _ 2 (PutUint16_len _)).
  rewrite (drop_app_exact _ _ 2 (PutUint16_len _)).
  cbn [decodePlain authMsgV4_plainDecoder]; unfold authMsgV4_decodePlain.
  rewrite (law_rlp_auth L m data H1 H2 H3 H4 Ed).
  reflexivity.
Qed.

Lemma open_sealed_resp : forall m h ent prv p,
  SuiteLaws -> generated prv -> remote h = Some (PubOf prv) ->
  len (RandomPubkey m) = pubLen -> len (resp_Nonce m) = shaLen ->
  resp_Version m = TaiRLPXVersion ->
  authRespV4_sealPlain m h ent = Ok p ->
  openHandshakeMsg prv p = Ok (setCertSize m (Uint16 (PutUint16 (resp_CertSize m)))).
Proof.
  intros m h ent prv p L Hg Hr H1 H2 H3 H.
  unfold authRespV4_sealPlain in H; rewrite Hr in H.
  destruct (rlp_EncodeAuthResp m) as [data| |] eqn:Ed; cbn [rbind deref] in H;
    try discriminate.
  unfold openHandshakeMsg.
  rewrite (law_open L _ _ _ _ Hg H).
  unfold slice_to, slice_from.
  rewrite len_app, PutUint16_len.
  pose proof (len_nonneg _ data).
  destruct (2 + len data <? 2) eqn:E; [apply Z.ltb_lt in E; lia|].
  cbn [rbind].
  rewrite (take_app_exact _ _ 2 (PutUint16_len _)).
  rewrite (drop_app_exact _ _ 2 (PutUint16_len _)).
  cbn [decodePlain authRespV4_plainDecoder]; unfold authRespV4_decodePlain.
  rewrite (law_rlp_resp L m data H1 H2 H3 Ed).
  reflexivity.
Qed.


Lemma handleAuthMsg_inv : forall h m prv ent h',
  randomPrivKey h = None ->
  handleAuthMsg h m prv ent = Ok h' ->
  exists rpub key d rrp,
    importPublicKey (InitiatorPubkey m) = Ok rpub /\
    GenerateKey (rand_key ent) = Ok key /\
    signedDigest (mkHS (h_CertSize h) (initiator h) (Some rpub) (auth_Nonce m)
                       (respNonce h) (Some key) (remoteRandomPub h)) prv = Ok d /\
    SigToPub d (Signature m) = Ok rrp /\
    h' = mkHS (h_CertSize h) (initiator h) (Some rpub) (auth_Nonce m) (respNonce h)
              (Some key) (Some rrp).
Proof.
  intros h m prv ent h' Hnone H; unfold handleAuthMsg in H; rewrite Hnone in H.
  destruct (importPublicKey (InitiatorPubkey m)) as [rpub| |] eqn:Ei; cbn [rbind] in H;
    try discriminate.
  destruct (GenerateKey (rand_key ent)) as [key| |] eqn:Ek; cbn [rbind] in H;
    try discriminate.
  match type of H with rbind ?x _ = _ => destruct x as [d| |] eqn:Ed end;
    cbn [rbind] in H; try discriminate.
  destruct (SigToPub d (Signature m)) as [rrp| |] eqn:Es; cbn [rbind] in H;
    try discriminate.
  injection H as <-.
  exists rpub, key, d, rrp; repeat split; assumption || reflexivity.
Qed.

Lemma makeAuthResp_inv : forall h ent h' m,
  makeAuthResp h ent = Ok (h', m) ->
  exists b key pubBytes,
    rand_nonce ent = Ok b /\
    randomPrivKey h = Some key /\
    exportPubkey (Some (PubOf key)) = Ok pubBytes /\
    h' = mkHS (h_CertSize h) (initiator h) (remote h) (initNonce h) (copyInto shaLen b)
              (randomPrivKey h) (remoteRandomPub h) /\
    m = {| RandomPubkey := copyInto pubLen pubBytes;
           resp_Nonce := copyInto shaLen b;
           resp_Version := TaiRLPXVersion;
           resp_CertSize := h_CertSize h |}.
Proof.
  intros h ent h' m H; unfold makeAuthResp, rand_Read in H.
  destruct (rand_nonce ent) as [b| |] eqn:Eb; cbn [rbind] in H; try discriminate.
  cbn [randomPrivKey] in H.
  destruct (randomPrivKey h) as [key|] eqn:Ek; cbn [rbind deref] in H; try discriminate.
  destruct (exportPubkey (Some (PubOf key))) as [pubBytes| |] eqn:Ee; cbn [rbind] in H;
    try discriminate.
  injection H as <- <-.
  exists b, key, pubBytes; cbn [h_CertSize].
  rewrite copyInto_idem by (cbv; discriminate).
  repeat split; assumption || reflexivity.
Qed.

Lemma handleAuthResp_inv : forall h m h',
  handleAuthResp h m = Ok h' ->
  exists rrp,
    importPublicKey (RandomPubkey m) = Ok rrp /\
    resp_Version m = TaiRLPXVersion /\
    h' = mkHS (h_CertSize h) (initiator h) (remote h) (initNonce h) (resp_Nonce m)
              (randomPrivKey h) (Some rrp).
Proof.
  intros h m h' H; unfold handleAuthResp in H.
  destruct (importPublicKey (RandomPubkey m)) as [rrp| |] eqn:Ei; try discriminate;
    destruct (resp_Version m =? TaiRLPXVersion) eqn:Ev; cbn [negb] in H;
    try discriminate.
  apply Z.eqb_eq in Ev; injection H as <-.
  exists rrp; repeat split; assumption || reflexivity.
Qed.

(** Two handshake states that hold the same nonces and whose key agreement
    gives the same secret derive the same keys, with the MACs crossed over. *)
Lemma secrets_agree : forall hA hB auth resp sA sB kA kB pA pB,
  initiator hA = true -> initiator hB = false ->
  initNonce hA = initNonce hB -> respNonce hA = respNonce hB ->
  randomPrivKey hA = Some kA -> remoteRandomPub hA = Some pB ->
  randomPrivKey hB = Some kB -> remoteRandomPub hB = Some pA ->
  GenerateShared kA pB sskLen sskLen = GenerateShared kB pA sskLen sskLen ->
  encHandshake_secrets hA auth resp = Ok sA ->
  encHandshake_secrets hB auth resp = Ok sB ->
  AES sA = AES sB /\ MAC sA = MAC sB /\
  EgressMAC sA = IngressMAC sB /\ IngressMAC sA = EgressMAC sB.
Proof.
  intros hA hB auth resp sA sB kA kB pA pB HiA HiB Hin Hrn HkA HpB HkB HpA Hsh HA HB.
  unfold encHandshake_secrets in HA, HB.
  rewrite HkA, HpB in HA; rewrite HkB, HpA in HB; cbn [deref rbind] in HA, HB.
  rewrite Hsh in HA.
  destruct (GenerateShared kB pA sskLen sskLen) as [e| |]; cbn [rbind] in HA, HB;
    try discriminate.
  rewrite Hin, Hrn, HiA in HA; rewrite HiB in HB.
  match type of HB with rbind ?x _ = _ => destruct x as [x1| |] end;
    cbn [rbind] in HA, HB; try discriminate.
  match type of HB with rbind ?x _ = _ => destruct x as [x2| |] end;
    cbn [rbind] in HA, HB; try discriminate.
  injection HA as <-; injection HB as <-; cbn; auto.
Qed.


(** C1. When A runs the initiator against B's static key, B runs the receiver
    on what A wrote, A reads what B wrote, and both runs return secrets, the
    two sets of secrets hold the same AES key and the same MAC key, A's
    egress MAC state is B's ingress MAC state and A's ingress MAC state is
    B's egress MAC state. *)
Theorem handshake_secrets_agree :
  forall cmA cmB entA entB prvA prvB cA cB cA' cB' sA sB,
  SuiteLaws -> generated prvA -> generated prvB ->
  initiatorEncHandshake cmA entA prvA (PubOf prvB) cA = (cA', Ok sA) ->
  receiverEncHandshake cmB entB prvB cB = (cB', Ok sB) ->
  wr cA = [] -> wr cB = [] ->
  wr cA' = take encAuthMsgLen (rd cB) ++ certSent cmA ->
  wr cB' = take encAuthRespLen (rd cA) ++ certSent cmB ->
  AES sA = AES sB /\ MAC sA = MAC sB /\
  EgressMAC sA = IngressMAC sB /\ IngressMAC sA = EgressMAC sB.
Proof.
  intros cmA cmB entA entB prvA prvB cA cB cA' cB' sA sB L HgA HgB HA HB
         HwA HwB HwireA HwireB.
  apply initiator_run_inv in HA.
  destruct HA as (hA1 & authMsg & authPacket & respMsg' & hA2
                  & EmkA & EsealA & EopenA & EhA & EsecA & HwrA).
  apply receiver_run_inv in HB.
  destruct HB as (authMsg' & hB1 & find & hB2 & respMsg & respPacket
                  & EopenB & EhB & _ & EmkB & EsealB & _ & EsecB & HwrB).
  (* both sides hold the same two packets *)
  rewrite HwA in HwrA; rewrite HwB in HwrB; cbn [app] in HwrA, HwrB.
  rewrite HwrA in HwireA; apply app_inv_tail in HwireA.
  rewrite HwrB in HwireB; apply app_inv_tail in HwireB.
  rewrite <- HwireA in *; rewrite <- HwireB in *.
  clear HwireA HwireB HwrA HwrB.
  (* A's first message *)
  apply makeAuthMsg_inv in EmkA.
  destruct EmkA as (b & kA & d & sig & tail & Eb & EkA & -> & EdA & Esig & -> & Etail).
  cbn [h_CertSize initiator remote respNonce remoteRandomPub] in *.
  assert (HgkA : generated kA) by (exists (rand_key entA); exact EkA).
  (* B opens it *)
  assert (HopenB : exists m, openHandshakeMsg prvB authPacket = Ok m
                             /\ Signature m = copyInto sigLen sig
                             /\ InitiatorPubkey m = copyInto pubLen tail
                             /\ auth_Nonce m = copyInto shaLen b).
  { eexists; split;
      [ eapply open_sealed_auth; try exact EsealA; try exact L; try exact HgB;
        try reflexivity; apply copyInto_length; cbv; discriminate
      | cbn; auto ]. }
  destruct HopenB as (m0 & HopenB & Hm1 & Hm2 & Hm3).
  rewrite HopenB in EopenB; injection EopenB as <-.
  apply handleAuthMsg_inv in EhB; [|reflexivity].
  destruct EhB as (rpub & kB & d' & rrp & Eimp & EkB & EdB & Erec & ->).
  rewrite ?Hm1, ?Hm2, ?Hm3 in *.
  cbn [h_CertSize initiator respNonce remoteRandomPub] in *.
  assert (HgkB : generated kB) by (exists (rand_key entB); exact EkB).
  rewrite (law_static_pub L prvA tail HgA Etail) in Eimp; injection Eimp as <-.
  assert (Hd : d' = d).
  { unfold signedDigest, staticSharedSecret in EdA, EdB.
    cbn [remote deref rbind initNonce] in EdA, EdB.
    rewrite (law_agreement L prvB prvA HgB HgA) in EdB.
    rewrite EdA in EdB; injection EdB as <-; reflexivity. }
  subst d'.
  rewrite (law_recover L _ d kA sig HgkA Esig) in Erec; injection Erec as <-.
  (* B's answer *)
  apply makeAuthResp_inv in EmkB.
  destruct EmkB as (b' & kB' & pubBytes & Eb' & EkB' & Eexp & -> & ->).
  cbn [randomPrivKey h_CertSize initiator remote initNonce remoteRandomPub] in *.
  injection EkB' as <-.
  (* A opens it *)
  assert (HopenA : exists m, openHandshakeMsg prvA respPacket = Ok m
                             /\ RandomPubkey m = copyInto pubLen pubBytes
                             /\ resp_Nonce m = copyInto shaLen b').
  { eexists; split;
      [ eapply open_sealed_resp; try exact EsealB; try exact L; try exact HgA;
        try reflexivity; apply copyInto_length; cbv; discriminate
      | cbn; auto ]. }
  destruct HopenA as (m1 & HopenA & Hr1 & Hr2).
  rewrite HopenA in EopenA; injection EopenA as <-.
  apply handleAuthResp_inv in EhA.
  destruct EhA as (rrp' & Eimp' & _ & ->).
  rewrite ?Hr1, ?Hr2 in *.
  cbn [h_CertSize initiator remote initNonce randomPrivKey] in *.
  rewrite (law_random_pub L kB pubBytes HgkB Eexp) in Eimp'; injection Eimp' as <-.
  (* the same derivation on both sides *)
  eapply secrets_agree; [ | | | | | | | | | exact EsecA | exact EsecB ];
    try reflexivity.
  apply (law_agreement L kA kB HgkA HgkB).
Qed.


(** *** Running the handshake forward *)

Lemma io_ReadFull_enough : forall n c,
  closed c = false -> 0 < n <= len (rd c) ->
  io_ReadFull n c
  = ({| rd := drop n (rd c); wr := wr c; closed := closed c |}, Ok (take n (rd c))).
Proof.
  intros n c Hc Hn; unfold io_ReadFull; rewrite Hc.
  destruct (n <=? 0) eqn:E0; [apply Z.leb_le in E0; lia|].
  destruct (len (rd c) <? n) eqn:E1; [apply Z.ltb_lt in E1; lia|].
  reflexivity.
Qed.

Lemma conn_Write_open : forall p c,
  closed c = false ->
  conn_Write p c = ({| rd := rd c; wr := wr c ++ p; closed := closed c |}, Ok tt).
Proof. intros p c H; unfold conn_Write; rewrite H; reflexivity. Qed.

Lemma DeepEqual_true : forall a b, DeepEqual a b = true -> a = b.
Proof.
  intros [[c x y]|] [[c' x' y']|]; cbn; try discriminate; try reflexivity.
  unfold PublicKey_eqb; cbn; intro H.
  apply andb_true_iff in H; destruct H as [H Hy].
  apply andb_true_iff in H; destruct H as [Hc Hx].
  assert (c = c') by (destruct c, c'; try discriminate; reflexivity).
  assert (Hopt : forall u v, optZ_eqb u v = true -> u = v).
  { intros [u|] [v|]; cbn; try discriminate; try reflexivity.
    intro E; apply Z.eqb_eq in E; subst; reflexivity. }
  apply Hopt in Hx; apply Hopt in Hy; subst; reflexivity.
Qed.

Lemma importPublicKey_never_panics : forall b w, importPublicKey b <> Panic w.
Proof.
  intros b w; unfold importPublicKey, UnmarshalPubkey.
  destruct (len b =? 64); [destruct (elliptic_Unmarshal _ _) as [[x y]|]; discriminate|].
  destruct (len b =? 65); [destruct (elliptic_Unmarshal _ _) as [[x y]|]; discriminate|].
  discriminate.
Qed.

(** The initiator once its message is sealed and the answer has been
    opened: what is left of the run (rlpx.go:317-352). *)
Lemma initiator_run_steps : forall cm ent prv remotePub c h1 authMsg authPacket respMsg,
  makeAuthMsg (mkHS (uint16 (match cm with Some m => len (cert m) | None => 0 end))
                    true (Some remotePub) [] [] None None) prv ent = Ok (h1, authMsg) ->
  authMsgV4_sealPlain authMsg h1 ent = Ok authPacket ->
  closed c = false -> encAuthRespLen <= len (rd c) ->
  openHandshakeMsg prv (take encAuthRespLen (rd c)) = Ok respMsg ->
  initiatorEncHandshake cm ent prv remotePub c
  = (h2 <- lift (handleAuthResp h1 respMsg) ;;
     initiatorCertExchange cm h2 respMsg ;;;
     lift (encHandshake_secrets h2 authPacket (take encAuthRespLen (rd c))))%M
      {| rd := drop encAuthRespLen (rd c); wr := wr c ++ authPacket; closed := false |}.
Proof.
  intros cm ent prv remotePub c h1 authMsg authPacket respMsg Emk Eseal Hc Hlen Eopen.
  unfold initiatorEncHandshake.
  unfold mbind at 1, lift at 1; rewrite Emk.
  unfold mbind at 1, lift at 1; rewrite Eseal.
  unfold mbind at 1; rewrite (conn_Write_open _ _ Hc).
  unfold mbind at 1, readHandshakeMsg at 1, mbind at 1.
  rewrite io_ReadFull_enough
    by (cbn [rd closed]; first [exact Hc | split; [reflexivity | exact Hlen]]).
  cbn [rd wr closed].
  unfold mbind at 1, lift at 1; rewrite Eopen.
  unfold mret; rewrite Hc; reflexivity.
Qed.

(** The receiver once the message is opened and its answer is sealed: what
    is left of the run (rlpx.go:439-468). *)
Lemma receiver_run_steps : forall cm ent prv c authMsg h1 find h2 respMsg respPacket,
  closed c = false -> encAuthMsgLen <= len (rd c) ->
  openHandshakeMsg prv (take encAuthMsgLen (rd c)) = Ok authMsg ->
  handleAuthMsg (mkHS (match cm with Some m => uint16 (len (cert m)) | None => 0 end)
                      false None [] [] None None) authMsg prv ent = Ok h1 ->
  receiverCertGate cm authMsg = Ok find ->
  makeAuthResp h1 ent = Ok (h2, respMsg) ->
  authRespV4_sealPlain respMsg h2 ent = Ok respPacket ->
  receiverEncHandshake cm ent prv c
  = (if negb (auth_Version authMsg =? TaiRLPXVersion)
     then lift (Err (errHandshakeVersion (auth_Version authMsg)))
     else (receiverCertExchange cm find h2 authMsg ;;;
           lift (encHandshake_secrets h2 (take encAuthMsgLen (rd c)) respPacket))%M)
      {| rd := drop encAuthMsgLen (rd c); wr := wr c ++ respPacket; closed := false |}.
Proof.
  intros cm ent prv c authMsg h1 find h2 respMsg respPacket Hc Hlen Eopen Eh Eg Emk Eseal.
  unfold receiverEncHandshake.
  unfold mbind at 1, readHandshakeMsg at 1, mbind at 1.
  rewrite io_ReadFull_enough
    by (first [exact Hc | split; [reflexivity | exact Hlen]]).
  unfold mbind at 1, lift at 1; rewrite Eopen.
  unfold mret.
  unfold mbind at 1, lift at 1; rewrite Eh.
  unfold mbind at 1, lift at 1; rewrite Eg.
  unfold mbind at 1, lift at 1; rewrite Emk.
  unfold mbind at 1, lift at 1; rewrite Eseal.
  unfold mbind at 1; rewrite conn_Write_open by (cbn [closed]; exact Hc).
  cbn [rd wr closed]; rewrite Hc; reflexivity.
Qed.

(** A packet that does not decrypt is an error; a packet that decrypts to
    something [rlp.Decode] rejects is a panic. *)
Lemma readHandshakeMsg_outcomes :
  forall (T : Type) (pd : plainDecoder T) plainSize prv c,
  closed c = false -> 0 < plainSize <= len (rd c) ->
  let buf := take plainSize (rd c) in
  (forall e, Decrypt prv buf = Err e ->
     snd (readHandshakeMsg (T := T) plainSize prv c) = Err errDecrypt) /\
  (forall dec w, Decrypt prv buf = Ok dec -> 2 <= len dec ->
     decodePlain (drop 2 dec) = Panic w ->
     snd (readHandshakeMsg (T := T) plainSize prv c) = Panic w).
Proof.
  intros T pd plainSize prv c Hc Hlen buf; split.
  - intros e He; unfold readHandshakeMsg, mbind.
    rewrite io_ReadFull_enough by assumption.
    unfold lift, openHandshakeMsg; fold buf; rewrite He; reflexivity.
  - intros dec w Hd H2 Hp; unfold readHandshakeMsg, mbind.
    rewrite io_ReadFull_enough by assumption.
    unfold lift, openHandshakeMsg; fold buf; rewrite Hd.
    unfold slice_to, slice_from.
    destruct (len dec <? 2) eqn:E; [apply Z.ltb_lt in E; lia|].
    cbn [rbind]; rewrite Hp; reflexivity.
Qed.


(** *** The derivation of the secrets *)

Lemma Keccak256_concat : forall a b, Keccak256 [a; b] = Keccak256 [a ++ b].
Proof.
  intros; unfold Keccak256; destruct CryptoType; cbn [fold_left]; try reflexivity.
Qed.

Lemma Keccak256_length : forall data, (length (Keccak256 data) <= 32)%nat.
Proof.
  intros; unfold Keccak256; destruct CryptoType.
  - pose proof (hash_Sum_len (fold_left hash_Write data sha3_NewLegacyKeccak256)) as H.
    unfold len in H; lia.
  - pose proof (copyInto_length 32 (sm3_digest (fold_left (fun d b => d ++ b) data []))
                  ltac:(lia)) as H.
    unfold len in H; lia.
  - cbn; lia.
Qed.

(** C4. [secrets] derives [sharedSecret = H(ecdheSecret || H(respNonce ||
    initNonce))], [aesKey = H(ecdheSecret || sharedSecret)] and [macKey =
    H(ecdheSecret || aesKey)], where [H] is [Keccak256] and [ecdheSecret] the
    key agreement of the local ephemeral private key with the remote
    ephemeral public key; the secrets returned carry [aesKey] as [AES] and
    [macKey] as [MAC]. *)
Theorem secrets_key_chain : forall h auth authResp prv pub ecdheSecret,
  randomPrivKey h = Some prv ->
  remoteRandomPub h = Some pub ->
  GenerateShared prv pub sskLen sskLen = Ok ecdheSecret ->
  len (respNonce h) = shaLen -> len (initNonce h) = shaLen ->
  let H := fun x => Keccak256 [x] in
  let sharedSecret := H (ecdheSecret ++ H (respNonce h ++ initNonce h)) in
  let aesKey := H (ecdheSecret ++ sharedSecret) in
  let macKey := H (ecdheSecret ++ aesKey) in
  exists s, encHandshake_secrets h auth authResp = Ok s
            /\ AES s = aesKey /\ MAC s = macKey /\ Remote s = remote h.
Proof.
  intros h auth authResp prv pub ecdheSecret Hprv Hpub Hsh Hrn Hin H sharedSecret
         aesKey macKey.
  unfold encHandshake_secrets.
  rewrite Hprv, Hpub; cbn [deref rbind]; rewrite Hsh; cbn [rbind].
  rewrite !Keccak256_concat.
  subst macKey aesKey sharedSecret H; cbv beta.
  match goal with
  | |- context [xor (Keccak256 ?d) _] => pose proof (Keccak256_length d) as Hl
  end.
  unfold len, shaLen in Hrn, Hin.
  rewrite !xor_Ok by lia; cbn [rbind].
  eexists; repeat split; reflexivity.
Qed.

(** *** Version, certificate and decoding failures *)

Lemma makeAuthMsg_version : forall h prv ent h' m,
  makeAuthMsg h prv ent = Ok (h', m) ->
  auth_Version m = TaiRLPXVersion /\ remote h' = remote h.
Proof.
  intros h prv ent h' m H; apply makeAuthMsg_inv in H.
  destruct H as (b & key & d & sig & tail & _ & _ & -> & _ & _ & -> & _); auto.
Qed.

Lemma makeAuthResp_version : forall h ent h' m,
  makeAuthResp h ent = Ok (h', m) ->
  resp_Version m = TaiRLPXVersion /\ remote h' = remote h.
Proof.
  intros h ent h' m H; apply makeAuthResp_inv in H.
  destruct H as (b & key & pb & _ & _ & _ & -> & ->); auto.
Qed.

Lemma handleAuthResp_version : forall h m,
  resp_Version m <> TaiRLPXVersion ->
  handleAuthResp h m = Err (errAuthRespVersion (resp_Version m)).
Proof.
  intros h m Hv; unfold handleAuthResp.
  pose proof (importPublicKey_never_panics (RandomPubkey m)) as Hp.
  destruct (resp_Version m =? TaiRLPXVersion) eqn:E; [apply Z.eqb_eq in E; contradiction|].
  destruct (importPublicKey (RandomPubkey m)); cbn [negb]; try reflexivity.
  exfalso; eapply Hp; reflexivity.
Qed.

(** C6. A side that receives a handshake message whose version field is not
    the one it sends ([TaiRLPXVersion], the version of every message
    [makeAuthMsg] and [makeAuthResp] build) never returns secrets; when the
    steps before the comparison go through, its run ends in the version
    error. This holds for the initiator reading the response and for the
    receiver reading the auth message. *)
Theorem version_mismatch_no_secrets :
  (forall cm ent prv remotePub c respMsg,
     openHandshakeMsg prv (take encAuthRespLen (rd c)) = Ok respMsg ->
     resp_Version respMsg <> TaiRLPXVersion ->
     (forall c' s, initiatorEncHandshake cm ent prv remotePub c <> (c', Ok s)) /\
     (forall h1 authMsg authPacket,
        makeAuthMsg (mkHS (uint16 (match cm with Some m => len (cert m) | None => 0 end))
                          true (Some remotePub) [] [] None None) prv ent
          = Ok (h1, authMsg) ->
        authMsgV4_sealPlain authMsg h1 ent = Ok authPacket ->
        closed c = false -> encAuthRespLen <= len (rd c) ->
        resp_Version respMsg <> auth_Version authMsg /\
        exists e, snd (initiatorEncHandshake cm ent prv remotePub c) = Err e
                  /\ taxonomy e = VersionMismatch))
  /\
  (forall cm ent prv c authMsg,
     openHandshakeMsg prv (take encAuthMsgLen (rd c)) = Ok authMsg ->
     auth_Version authMsg <> TaiRLPXVersion ->
     (forall c' s, receiverEncHandshake cm ent prv c <> (c', Ok s)) /\
     (forall h1 find h2 respMsg respPacket,
        closed c = false -> encAuthMsgLen <= len (rd c) ->
        handleAuthMsg (mkHS (match cm with Some m => uint16 (len (cert m)) | None => 0 end)
                            false None [] [] None None) authMsg prv ent = Ok h1 ->
        receiverCertGate cm authMsg = Ok find ->
        makeAuthResp h1 ent = Ok (h2, respMsg) ->
        authRespV4_sealPlain respMsg h2 ent = Ok respPacket ->
        auth_Version authMsg <> resp_Version respMsg /\
        exists e, snd (receiverEncHandshake cm ent prv c) = Err e
                  /\ taxonomy e = VersionMismatch)).
Proof.
  split.
  - intros cm ent prv remotePub c respMsg Eopen Hv; split.
    + intros c' s H; apply initiator_run_inv in H.
      destruct H as (h1 & am & ap & rm & h2 & _ & _ & Eopen' & Eh & _).
      rewrite Eopen in Eopen'; injection Eopen' as <-.
      rewrite (handleAuthResp_version h1 respMsg Hv) in Eh; discriminate.
    + intros h1 authMsg authPacket Emk Eseal Hc Hlen.
      destruct (makeAuthMsg_version _ _ _ _ _ Emk) as [Hav _].
      split; [rewrite Hav; exact Hv|].
      rewrite (initiator_run_steps cm ent prv remotePub c h1 authMsg authPacket respMsg
                 Emk Eseal Hc Hlen Eopen).
      unfold mbind at 1, lift at 1.
      rewrite (handleAuthResp_version h1 respMsg Hv).
      eexists; split; reflexivity.
  - intros cm ent prv c authMsg Eopen Hv; split.
    + intros c' s H; apply receiver_run_inv in H.
      destruct H as (am & h1 & find & h2 & rm & rp & Eopen' & _ & _ & _ & _ & Hver & _).
      rewrite Eopen in Eopen'; injection Eopen' as <-; contradiction.
    + intros h1 find h2 respMsg respPacket Hc Hlen Eh Eg Emk Eseal.
      destruct (makeAuthResp_version _ _ _ _ Emk) as [Hrv _].
      split; [rewrite Hrv; exact Hv|].
      rewrite (receiver_run_steps cm ent prv c authMsg h1 find h2 respMsg respPacket
                 Hc Hlen Eopen Eh Eg Emk Eseal).
      destruct (auth_Version authMsg =? TaiRLPXVersion) eqn:E;
        [apply Z.eqb_eq in E; contradiction|].
      eexists; split; reflexivity.
Qed.


Lemma len_drop : forall n b, 0 <= n <= len b -> len (drop n b) = len b - n.
Proof. intros n b H; unfold len, drop in *; rewrite length_skipn; lia. Qed.

Lemma DeepEqual_neq : forall a b, a <> b -> DeepEqual a b = false.
Proof.
  intros a b H; destruct (DeepEqual a b) eqn:E; [|reflexivity].
  apply DeepEqual_true in E; contradiction.
Qed.

Lemma handleAuthResp_remote : forall h m h',
  handleAuthResp h m = Ok h' -> remote h' = remote h.
Proof.
  intros h m h' H; apply handleAuthResp_inv in H.
  destruct H as (rrp & _ & _ & ->); reflexivity.
Qed.

(** C7. With certificate exchange engaged, a certificate that arrives, passes
    [VerifyCert] and yields a public key other than the remote static key of
    the handshake state ends the run in the certificate-identity error, for
    the initiator and for the receiver; no secrets are returned. *)
Theorem certificate_key_mismatch_aborts :
  (forall m ent prv remotePub c h1 authMsg authPacket respMsg h2 pub,
     let buf := take (resp_CertSize respMsg) (drop encAuthRespLen (rd c)) in
     len (cert m) <> 0 ->
     makeAuthMsg (mkHS (uint16 (len (cert m))) true (Some remotePub) [] [] None None)
                 prv ent = Ok (h1, authMsg) ->
     authMsgV4_sealPlain authMsg h1 ent = Ok authPacket ->
     closed c = false ->
     encAuthRespLen + resp_CertSize respMsg <= len (rd c) ->
     openHandshakeMsg prv (take encAuthRespLen (rd c)) = Ok respMsg ->
     handleAuthResp h1 respMsg = Ok h2 ->
     resp_CertSize respMsg = uint16 (len (cert m)) ->
     resp_CertSize respMsg <> 0 ->
     VerifyCert (certList m) buf = Ok tt ->
     FromCertBytesToPubKey buf = Ok pub ->
     pub <> Some remotePub ->
     exists e, snd (initiatorEncHandshake (Some m) ent prv remotePub c) = Err e
               /\ e = errCertNotMatch /\ taxonomy e = CertificateIdentityMismatch)
  /\
  (forall m ent prv c authMsg h1 h2 respMsg respPacket pub,
     let buf := take (auth_CertSize authMsg) (drop encAuthMsgLen (rd c)) in
     len (cert m) <> 0 ->
     closed c = false ->
     encAuthMsgLen + auth_CertSize authMsg <= len (rd c) ->
     openHandshakeMsg prv (take encAuthMsgLen (rd c)) = Ok authMsg ->
     handleAuthMsg (mkHS (uint16 (len (cert m))) false None [] [] None None)
                   authMsg prv ent = Ok h1 ->
     auth_CertSize authMsg = uint16 (len (cert m)) ->
     auth_CertSize authMsg <> 0 ->
     makeAuthResp h1 ent = Ok (h2, respMsg) ->
     authRespV4_sealPlain respMsg h2 ent = Ok respPacket ->
     auth_Version authMsg = TaiRLPXVersion ->
     VerifyCert (certList m) buf = Ok tt ->
     FromCertBytesToPubKey buf = Ok pub ->
     pub <> remote h1 ->
     exists e, snd (receiverEncHandshake (Some m) ent prv c) = Err e
               /\ e = errCertNotMatch /\ taxonomy e = CertificateIdentityMismatch).
Proof.
  split.
  - intros m ent prv remotePub c h1 authMsg authPacket respMsg h2 pub buf
           Hcert Emk Eseal Hc Hlen Eopen Eh Hsz Hnz Hver Hpub Hneq.
    assert (Hpos : 0 < resp_CertSize respMsg).
    { assert (0 <= resp_CertSize respMsg); [|lia].
      rewrite Hsz; unfold uint16; apply Z.mod_pos_bound; reflexivity. }
    assert (Hl0 : encAuthRespLen <= len (rd c)) by lia.
    assert (Hld : len (drop encAuthRespLen (rd c)) = len (rd c) - encAuthRespLen)
      by (apply len_drop; split; [cbv; discriminate | exact Hl0]).
    rewrite (initiator_run_steps (Some m) ent prv remotePub c h1 authMsg authPacket
               respMsg Emk Eseal Hc Hl0 Eopen).
    unfold mbind at 1, lift at 1; rewrite Eh.
    unfold mbind at 1, initiatorCertExchange.
    destruct (len (cert m) =? 0) eqn:E0; [apply Z.eqb_eq in E0; contradiction|].
    destruct (resp_CertSize respMsg =? 0) eqn:E1; [apply Z.eqb_eq in E1; contradiction|].
    rewrite <- Hsz, Z.eqb_refl; cbn [negb].
    unfold mbind at 1; rewrite conn_Write_open by reflexivity.
    unfold mbind at 1.
    rewrite io_ReadFull_enough
      by (cbn [rd closed]; first [reflexivity | split; [exact Hpos | rewrite Hld; lia]]).
    cbn [rd wr closed]; fold buf.
    unfold mbind, lift; rewrite Hver, Hpub.
    rewrite (handleAuthResp_remote _ _ _ Eh).
    destruct (makeAuthMsg_version _ _ _ _ _ Emk) as [_ Hr]; rewrite Hr; cbn [remote].
    rewrite (DeepEqual_neq _ _ Hneq); cbn [negb snd].
    exists errCertNotMatch; repeat split.
  - intros m ent prv c authMsg h1 h2 respMsg respPacket pub buf
           Hcert Hc Hlen Eopen Eh Hsz Hnz Emk Eseal Hv Hver Hpub Hneq.
    assert (Hpos : 0 < auth_CertSize authMsg).
    { assert (0 <= auth_CertSize authMsg); [|lia].
      rewrite Hsz; unfold uint16; apply Z.mod_pos_bound; reflexivity. }
    assert (Hl0 : encAuthMsgLen <= len (rd c)) by lia.
    assert (Hld : len (drop encAuthMsgLen (rd c)) = len (rd c) - encAuthMsgLen)
      by (apply len_drop; split; [cbv; discriminate | exact Hl0]).
    assert (Eg : receiverCertGate (Some m) authMsg = Ok true).
    { unfold receiverCertGate.
      destruct (len (cert m) =? 0) eqn:E0; [apply Z.eqb_eq in E0; contradiction|].
      destruct (auth_CertSize authMsg =? 0) eqn:E1; [apply Z.eqb_eq in E1; contradiction|].
      rewrite <- Hsz, Z.eqb_refl; reflexivity. }
    rewrite (receiver_run_steps (Some m) ent prv c authMsg h1 true h2 respMsg respPacket
               Hc Hl0 Eopen Eh Eg Emk Eseal).
    rewrite Hv, Z.eqb_refl; cbn [negb].
    unfold mbind at 1, receiverCertExchange.
    unfold mbind at 1.
    rewrite io_ReadFull_enough
      by (cbn [rd closed]; first [reflexivity | split; [exact Hpos | rewrite Hld; lia]]).
    cbn [rd wr closed]; fold buf.
    unfold mbind, lift; cbn [deref]; rewrite Hver, Hpub.
    destruct (makeAuthResp_version _ _ _ _ Emk) as [_ Hr]; rewrite Hr.
    rewrite (DeepEqual_neq _ _ Hneq); cbn [negb snd].
    exists errCertNotMatch; repeat split.
Qed.

Lemma mbind_fails : forall (S A B : Type) (m : M S A) (k : A -> M S B) s,
  (forall e, snd (m s) = Err e -> snd (mbind m k s) = Err e) /\
  (forall w, snd (m s) = Panic w -> snd (mbind m k s) = Panic w).
Proof.
  intros S A B m k s; unfold mbind; destruct (m s) as [s' [a|e|w]]; cbn [snd];
    split; intros x H; try discriminate; injection H as <-; reflexivity.
Qed.

(** C9. A packet that does not decrypt makes the run return the decryption
    error. A packet that decrypts to at least two bytes whose remainder
    [rlp.Decode] rejects does not make the run return an error: [decodePlain]
    panics. Both hold for the receiver reading the auth message and, once
    its own message is sent, for the initiator reading the response. *)
Theorem handshake_decode_failure_panics :
  (forall cm ent prv c,
     closed c = false -> encAuthMsgLen <= len (rd c) ->
     (forall e, Decrypt prv (take encAuthMsgLen (rd c)) = Err e ->
        exists e', snd (receiverEncHandshake cm ent prv c) = Err e'
                   /\ taxonomy e' = DecryptionFailure) /\
     (forall dec e, Decrypt prv (take encAuthMsgLen (rd c)) = Ok dec -> 2 <= len dec ->
        rlp_DecodeAuthMsg (drop 2 dec) = Err e ->
        snd (receiverEncHandshake cm ent prv c) = Panic "authRespV4 decode error"))
  /\
  (forall cm ent prv remotePub c h1 authMsg authPacket,
     makeAuthMsg (mkHS (uint16 (match cm with Some m => len (cert m) | None => 0 end))
                       true (Some remotePub) [] [] None None) prv ent = Ok (h1, authMsg) ->
     authMsgV4_sealPlain authMsg h1 ent = Ok authPacket ->
     closed c = false -> encAuthRespLen <= len (rd c) ->
     (forall e, Decrypt prv (take encAuthRespLen (rd c)) = Err e ->
        exists e', snd (initiatorEncHandshake cm ent prv remotePub c) = Err e'
                   /\ taxonomy e' = DecryptionFailure) /\
     (forall dec e, Decrypt prv (take encAuthRespLen (rd c)) = Ok dec -> 2 <= len dec ->
        rlp_DecodeAuthResp (drop 2 dec) = Err e ->
        snd (initiatorEncHandshake cm ent prv remotePub c) = Panic "authRespV4 decode error")).
Proof.
  split.
  - intros cm ent prv c Hc Hlen.
    destruct (readHandshakeMsg_outcomes authMsgV4 _ encAuthMsgLen prv c Hc
                (conj eq_refl Hlen)) as [HE HP].
    split.
    + intros e He; exists errDecrypt; split; [|reflexivity].
      unfold receiverEncHandshake; apply mbind_fails; eapply HE; exact He.
    + intros dec e Hd H2 Hr.
      unfold receiverEncHandshake; apply mbind_fails; eapply HP; eauto.
      cbn [decodePlain authMsgV4_plainDecoder]; unfold authMsgV4_decodePlain.
      rewrite Hr; reflexivity.
  - intros cm ent prv remotePub c h1 authMsg authPacket Emk Eseal Hc Hlen.
    set (c1 := {| rd := rd c; wr := wr c ++ authPacket; closed := closed c |}).
    assert (Hrun : forall r,
              snd (readHandshakeMsg (T := authRespV4) encAuthRespLen prv c1) = r ->
              (forall a, r <> Ok a) ->
              snd (initiatorEncHandshake cm ent prv remotePub c)
              = match r with Ok _ => Panic "" | Err e => Err e | Panic w => Panic w end).
    { intros r Hr Hnok; unfold initiatorEncHandshake.
      unfold mbind at 1, lift at 1; rewrite Emk.
      unfold mbind at 1, lift at 1; rewrite Eseal.
      unfold mbind at 1; rewrite (conn_Write_open _ _ Hc); fold c1.
      unfold mbind at 1.
      destruct (readHandshakeMsg encAuthRespLen prv c1) as [c2 [[a b]|e|w]];
        cbn [snd] in Hr; subst r; try reflexivity.
      exfalso; eapply Hnok; reflexivity. }
    destruct (readHandshakeMsg_outcomes authRespV4 _ encAuthRespLen prv c1 Hc
                (conj eq_refl Hlen)) as [HE HP].
    cbn [rd c1] in HE, HP.
    split.
    + intros e He; exists errDecrypt; split; [|reflexivity].
      rewrite (Hrun _ (HE e He)); [reflexivity | discriminate].
    + intros dec e Hd H2 Hr.
      rewrite (Hrun (Panic "authRespV4 decode error")); [reflexivity | | discriminate].
      eapply HP; eauto.
      cbn [decodePlain authRespV4_plainDecoder]; unfold authRespV4_decodePlain.
      rewrite Hr; reflexivity.
Qed.

(** C10 (as amended). [xor(one, other)], when [other] is at least as long as
    [one], returns [len(one)] bytes, byte [i] being [one[i] ^ other[i]]. So
    the digest [makeAuthMsg] signs is as long as the static shared secret
    that [GenerateShared(prv, remote, sskLen, sskLen)] returns, and is that
    secret XOR-ed with as many leading bytes of the nonce. In the S256 mode
    [Sign] accepts 32-byte digests only, so the digest of a [makeAuthMsg]
    that goes through is 32 bytes long. *)
Theorem xor_and_signed_digest_length :
  (forall one other, (length one <= length other)%nat ->
     exists r, xor one other = Ok r /\ length r = length one /\
       forall i, (i < length one)%nat ->
         nth i r 0 = Z.lxor (nth i one 0) (nth i other 0))
  /\
  (forall h prv r token,
     remote h = Some r ->
     GenerateShared prv r sskLen sskLen = Ok token ->
     (length token <= length (initNonce h))%nat ->
     exists d, signedDigest h prv = Ok d /\ length d = length token /\
       d = xorPrefix token (firstn (length token) (initNonce h)))
  /\
  (CryptoType = CRYPTO_S256_SH3_AES ->
   forall h prv ent h' msg, makeAuthMsg h prv ent = Ok (h', msg) ->
     exists d, signedDigest h' prv = Ok d /\ len d = 32).
Proof.
  split; [|split].
  - intros one other H; exists (xorPrefix one other).
    split; [apply xor_Ok; exact H|].
    split; [apply xorPrefix_length; exact H|].
    intros i Hi; apply xorPrefix_nth; assumption.
  - intros h prv r token Hr Hs Hl.
    exists (xorPrefix token (initNonce h)).
    unfold signedDigest, staticSharedSecret; rewrite Hr; cbn [deref rbind].
    rewrite Hs; cbn [rbind].
    split; [apply xor_Ok; exact Hl|].
    split; [apply xorPrefix_length; exact Hl|].
    symmetry; apply xorPrefix_firstn.
  - intros Hmode h prv ent h' msg H.
    destruct (makeAuthMsg_inv h prv ent h' msg H)
      as (b & key & d & sig & tail & _ & _ & _ & Hd & Hs & _).
    exists d; split; [exact Hd|].
    unfold Sign in Hs; rewrite Hmode in Hs.
    destruct (len d =? 32) eqn:E; [apply Z.eqb_eq in E; exact E | discriminate].
Qed.

End HandshakeFacts.

(* ================================================================== *)
(** ** The reference suite satisfies the laws *)

Module RefLaws.

Import Ref.

Lemma be_bytes_length : forall n v, length (be_bytes n v) = n.
Proof.
  induction n as [|n IH]; intros v; cbn [be_bytes]; [reflexivity|].
  rewrite length_app, IH; cbn; lia.
Qed.

Lemma be_bytes_len : forall n v, len (be_bytes n v) = Z.of_nat n.
Proof. intros; unfold len; rewrite be_bytes_length; reflexivity. Qed.

Lemma be_value_snoc : forall l x, be_value (l ++ [x]) = be_value l * 256 + x.
Proof. intros; unfold be_value; rewrite fold_left_app; reflexivity. Qed.

Lemma be_value_be_bytes : forall n v,
  0 <= v < 256 ^ Z.of_nat n -> be_value (be_bytes n v) = v.
Proof.
  induction n as [|n IH]; intros v Hv.
  - cbn in *; lia.
  - cbn [be_bytes]; rewrite be_value_snoc, IH.
    + pose proof (Z.div_mod v 256 ltac:(lia)); lia.
    + rewrite Nat2Z.inj_succ, Z.pow_succ_r in Hv by lia.
      split; [apply Z.div_pos; lia | apply Z.div_lt_upper_bound; lia].
Qed.

#[local] Arguments be_bytes : simpl never.

Lemma Ok_inj : forall (A : Type) (a b : A), Ok a = Ok b -> a = b.
Proof. intros A a b H; injection H as H; exact H. Qed.

Lemma polyHash_length : forall iv x, length (polyHash iv x) = 32%nat.
Proof. intros; unfold polyHash; rewrite length_rev; apply be_bytes_length. Qed.

Lemma firstn_app_exact : forall (a b : bytes) n, length a = n -> firstn n (a ++ b) = a.
Proof.
  intros a b n <-; replace (length a) with (length a + 0)%nat by lia.
  rewrite firstn_app_2; cbn; apply app_nil_r.
Qed.

Lemma skipn_app_exact : forall (a b : bytes) n, length a = n -> skipn n (a ++ b) = b.
Proof. intros a b n <-; rewrite skipn_app, skipn_all, Nat.sub_diag; reflexivity. Qed.

Lemma Q_bound : Q < 256 ^ 32.
Proof. reflexivity. Qed.

(** The keys of the reference suite. *)
Lemma generated_shape : forall k,
  generated k ->
  exists d x, k = {| PubOf := {| Curve := P256; X := Some x; Y := Some ((x * x) mod Q) |};
                     D := d |}
              /\ x = (d * G) mod Q /\ 0 <= x < Q.
Proof.
  intros k [seed H]; cbn in H; unfold generateKey in H; injection H as <-.
  eexists; eexists; split; [reflexivity|]; split; [reflexivity|].
  apply Z.mod_pos_bound; reflexivity.
Qed.

(** The functions of crypto.go in the reference configuration. *)
Lemma Encrypt_ref : forall seed pub m, Encrypt seed pub m = sealTo seed pub m.
Proof. reflexivity. Qed.

Lemma Decrypt_ref : forall prv c, Decrypt prv c = openWith prv c.
Proof. reflexivity. Qed.

Lemma GenerateShared_ref : forall prv pub a b,
  GenerateShared prv pub a b = generateShared prv pub a b.
Proof. reflexivity. Qed.

Lemma law_agreement_ref : forall a b, generated a -> generated b ->
  GenerateShared a (PubOf b) sskLen sskLen = GenerateShared b (PubOf a) sskLen sskLen.
Proof.
  intros a b Ha Hb.
  destruct (generated_shape a Ha) as (da & xa & -> & Hxa & _).
  destruct (generated_shape b Hb) as (db & xb & -> & Hxb & _).
  rewrite !GenerateShared_ref; unfold generateShared; cbn [X PubOf D].
  assert (E : (da * xb) mod Q = (db * xa) mod Q).
  { subst xa xb; rewrite !Z.mul_mod_idemp_r by (cbv; discriminate).
    f_equal; ring. }
  rewrite E; reflexivity.
Qed.

Lemma map_lxor_involutive : forall (k : Z) (m : bytes),
  map (fun b => Z.lxor b k) (map (fun b => Z.lxor b k) m) = m.
Proof.
  intros k m; rewrite map_map; rewrite <- (map_id m) at 2.
  apply map_ext; intros b.
  rewrite Z.lxor_assoc, Z.lxor_nilpotent, Z.lxor_0_r; reflexivity.
Qed.

Lemma law_open_ref : forall seed prv m c, generated prv ->
  Encrypt seed (PubOf prv) m = Ok c -> Decrypt prv c = Ok m.
Proof.
  intros seed prv m c Hg H.
  destruct (generated_shape prv Hg) as (d & x & -> & Hx & Hxr).
  rewrite Encrypt_ref in H; unfold sealTo in H; cbn [X PubOf] in H.
  apply Ok_inj in H; subst c.
  rewrite Decrypt_ref; unfold openWith; cbn [X PubOf].
  set (iv := copyInto 16 seed).
  assert (Hiv : length iv = 16%nat).
  { pose proof (copyInto_length 16 seed ltac:(lia)) as H; unfold len in H; fold iv in H; lia. }
  set (body := map (fun b => Z.lxor b (nth 0 iv 0)) m).
  assert (Hlen : len (be_bytes 65 x ++ iv ++ polyHash 13 m ++ body)
                 = 113 + len body).
  { unfold len; rewrite !length_app, be_bytes_length, polyHash_length, Hiv; lia. }
  rewrite Hlen.
  pose proof (len_nonneg _ body).
  destruct (113 + len body <? eciesOverhead) eqn:E;
    [apply Z.ltb_lt in E; change eciesOverhead with 113 in E; lia|].
  assert (H65 : nth 65 (be_bytes 65 x ++ iv ++ polyHash 13 m ++ body) 0 = nth 0 iv 0).
  { rewrite app_nth2 by (rewrite be_bytes_length; lia).
    rewrite be_bytes_length, Nat.sub_diag.
    rewrite app_nth1 by lia; reflexivity. }
  rewrite H65.
  assert (Hdrop : drop eciesOverhead (be_bytes 65 x ++ iv ++ polyHash 13 m ++ body) = body).
  { unfold drop; change (Z.to_nat eciesOverhead) with (16 + 32 + 65)%nat.
    rewrite <- skipn_skipn.
    rewrite (skipn_app_exact (be_bytes 65 x)) by apply be_bytes_length.
    rewrite app_assoc.
    apply skipn_app_exact; rewrite length_app, Hiv, polyHash_length; reflexivity. }
  rewrite Hdrop; unfold body; rewrite map_lxor_involutive.
  assert (Htake : take 65 (be_bytes 65 x ++ iv ++ polyHash 13 m ++ map (fun b => Z.lxor b (nth 0 iv 0)) m)
                  = be_bytes 65 x).
  { unfold take; apply firstn_app_exact, be_bytes_length. }
  rewrite Htake, be_value_be_bytes
    by (split; [lia | apply Z.lt_trans with Q; [lia | reflexivity]]).
  cbn [optZ_eqb]; rewrite Z.eqb_refl.
  assert (Htag : take 32 (drop 81 (be_bytes 65 x ++ iv ++ polyHash 13 m
                                   ++ map (fun b => Z.lxor b (nth 0 iv 0)) m))
                 = polyHash 13 m).
  { unfold drop, take; change (Z.to_nat 81) with (16 + 65)%nat.
    rewrite <- skipn_skipn.
    rewrite (skipn_app_exact (be_bytes 65 x)) by apply be_bytes_length.
    rewrite (skipn_app_exact iv) by exact Hiv.
    apply firstn_app_exact, polyHash_length. }
  rewrite Htag, bytes_eqb_refl; reflexivity.
Qed.


Lemma copyInto_exact_length : forall n b, length b = n -> copyInto (Z.of_nat n) b = b.
Proof. intros n b H; apply copyInto_exact; unfold len; rewrite H; reflexivity. Qed.

Lemma compress_length : forall c x y,
  length (compress {| Curve := c; X := Some x; Y := y |}) = 33%nat.
Proof. intros; unfold compress; cbn [X length]; rewrite be_bytes_length; reflexivity. Qed.

Lemma law_recover_ref : forall seed d k sig, generated k ->
  Sign seed d k = Ok sig -> SigToPub d (copyInto sigLen sig) = Ok (PubOf k).
Proof.
  intros seed d k sig Hg H.
  destruct (generated_shape k Hg) as (dk & x & -> & Hx & Hxr).
  set (pub := {| Curve := P256; X := Some x; Y := Some ((x * x) mod Q) |}) in *.
  change (Sign seed d {| PubOf := pub; D := dk |})
    with ((p256sign <- signWith seed {| PubOf := pub; D := dk |} d ;;
           if negb (len p256sign =? 65) then Err errSigLength
           else Ok (p256sign ++ compress pub))%result) in H.
  unfold signWith in H; cbn [rbind D] in H.
  set (s65 := polyHash dk d ++ polyHash (dk + 1) (d ++ seed) ++ [0]) in *.
  assert (Hs : length s65 = 65%nat).
  { unfold s65; rewrite !length_app, !polyHash_length; reflexivity. }
  assert (Hs' : len s65 = 65) by (unfold len; rewrite Hs; reflexivity).
  rewrite Hs' in H; cbn [Z.eqb Pos.eqb negb] in H.
  apply Ok_inj in H; subst sig.
  assert (Hc : length (compress pub) = 33%nat) by apply compress_length.
  rewrite (copyInto_exact_length 98) by (rewrite length_app, Hs, Hc; reflexivity).
  change (SigToPub d (s65 ++ compress pub))
    with ((tail <- slice_from 65 (s65 ++ compress pub) ;; DecompressPubkey tail)%result).
  unfold slice_from.
  assert (Hl : len (s65 ++ compress pub) = 98)
    by (unfold len; rewrite length_app, Hs, Hc; reflexivity).
  rewrite Hl; cbn [Z.ltb Z.compare Pos.compare Pos.compare_cont rbind].
  rewrite (drop_app_exact s65 (compress pub) 65 Hs').
  change (DecompressPubkey (compress pub))
    with (if negb (len (compress pub) =? 33) then Err errDecompressLength
          else Ok (decompress P256 (compress pub))).
  assert (Hc' : len (compress pub) = 33) by (unfold len; rewrite Hc; reflexivity).
  rewrite Hc'; cbn [Z.eqb Pos.eqb negb].
  unfold decompress, compress, pub; cbn [X].
  change (drop 1 (2 + x mod 2 :: be_bytes 32 x)) with (be_bytes 32 x).
  rewrite be_value_be_bytes
    by (split; [lia | apply Z.lt_trans with Q; [lia | reflexivity]]).
  reflexivity.
Qed.

Lemma marshal_roundtrip : forall c x y,
  0 <= x < Q -> y = (x * x) mod Q ->
  (t <- slice_from 1 (marshal c x y) ;; importPublicKey (copyInto pubLen t))%result
  = Ok {| Curve := P256; X := Some x; Y := Some y |}.
Proof.
  intros c x y Hx Hy.
  assert (Hyr : 0 <= y < Q) by (subst y; apply Z.mod_pos_bound; reflexivity).
  unfold marshal, slice_from.
  set (t := be_bytes 32 x ++ be_bytes 32 y).
  assert (Ht : length t = 64%nat) by (unfold t; rewrite length_app, !be_bytes_length; reflexivity).
  assert (Hl : len (4 :: t) = 65) by (unfold len; cbn [length]; rewrite Ht; reflexivity).
  rewrite Hl; cbn [Z.ltb Z.compare Pos.compare Pos.compare_cont rbind].
  change (drop 1 (4 :: t)) with t.
  rewrite (copyInto_exact_length 64) by exact Ht.
  unfold importPublicKey.
  assert (Ht' : len t = 64) by (unfold len; rewrite Ht; reflexivity).
  rewrite Ht'; cbn [Z.eqb Pos.eqb].
  change (UnmarshalPubkey (4 :: t))
    with (match unmarshal P256 (4 :: t) with
          | None => Err errInvalidPubkey
          | Some (x, y) => Ok {| Curve := P256; X := Some x; Y := Some y |}
          end).
  unfold unmarshal; rewrite Hl; cbn [Z.eqb Pos.eqb nth andb].
  change (drop 1 (4 :: t)) with t.
  change (drop 33 (4 :: t)) with (skipn 32 t).
  unfold take, t; change (Z.to_nat 32) with 32%nat.
  rewrite firstn_app_exact, skipn_app_exact by apply be_bytes_length.
  rewrite !be_value_be_bytes
    by (split; [lia | apply Z.lt_trans with Q; [lia | reflexivity]]).
  rewrite <- Hy, Z.eqb_refl; reflexivity.
Qed.

Lemma law_static_pub_ref : forall k t, generated k ->
  slice_from 1 (FromECDSAPub (Some (PubOf k))) = Ok t ->
  importPublicKey (copyInto pubLen t) = Ok (PubOf k).
Proof.
  intros k t Hg H.
  destruct (generated_shape k Hg) as (d & x & -> & Hx & Hxr).
  cbn [PubOf] in *.
  change (FromECDSAPub (Some {| Curve := P256; X := Some x; Y := Some ((x * x) mod Q) |}))
    with (marshal P256 x ((x * x) mod Q)) in H.
  pose proof (marshal_roundtrip P256 x ((x * x) mod Q) Hxr eq_refl) as R.
  rewrite H in R; exact R.
Qed.

Lemma law_random_pub_ref : forall k t, generated k ->
  exportPubkey (Some (PubOf k)) = Ok t ->
  importPublicKey (copyInto pubLen t) = Ok (PubOf k).
Proof.
  intros k t Hg H.
  destruct (generated_shape k Hg) as (d & x & -> & Hx & Hxr).
  cbn [PubOf] in *.
  change (exportPubkey (Some {| Curve := P256; X := Some x; Y := Some ((x * x) mod Q) |}))
    with (slice_from 1 (marshal P256 x ((x * x) mod Q))) in H.
  pose proof (marshal_roundtrip P256 x ((x * x) mod Q) Hxr eq_refl) as R.
  rewrite H in R; exact R.
Qed.


Lemma law_rlp_auth_ref : forall m b,
  len (Signature m) = sigLen -> len (InitiatorPubkey m) = pubLen ->
  len (auth_Nonce m) = shaLen -> auth_Version m = TaiRLPXVersion ->
  rlp_EncodeAuthMsg m = Ok b -> rlp_DecodeAuthMsg b = Ok (setCertSize m 0).
Proof.
  intros [sig pub nonce v cs] b H1 H2 H3 H4 H; cbn [Signature InitiatorPubkey auth_Nonce
    auth_Version] in *; subst v.
  assert (L1 := length_of_len sig 98 H1).
  assert (L2 := length_of_len pub 64 H2).
  assert (L3 := length_of_len nonce 32 H3).
  assert (E1 : encodeString sig = 184 :: 98 :: sig)
    by (unfold encodeString; rewrite H1; reflexivity).
  assert (E2 : encodeString pub = 184 :: 64 :: pub)
    by (unfold encodeString; rewrite H2; reflexivity).
  assert (E3 : encodeString nonce = 160 :: nonce)
    by (unfold encodeString; rewrite H3; reflexivity).
  set (payload := (184 :: 98 :: sig) ++ (184 :: 64 :: pub) ++ (160 :: nonce) ++ [15]).
  assert (Lp : length payload = 200%nat).
  { unfold payload; rewrite !length_app; cbn [length]; rewrite L1, L2, L3; reflexivity. }
  assert (Henc : rlp_EncodeAuthMsg (mkAuth sig pub nonce TaiRLPXVersion cs)
                 = Ok (248 :: 200 :: payload)).
  { change (rlp_EncodeAuthMsg (mkAuth sig pub nonce TaiRLPXVersion cs))
      with (Ok (encodeList (encodeString sig ++ encodeString pub ++ encodeString nonce
                            ++ [15]))).
    rewrite E1, E2, E3; fold payload; unfold encodeList.
    replace (len payload) with 200 by (unfold len; rewrite Lp; reflexivity).
    reflexivity. }
  rewrite Henc in H; apply Ok_inj in H; subst b.
  change (rlp_DecodeAuthMsg (248 :: 200 :: payload)) with (decodeAuthMsg (248 :: 200 :: payload)).
  unfold decodeAuthMsg.
  replace (len (248 :: 200 :: payload)) with 202
    by (unfold len; cbn [length]; rewrite Lp; reflexivity).
  change (take 2 (248 :: 200 :: payload)) with [248; 200].
  change (drop 2 (248 :: 200 :: payload)) with payload.
  change (drop 102 (248 :: 200 :: payload)) with (skipn 100 payload).
  change (drop 168 (248 :: 200 :: payload)) with (skipn 166 payload).
  change (drop 201 (248 :: 200 :: payload)) with (skipn 199 payload).
  change (drop 4 (248 :: 200 :: payload)) with (skipn 2 payload).
  change (drop 104 (248 :: 200 :: payload)) with (skipn 102 payload).
  change (drop 169 (248 :: 200 :: payload)) with (skipn 167 payload).
  assert (P2 : skipn 2 payload = sig ++ (184 :: 64 :: pub) ++ (160 :: nonce) ++ [15])
    by reflexivity.
  assert (P100 : skipn 100 payload = (184 :: 64 :: pub) ++ (160 :: nonce) ++ [15]).
  { change 100%nat with (98 + 2)%nat; rewrite <- skipn_skipn, P2.
    apply skipn_app_exact; exact L1. }
  assert (P102 : skipn 102 payload = pub ++ (160 :: nonce) ++ [15]).
  { change 102%nat with (2 + 100)%nat; rewrite <- skipn_skipn, P100; reflexivity. }
  assert (P166 : skipn 166 payload = (160 :: nonce) ++ [15]).
  { change 166%nat with (64 + 102)%nat; rewrite <- skipn_skipn, P102.
    apply skipn_app_exact; exact L2. }
  assert (P167 : skipn 167 payload = nonce ++ [15]).
  { change 167%nat with (1 + 166)%nat; rewrite <- skipn_skipn, P166; reflexivity. }
  assert (P199 : skipn 199 payload = [15]).
  { change 199%nat with (32 + 167)%nat; rewrite <- skipn_skipn, P167.
    apply skipn_app_exact; exact L3. }
  rewrite P2, P100, P102, P166, P167, P199.
  unfold take.
  change (Z.to_nat sigLen) with 98%nat; change (Z.to_nat pubLen) with 64%nat;
    change (Z.to_nat shaLen) with 32%nat.
  rewrite (firstn_app_exact sig _ 98 L1), (firstn_app_exact pub _ 64 L2),
    (firstn_app_exact nonce _ 32 L3).
  reflexivity.
Qed.

Lemma law_rlp_resp_ref : forall m b,
  len (RandomPubkey m) = pubLen -> len (resp_Nonce m) = shaLen ->
  resp_Version m = TaiRLPXVersion ->
  rlp_EncodeAuthResp m = Ok b -> rlp_DecodeAuthResp b = Ok (setCertSize m 0).
Proof.
  intros [pub nonce v cs] b H2 H3 H4 H; cbn [RandomPubkey resp_Nonce resp_Version] in *;
    subst v.
  assert (L2 := length_of_len pub 64 H2).
  assert (L3 := length_of_len nonce 32 H3).
  assert (E2 : encodeString pub = 184 :: 64 :: pub)
    by (unfold encodeString; rewrite H2; reflexivity).
  assert (E3 : encodeString nonce = 160 :: nonce)
    by (unfold encodeString; rewrite H3; reflexivity).
  set (payload := (184 :: 64 :: pub) ++ (160 :: nonce) ++ [15]).
  assert (Lp : length payload = 100%nat).
  { unfold payload; rewrite !length_app; cbn [length]; rewrite L2, L3; reflexivity. }
  assert (Henc : rlp_EncodeAuthResp (mkResp pub nonce TaiRLPXVersion cs)
                 = Ok (248 :: 100 :: payload)).
  { change (rlp_EncodeAuthResp (mkResp pub nonce TaiRLPXVersion cs))
      with (Ok (encodeList (encodeString pub ++ encodeString nonce ++ [15]))).
    rewrite E2, E3; fold payload; unfold encodeList.
    replace (len payload) with 100 by (unfold len; rewrite Lp; reflexivity).
    reflexivity. }
  rewrite Henc in H; apply Ok_inj in H; subst b.
  change (rlp_DecodeAuthResp (248 :: 100 :: payload))
    with (decodeAuthResp (248 :: 100 :: payload)).
  unfold decodeAuthResp.
  replace (len (248 :: 100 :: payload)) with 102
    by (unfold len; cbn [length]; rewrite Lp; reflexivity).
  change (take 2 (248 :: 100 :: payload)) with [248; 100].
  change (drop 2 (248 :: 100 :: payload)) with payload.
  change (drop 68 (248 :: 100 :: payload)) with (skipn 66 payload).
  change (drop 101 (248 :: 100 :: payload)) with (skipn 99 payload).
  change (drop 4 (248 :: 100 :: payload)) with (skipn 2 payload).
  change (drop 69 (248 :: 100 :: payload)) with (skipn 67 payload).
  assert (P2 : skipn 2 payload = pub ++ (160 :: nonce) ++ [15]) by reflexivity.
  assert (P66 : skipn 66 payload = (160 :: nonce) ++ [15]).
  { change 66%nat with (64 + 2)%nat; rewrite <- skipn_skipn, P2.
    apply skipn_app_exact; exact L2. }
  assert (P67 : skipn 67 payload = nonce ++ [15]).
  { change 67%nat with (1 + 66)%nat; rewrite <- skipn_skipn, P66; reflexivity. }
  assert (P99 : skipn 99 payload = [15]).
  { change 99%nat with (32 + 67)%nat; rewrite <- skipn_skipn, P67.
    apply skipn_app_exact; exact L3. }
  rewrite P2, P66, P67, P99.
  unfold take.
  change (Z.to_nat pubLen) with 64%nat; change (Z.to_nat shaLen) with 32%nat.
  rewrite (firstn_app_exact pub _ 64 L2), (firstn_app_exact nonce _ 32 L3).
  reflexivity.
Qed.

(** The reference suite is sound. *)
Lemma ref_laws : SuiteLaws.
Proof.
  constructor.
  - exact law_agreement_ref.
  - exact law_open_ref.
  - exact law_recover_ref.
  - exact law_static_pub_ref.
  - exact law_random_pub_ref.
  - exact law_rlp_auth_ref.
  - exact law_rlp_resp_ref.
Qed.

End RefLaws.

(* ================================================================== *)
(** ** The hash without collisions satisfies its law *)

Module IdealLaws.






End IdealLaws.

(* ================================================================== *)
(** ** The claims on the concrete runs *)

Section OnTheReferenceRuns.

Import Ref Scenario.

(** C1, on the run with certificates: A's packet and certificate are what B
    reads, B's packet and certificate are what A reads, and the secrets of
    the two runs agree. *)
Lemma handshake_secrets_agree_witness :
  AES (secretsOf runAc) = AES (secretsOf runBc) /\
  MAC (secretsOf runAc) = MAC (secretsOf runBc) /\
  EgressMAC (secretsOf runAc) = IngressMAC (secretsOf runBc) /\
  IngressMAC (secretsOf runAc) = EgressMAC (secretsOf runBc).
Proof.
  apply (handshake_secrets_agree (Some cmA) (Some cmB) entA entB keyA keyB
           (pipe (respPacketBc ++ certOf keyB)) (pipe (authPacketAc ++ certOf keyA))
           (fst runAc) (fst runBc) (secretsOf runAc) (secretsOf runBc)).
  - exact RefLaws.ref_laws.
  - exists [1; 2; 3]; reflexivity.
  - exists [9; 9; 9; 1]; reflexivity.
  - vm_compute; reflexivity.
  - vm_compute; reflexivity.
  - reflexivity.
  - reflexivity.
  - vm_compute; reflexivity.
  - vm_compute; reflexivity.
Defined.

(** C2, on [msg17] and the writer without compression: the 32 bytes that
    open the frame are the encrypted header and the tag over it. *)
Lemma header_mac_covers_encrypted_header_witness :
  let rw := writer false in
  let fsize := frameSize (rlp_EncodeUint (Code msg17)) msg17 in
  let hdr := snd (XORKeyStream (enc rw) (plainHeader fsize)) in
  let whitened :=
    copyInto 16 (aes_encryptBlock (macCipher rw) (take 16 (hash_Sum (egressMAC rw)))) in
  snd (WriteMsg msg17 rw) = Ok tt /\
  take 32 (drop (len (wr (conn rw))) (wr (conn (fst (WriteMsg msg17 rw)))))
  = hdr ++ take 16 (hash_Sum (hash_Write (egressMAC rw) (xorPrefix whitened hdr))).
Proof.
  assert (Hfit : frameSize (rlp_EncodeUint (Code msg17)) msg17 <= maxUint24)
    by (vm_compute; discriminate).
  exact (header_mac_covers_encrypted_header (writer false) msg17 msg17 eq_refl Hfit eq_refl).
Defined.

(** C2 as the specification words it fails on [msg17]: the tag on the wire
    is not the tag over the header before encryption. *)
Lemma header_mac_is_not_over_plaintext :
  snd (WriteMsg msg17 (writer false)) = Ok tt /\
  take 16 (drop 16 (wr (conn (fst (WriteMsg msg17 (writer false))))))
  <> headerMAC_over_plaintext (writer false) 18.
Proof. split; [reflexivity | vm_compute; discriminate]. Qed.



(** C4, on the state of A that holds both ephemeral keys and both nonces. *)
Lemma secrets_key_chain_witness :
  let H := fun x => Keccak256 [x] in
  let ecdheSecret := bytesOf (GenerateShared ephA (PubOf ephB) sskLen sskLen) in
  let sharedSecret := H (ecdheSecret ++ H (respNonce stateA ++ initNonce stateA)) in
  let aesKey := H (ecdheSecret ++ sharedSecret) in
  let macKey := H (ecdheSecret ++ aesKey) in
  exists s, encHandshake_secrets stateA authPacketA respPacketB = Ok s
            /\ AES s = aesKey /\ MAC s = macKey /\ Remote s = remote stateA.
Proof.
  assert (Hs : GenerateShared ephA (PubOf ephB) sskLen sskLen
               = Ok (bytesOf (GenerateShared ephA (PubOf ephB) sskLen sskLen)))
    by (vm_compute; reflexivity).
  exact (secrets_key_chain stateA authPacketA respPacketB ephA (PubOf ephB)
           (bytesOf (GenerateShared ephA (PubOf ephB) sskLen sskLen))
           eq_refl eq_refl Hs eq_refl eq_refl).
Defined.


(** C6, on a response and on an auth message that carry version 16: neither
    run returns secrets, and both end in the version error. *)
Lemma version_mismatch_no_secrets_witness :
  ((forall c' s,
      initiatorEncHandshake None entA keyA (PubOf keyB) (pipe respPacketV16) <> (c', Ok s)) /\
   (exists e,
      snd (initiatorEncHandshake None entA keyA (PubOf keyB) (pipe respPacketV16)) = Err e
      /\ taxonomy e = VersionMismatch))
  /\
  ((forall c' s, receiverEncHandshake None entB keyB (pipe authPacketV16) <> (c', Ok s)) /\
   (exists e,
      snd (receiverEncHandshake None entB keyB (pipe authPacketV16)) = Err e
      /\ taxonomy e = VersionMismatch)).
Proof.
  destruct version_mismatch_no_secrets as [HI HR].
  split.
  - assert (Hopen : openHandshakeMsg keyA (take encAuthRespLen (rd (pipe respPacketV16)))
                    = Ok respMsgV16) by (vm_compute; reflexivity).
    assert (Hv : resp_Version respMsgV16 <> TaiRLPXVersion) by (vm_compute; discriminate).
    destruct (HI None entA keyA (PubOf keyB) (pipe respPacketV16) respMsgV16 Hopen Hv)
      as [Hnone Hrun].
    split; [exact Hnone|].
    destruct (Hrun (fst madeAuthA) (snd madeAuthA) authPacketA) as [_ He];
      [vm_compute; reflexivity | vm_compute; reflexivity | reflexivity
       | vm_compute; discriminate | exact He].
  - assert (Hopen : openHandshakeMsg keyB (take encAuthMsgLen (rd (pipe authPacketV16)))
                    = Ok authMsgV16) by (vm_compute; reflexivity).
    assert (Hv : auth_Version authMsgV16 <> TaiRLPXVersion) by (vm_compute; discriminate).
    destruct (HR None entB keyB (pipe authPacketV16) authMsgV16 Hopen Hv) as [Hnone Hrun].
    split; [exact Hnone|].
    destruct (Hrun handledV16 false (fst madeRespV16) (snd madeRespV16)
                   (valueOf [] (authRespV4_sealPlain (snd madeRespV16) (fst madeRespV16) entB)))
      as [_ He];
      [reflexivity | vm_compute; discriminate | vm_compute; reflexivity | reflexivity
       | vm_compute; reflexivity | vm_compute; reflexivity | exact He].
Defined.

(** C7, on the runs with certificates where the peer presents the trusted
    certificate of C: both sides end in the certificate-identity error. *)
Lemma certificate_key_mismatch_aborts_witness :
  (exists e,
     snd (initiatorEncHandshake (Some cmA) entA keyA (PubOf keyB)
            (pipe (respPacketBc ++ certOf keyC))) = Err e
     /\ e = errCertNotMatch /\ taxonomy e = CertificateIdentityMismatch)
  /\
  (exists e,
     snd (receiverEncHandshake (Some cmB) entB keyB (pipe (authPacketAc ++ certOf keyC)))
     = Err e
     /\ e = errCertNotMatch /\ taxonomy e = CertificateIdentityMismatch).
Proof.
  destruct certificate_key_mismatch_aborts as [HI HR].
  split.
  - apply (HI cmA entA keyA (PubOf keyB) (pipe (respPacketBc ++ certOf keyC))
              (fst madeAuthAc) (snd madeAuthAc) authPacketAc respMsgBc handledRespAc
              (Some (PubOf keyC))).
    + vm_compute; discriminate.
    + vm_compute; reflexivity.
    + vm_compute; reflexivity.
    + reflexivity.
    + vm_compute; discriminate.
    + vm_compute; reflexivity.
    + vm_compute; reflexivity.
    + vm_compute; reflexivity.
    + vm_compute; discriminate.
    + vm_compute; reflexivity.
    + vm_compute; reflexivity.
    + vm_compute; discriminate.
  - apply (HR cmB entB keyB (pipe (authPacketAc ++ certOf keyC)) authMsgAc handledAc
              (fst madeRespBc) (snd madeRespBc)
              (valueOf [] (authRespV4_sealPlain (snd madeRespBc) (fst madeRespBc) entB))
              (Some (PubOf keyC))).
    + vm_compute; discriminate.
    + reflexivity.
    + vm_compute; discriminate.
    + vm_compute; reflexivity.
    + vm_compute; reflexivity.
    + vm_compute; reflexivity.
    + vm_compute; discriminate.
    + vm_compute; reflexivity.
    + vm_compute; reflexivity.
    + vm_compute; reflexivity.
    + vm_compute; reflexivity.
    + vm_compute; reflexivity.
    + vm_compute; discriminate.
Defined.

(** C8, at the failing input: code 0, declared size [2^32 - 1] with as many
    bytes of payload, no compression. *)
Lemma WriteMsg_size_check_wraps_witness :
  2 ^ 24 <= len (rlp_EncodeUint (Code (msgOfSize (2 ^ 32 - 1)))) + Size (msgOfSize (2 ^ 32 - 1)) /\
  WriteMsg (msgOfSize (2 ^ 32 - 1)) (writer false)
  = (written (writer false)
       (sealFrame (writer false) (rlp_EncodeUint 0) (make (2 ^ 32 - 1)) 0), Ok tt).
Proof.
  exact (WriteMsg_size_check_wraps (writer false) (make (2 ^ 32 - 1)) eq_refl eq_refl eq_refl).
Defined.

(** C9, on packets that do not decrypt and on packets that decrypt to bytes
    that are not RLP: the former end the run in the decryption error, the
    latter in a panic. *)
Lemma handshake_decode_failure_panics_witness :
  ((exists e', snd (receiverEncHandshake None entB keyB (pipe noiseAuth)) = Err e'
               /\ taxonomy e' = DecryptionFailure) /\
   snd (receiverEncHandshake None entB keyB (pipe junkAuth))
   = Panic "authRespV4 decode error")
  /\
  ((exists e', snd (initiatorEncHandshake None entA keyA (PubOf keyB) (pipe noiseResp)) = Err e'
               /\ taxonomy e' = DecryptionFailure) /\
   snd (initiatorEncHandshake None entA keyA (PubOf keyB) (pipe junkResp))
   = Panic "authRespV4 decode error").
Proof.
  destruct handshake_decode_failure_panics as [HR HI].
  split; split.
  - refine (proj1 (HR None entB keyB (pipe noiseAuth) eq_refl _)
                  (errExternal "ecies: invalid message") _);
      [vm_compute; discriminate | vm_compute; reflexivity].
  - refine (proj2 (HR None entB keyB (pipe junkAuth) eq_refl _)
                  (make 204) (errExternal "rlp: malformed authMsgV4") _ _ _);
      [vm_compute; discriminate | vm_compute; reflexivity | vm_compute; discriminate
       | vm_compute; reflexivity].
  - edestruct (HI None entA keyA (PubOf keyB) (pipe noiseResp)) as [HE _];
      [reflexivity | reflexivity | reflexivity | vm_compute; discriminate|].
    apply (HE (errExternal "ecies: invalid message")); vm_compute; reflexivity.
  - edestruct (HI None entA keyA (PubOf keyB) (pipe junkResp)) as [_ HP];
      [reflexivity | reflexivity | reflexivity | vm_compute; discriminate|].
    apply (HP (make 104) (errExternal "rlp: malformed authRespV4"));
      [vm_compute; reflexivity | vm_compute; discriminate | vm_compute; reflexivity].
Defined.

(** C10, in the S256 mode: [xor] on a three-byte string, the digest A signs
    for B, and the digest of the [makeAuthMsg] of A. *)
Lemma xor_and_signed_digest_length_witness :
  let token := bytesOf (GenerateShared (cfg := s256cfg) keyA (PubOf keyB) sskLen sskLen) in
  (exists r, xor [1; 2; 3] [4; 5; 6; 7] = Ok r /\ length r = length [1; 2; 3] /\
     forall i, (i < length [1; 2; 3])%nat ->
       nth i r 0 = Z.lxor (nth i [1; 2; 3] 0) (nth i [4; 5; 6; 7] 0))
  /\
  (exists d, signedDigest (cfg := s256cfg) stateA keyA = Ok d /\ length d = length token /\
     d = xorPrefix token (firstn (length token) (initNonce stateA)))
  /\
  (exists d, signedDigest (cfg := s256cfg) (fst madeAuthS256) keyA = Ok d /\ len d = 32).
Proof.
  intro token.
  destruct (xor_and_signed_digest_length (cfg := s256cfg)) as (Hxor & Hdigest & Hsign).
  split; [|split].
  - apply (Hxor [1; 2; 3] [4; 5; 6; 7]); vm_compute; lia.
  - apply (Hdigest stateA keyA (PubOf keyB) token).
    + reflexivity.
    + vm_compute; reflexivity.
    + vm_compute; lia.
  - apply (Hsign eq_refl (mkHS 0 true (Some (PubOf keyB)) [] [] None None) keyA entA
             (fst madeAuthS256) (snd madeAuthS256)).
    vm_compute; reflexivity.
Defined.

(** C10 as the specification words it fails: [xor] panics when [other] is
    the shorter string; and in the S256 mode, where [makeAuthMsg] goes
    through, the digest it signs is 32 bytes long, not [sskLen], and changes
    with byte 20 of the nonce. *)
Lemma signed_digest_covers_the_whole_nonce :
  xor [1; 2] [3] = Panic "index out of range" /\
  makeAuthMsg (cfg := s256cfg) (mkHS 0 true (Some (PubOf keyB)) [] [] None None) keyA entA
  = Ok madeAuthS256 /\
  exists d d',
    signedDigest (cfg := s256cfg) (fst madeAuthS256) keyA = Ok d /\
    signedDigest (cfg := s256cfg) stateA keyA = Ok d /\
    signedDigest (cfg := s256cfg) stateA20 keyA = Ok d' /\
    len d = 32 /\ len d <> sskLen /\
    len (initNonce stateA) = 32 /\
    take 16 (initNonce stateA20) = take 16 (initNonce stateA) /\
    d' <> d.
Proof.
  split; [reflexivity|].
  split; [vm_compute; reflexivity|].
  exists (bytesOf (signedDigest (cfg := s256cfg) stateA keyA)),
         (bytesOf (signedDigest (cfg := s256cfg) stateA20 keyA)).
  repeat split; try (vm_compute; reflexivity); vm_compute; discriminate.
Qed.

End OnTheReferenceRuns.

(* ================================================================== *)
(** ** More about the frame codec *)

Section FrameCodecMore.

Context {prims : SymmetricPrimitives} {encs : FrameEncoders}.

Lemma shiftr_low24 : forall v k,
  0 <= k <= 16 ->
  to_byte (Z.shiftr (v mod 2 ^ 24) k) = to_byte (Z.shiftr v k).
Proof.
  intros v k Hk; unfold to_byte.
  rewrite !Z.shiftr_div_pow2 by lia.
  rewrite (Z.div_mod v (2 ^ 24)) at 2 by (apply Z.pow_nonzero; lia).
  replace (2 ^ 24) with (2 ^ k * (2 ^ (16 - k) * 256)) at 2
    by (rewrite Z.mul_assoc, <- Z.pow_add_r by lia;
        change 256 with (2 ^ 8); rewrite <- Z.pow_add_r by lia; f_equal; lia).
  rewrite <- Z.mul_assoc, Z.add_comm, Z.mul_comm.
  rewrite <- Z.mul_assoc.
  rewrite (Z.mul_comm (v / 2 ^ 24)), Z.mul_assoc, (Z.mul_comm _ (2 ^ k)), <- Z.mul_assoc.
  rewrite (Z.mul_comm (2 ^ k)), Z.div_add by (apply Z.pow_nonzero; lia).
  rewrite (Z.mul_comm (2 ^ (16 - k))), <- Z.mul_assoc, (Z.mul_comm 256).
  rewrite Z.mod_add by lia.
  reflexivity.
Qed.

(** [putInt24] keeps the 24 low-order bits of its argument and drops the
    rest: read back, a value comes out reduced modulo [2^24]. *)
Theorem putInt24_keeps_low_24_bits : forall v rest,
  readInt24 (putInt24 v ++ rest) = v mod 2 ^ 24.
Proof.
  intros v rest.
  assert (H : putInt24 v = putInt24 (v mod 2 ^ 24)).
  { unfold putInt24.
    rewrite (shiftr_low24 v 16), (shiftr_low24 v 8) by lia.
    f_equal; f_equal; f_equal.
    generalize (shiftr_low24 v 0 ltac:(lia)); rewrite !Z.shiftr_0_r; auto. }
  rewrite H; apply readInt24_putInt24.
  apply Z.mod_pos_bound; reflexivity.
Qed.

Lemma reseed_len : forall mac block seed,
  16 <= len seed -> len (reseed mac block seed) = len mac + 16.
Proof.
  intros mac block seed H; unfold reseed, hash_Write.
  rewrite len_app; f_equal.
  pose proof (copyInto_length 16 (aes_encryptBlock block (take 16 (hash_Sum mac)))
                ltac:(lia)) as Hc.
  unfold len in *; rewrite xorPrefix_length; lia.
Qed.

(** [updateMAC] reads the first 16 bytes of its seed only: it returns a
    16-byte tag and makes the hash absorb 16 bytes, the same ones for any two
    seeds that agree on their first 16 bytes; a seed shorter than 16 bytes
    makes it panic. *)
Theorem updateMAC_reads_16_seed_bytes :
  (forall mac block seed,
     16 <= len seed ->
     exists mac' tag,
       updateMAC mac block seed = Ok (mac', tag) /\
       len tag = 16 /\ len mac' = len mac + 16 /\
       updateMAC mac block (take 16 seed) = Ok (mac', tag))
  /\
  (forall mac block seed,
     len seed < 16 -> updateMAC mac block seed = Panic "index out of range").
Proof.
  split.
  - intros mac block seed H.
    exists (reseed mac block seed), (tagOf (reseed mac block seed)).
    split; [apply updateMAC_Ok; exact H|].
    split; [apply tagOf_len|].
    split; [apply reseed_len; exact H|].
    rewrite updateMAC_Ok by (rewrite len_take; lia).
    rewrite reseed_take16; reflexivity.
  - intros mac block seed H.
    unfold updateMAC, block_Encrypt.
    rewrite hash_Sum_len; cbn [Z.ltb Z.compare rbind].
    change (32 <? 16) with false; cbn [rbind].
    rewrite xor_Panic; [reflexivity|].
    pose proof (copyInto_length 16 (aes_encryptBlock block (take 16 (hash_Sum mac)))
                  ltac:(lia)) as Hc.
    unfold len in *; lia.
Qed.

(** A frame takes [48 + 16 * ceil(n / 16)] bytes on the wire, [n] being the
    length of the encoded code and of the payload as it travels: header,
    header MAC, padded content, frame MAC. *)
Theorem frame_wire_length : forall rw msg msg',
  compressMsg (snappy rw) msg = Ok msg' ->
  Size msg' = len (Payload msg') ->
  len (rlp_EncodeUint (Code msg)) + len (Payload msg') <= maxUint24 ->
  closed (conn rw) = false ->
  let n := len (rlp_EncodeUint (Code msg)) + len (Payload msg') in
  exists frame,
    snd (WriteMsg msg rw) = Ok tt /\
    wr (conn (fst (WriteMsg msg rw))) = wr (conn rw) ++ frame /\
    len frame = 48 + 16 * ((n + 15) / 16).
Proof.
  intros rw msg msg' Hc Hsz Hfit Hopen n.
  set (ptype := rlp_EncodeUint (Code msg)) in *.
  pose proof (len_nonneg _ ptype) as Hp0.
  pose proof (len_nonneg _ (Payload msg')) as Hq0.
  assert (Hmax := maxUint24_value); change (2 ^ 24) with 16777216 in Hmax.
  assert (Hfs : frameSize ptype msg' = n).
  { unfold frameSize, uint32; change (2 ^ 32) with 4294967296.
    rewrite Hsz, (Z.mod_small (len ptype)), Z.mod_small; subst n; lia. }
  rewrite (WriteMsg_sealFrame rw msg msg' Hc) by (fold ptype; rewrite ?Hfs; subst n; lia || assumption).
  fold ptype; rewrite Hfs.
  exists (wire (sealFrame rw ptype (Payload msg') n)).
  split; [reflexivity|].
  split; [reflexivity|].
  unfold wire; rewrite !len_app.
  rewrite sealFrame_header_len, sealFrame_body_len, padding_len.
  assert (Htag : forall h, len (tagOf h) = 16) by apply tagOf_len.
  unfold sealFrame, XORKeyStream; cbn [s_headerMAC s_frameMAC].
  rewrite !Htag.
  fold n.
  destruct (n mod 16 >? 0) eqn:E;
    [apply Z.gtb_lt in E | rewrite Z.gtb_ltb in E; apply Z.ltb_ge in E].
  all: clearbody n; clear - E; Z.div_mod_to_equations; lia.
Qed.

(** On a closed connection [WriteMsg] fails with the connection's error and
    writes nothing, but not before it has encrypted the header and reseeded
    the egress MAC: the stream has moved on by 16 bytes and the MAC has
    absorbed the header. *)
Theorem WriteMsg_closed_connection : forall rw msg msg',
  compressMsg (snappy rw) msg = Ok msg' ->
  frameSize (rlp_EncodeUint (Code msg)) msg' <= maxUint24 ->
  closed (conn rw) = true ->
  let fsize := frameSize (rlp_EncodeUint (Code msg)) msg' in
  let hdr := snd (XORKeyStream (enc rw) (plainHeader fsize)) in
  WriteMsg msg rw
  = (mkRW (conn rw)
          (mkCtr (ctr_block (enc rw)) (ctr_iv (enc rw)) (ctr_pos (enc rw) + 16))
          (dec rw) (macCipher rw)
          (reseed (egressMAC rw) (macCipher rw) hdr)
          (ingressMAC rw) (snappy rw),
     Err io_ErrClosedPipe).
Proof.
  intros rw msg msg' Hc Hsize Hcl fsize hdr.
  subst hdr.
  unfold WriteMsg.
  set (ptype := rlp_EncodeUint (Code msg)) in *.
  unfold mbind at 1, lift at 1; rewrite Hc.
  fold fsize.
  destruct (fsize >? maxUint24) eqn:E; [apply Z.gtb_lt in E; lia|].
  destruct rw as [[rdc wrc cl] e d mc eg ing sn]; cbn in Hcl; subst cl.
  unfold mbind, rw_encXOR, rw_egressUpdateMAC, rw_connWrite, conn_Write, XORKeyStream.
  cbn [conn enc dec macCipher egressMAC ingressMAC snappy set_conn set_enc
       set_egressMAC closed rd wr ctr_pos ctr_block ctr_iv fst snd].
  change (putInt24 fsize ++ zeroHeader ++ make 10) with (plainHeader fsize).
  rewrite updateMAC_Ok by (rewrite xorKeyStreamFrom_len, plainHeader_len; lia).
  cbn [conn enc dec macCipher egressMAC ingressMAC snappy set_conn set_enc
       set_egressMAC closed rd wr ctr_pos ctr_block ctr_iv fst snd].
  reflexivity.
Qed.

(** With fewer than 32 bytes to read, [ReadMsg] fails with [io.EOF] when
    there is nothing at all and with [io.ErrUnexpectedEOF] otherwise; the
    bytes are consumed, the cipher stream and the ingress MAC are as they
    were. *)
Theorem ReadMsg_short_header : forall r,
  closed (conn r) = false ->
  len (rd (conn r)) < 32 ->
  ReadMsg r
  = (set_conn r {| rd := []; wr := wr (conn r); closed := false |},
     Err (if len (rd (conn r)) =? 0 then io_EOF else io_ErrUnexpectedEOF)).
Proof.
  intros r Hopen Hshort.
  destruct r as [[rdc wrc cl] e d mc eg ing sn]; cbn in Hopen, Hshort |- *; subst cl.
  unfold ReadMsg, mbind at 1, rw_ReadFull at 1, io_ReadFull.
  cbn [conn closed rd wr set_conn].
  change (32 <=? 0) with false; cbv iota.
  destruct (len rdc <? 32) eqn:E; [reflexivity | apply Z.ltb_ge in E; lia].
Qed.

(** One message without compression over a matched pair: the frame
    [WriteMsg] builds, what [ReadMsg] makes of it, and the pair after it. *)
Lemma deliver_plain : forall w r msg rest,
  matched w r ->
  closed (conn w) = false -> closed (conn r) = false ->
  snappy w = false ->
  Size msg = len (Payload msg) ->
  (forall p, rlp_DecodeUint (rlp_EncodeUint (Code msg) ++ p) = Ok (Code msg, p)) ->
  len (rlp_EncodeUint (Code msg)) + len (Payload msg) <= maxUint24 ->
  let f := sealFrame w (rlp_EncodeUint (Code msg)) (Payload msg)
                     (len (rlp_EncodeUint (Code msg)) + len (Payload msg)) in
  WriteMsg msg w = (written w f, Ok tt) /\
  ReadMsg (receiving r (wire f ++ rest)) = (accepted r f rest, Ok msg) /\
  matched (written w f) (accepted r f rest).
Proof.
  intros w r msg rest Hm Hw Hr Hsn Hsize Hrlp Hfit f.
  set (ptype := rlp_EncodeUint (Code msg)) in *.
  pose proof (len_nonneg _ ptype) as Hp0.
  pose proof (len_nonneg _ (Payload msg)) as Hq0.
  assert (Hmax := maxUint24_value); change (2 ^ 24) with 16777216 in Hmax.
  assert (Hc : compressMsg (snappy w) msg = Ok msg)
    by (unfold compressMsg; rewrite Hsn; reflexivity).
  assert (Hfs : frameSize ptype msg = len ptype + len (Payload msg)).
  { unfold frameSize, uint32; change (2 ^ 32) with 4294967296.
    rewrite Hsize, (Z.mod_small (len ptype)), Z.mod_small; lia. }
  split; [|split].
  - rewrite (WriteMsg_sealFrame w msg msg Hc) by (fold ptype; rewrite ?Hfs; lia || assumption).
    fold ptype; rewrite Hfs; reflexivity.
  - subst f.
    rewrite (ReadMsg_sealed w r ptype (Payload msg) _ rest Hm Hr)
      by (change (2 ^ 24) with 16777216; lia).
    f_equal.
    unfold decodeContent, ptype.
    destruct Hm as (_ & _ & _ & Hsn'); rewrite <- Hsn', Hsn.
    rewrite Hrlp; cbn [rbind fst snd decompressMsg].
    destruct msg as [c sz p]; cbn [Code Size Payload] in *; subst sz.
    unfold uint32; rewrite Z.mod_small by (change (2 ^ 32) with 4294967296; lia).
    reflexivity.
  - destruct Hm as (Henc & Hmc & Hmac & Hsn').
    unfold matched, written, accepted; cbn [enc dec macCipher egressMAC ingressMAC snappy].
    auto.
Qed.

Lemma receiving_accepted : forall r f input,
  closed (conn r) = false ->
  receiving (accepted r f input) input = accepted r f input.
Proof.
  intros r f input H; unfold receiving, accepted, set_conn; cbn [conn wr closed].
  reflexivity.
Qed.

(** Two messages written one after the other over a matched pair are read
    back in that order, each as it was written: the cipher streams and the
    MACs of the two ends stay in step from one frame to the next. *)
Theorem frames_delivered_in_order : forall w r m1 m2 rest,
  matched w r ->
  closed (conn w) = false -> closed (conn r) = false ->
  snappy w = false ->
  Size m1 = len (Payload m1) -> Size m2 = len (Payload m2) ->
  (forall p, rlp_DecodeUint (rlp_EncodeUint (Code m1) ++ p) = Ok (Code m1, p)) ->
  (forall p, rlp_DecodeUint (rlp_EncodeUint (Code m2) ++ p) = Ok (Code m2, p)) ->
  len (rlp_EncodeUint (Code m1)) + len (Payload m1) <= maxUint24 ->
  len (rlp_EncodeUint (Code m2)) + len (Payload m2) <= maxUint24 ->
  exists w1 w2 sent r1 r2,
    WriteMsg m1 w = (w1, Ok tt) /\ WriteMsg m2 w1 = (w2, Ok tt) /\
    wr (conn w2) = wr (conn w) ++ sent /\
    ReadMsg (receiving r (sent ++ rest)) = (r1, Ok m1) /\
    ReadMsg r1 = (r2, Ok m2) /\
    rd (conn r2) = rest /\ matched w2 r2.
Proof.
  intros w r m1 m2 rest Hm Hw Hr Hsn Hs1 Hs2 Hrlp1 Hrlp2 Hfit1 Hfit2.
  set (f1 := sealFrame w (rlp_EncodeUint (Code m1)) (Payload m1)
                       (len (rlp_EncodeUint (Code m1)) + len (Payload m1))).
  set (w1 := written w f1).
  set (f2 := sealFrame w1 (rlp_EncodeUint (Code m2)) (Payload m2)
                       (len (rlp_EncodeUint (Code m2)) + len (Payload m2))).
  destruct (deliver_plain w r m1 (wire f2 ++ rest) Hm Hw Hr Hsn Hs1 Hrlp1 Hfit1)
    as (HW1 & HR1 & Hm1).
  fold f1 in HW1, HR1, Hm1; fold w1 in HW1, Hm1.
  set (r1 := accepted r f1 (wire f2 ++ rest)) in *.
  assert (Hw1 : closed (conn w1) = false) by exact Hw.
  assert (Hr1 : closed (conn r1) = false) by exact Hr.
  assert (Hsn1 : snappy w1 = false) by exact Hsn.
  destruct (deliver_plain w1 r1 m2 rest Hm1 Hw1 Hr1 Hsn1 Hs2 Hrlp2 Hfit2)
    as (HW2 & HR2 & Hm2).
  fold f2 in HW2, HR2, Hm2.
  exists w1, (written w1 f2), (wire f1 ++ wire f2), r1, (accepted r1 f2 rest).
  split; [exact HW1|].
  split; [exact HW2|].
  split; [cbn [written conn wr]; rewrite app_assoc; reflexivity|].
  split; [rewrite <- app_assoc; exact HR1|].
  split.
  { unfold r1 in HR2 |- *. rewrite receiving_accepted in HR2 by exact Hr. exact HR2. }
  split; [reflexivity | exact Hm2].
Qed.

(** With compression on, a frame whose MACs verify but whose payload
    announces more than [2^24 - 1] bytes once decompressed is refused with
    the message-too-large error. *)
Theorem ReadMsg_refuses_oversized_decompression : forall w r code payload size rest,
  matched w r ->
  closed (conn r) = false ->
  snappy r = true ->
  (forall p, rlp_DecodeUint (rlp_EncodeUint code ++ p) = Ok (code, p)) ->
  len (rlp_EncodeUint code) + len payload <= maxUint24 ->
  snappy_DecodedLen payload = Ok size ->
  maxUint24 < size ->
  let f := sealFrame w (rlp_EncodeUint code) payload (len (rlp_EncodeUint code) + len payload) in
  ReadMsg (receiving r (wire f ++ rest)) = (accepted r f rest, Err errPlainMessageTooLarge).
Proof.
  intros w r code payload size rest Hm Hr Hsn Hrlp Hfit Hlen Hbig f.
  pose proof (len_nonneg _ (rlp_EncodeUint code)) as Hp0.
  pose proof (len_nonneg _ payload) as Hq0.
  assert (Hmax := maxUint24_value); change (2 ^ 24) with 16777216 in Hmax.
  subst f.
  rewrite (ReadMsg_sealed w r (rlp_EncodeUint code) payload _ rest Hm Hr)
    by (change (2 ^ 24) with 16777216; lia).
  f_equal.
  unfold decodeContent; rewrite Hsn, Hrlp; cbn [rbind fst snd decompressMsg Payload].
  rewrite Hlen; cbn [rbind].
  destruct (size >? maxUint24) eqn:E; [reflexivity|].
  rewrite Z.gtb_ltb in E; apply Z.ltb_ge in E; lia.
Qed.

End FrameCodecMore.

(* ================================================================== *)
(** ** More about the handshake *)

Section HandshakeMore.

Context {prims : SymmetricPrimitives} {ec : CurveSuites} {cfg : CryptoConfig}
        {hsenc : HandshakeEncoders} {ca : CertAuthority}.

(** [importPublicKey] takes 64 or 65 bytes and nothing else; 64 bytes are
    read as the 65 bytes that start with the format byte [0x04]; a key it
    returns is on the curve of the mode and has both coordinates. *)
Theorem importPublicKey_lengths :
  (forall k, len k <> 64 -> len k <> 65 ->
     importPublicKey k = Err (errInvalidPubkeyLength (len k)))
  /\
  (forall k, len k = 64 -> importPublicKey k = importPublicKey (0x04 :: k))
  /\
  (forall k p, importPublicKey k = Ok p ->
     (len k = 64 \/ len k = 65) /\
     Curve p = curveOf CryptoType /\ X p <> None /\ Y p <> None).
Proof.
  split; [|split].
  - intros k H64 H65; unfold importPublicKey.
    destruct (len k =? 64) eqn:E1; [apply Z.eqb_eq in E1; contradiction|].
    destruct (len k =? 65) eqn:E2; [apply Z.eqb_eq in E2; contradiction|].
    reflexivity.
  - intros k H; unfold importPublicKey.
    rewrite len_cons, H; reflexivity.
  - intros k p H; unfold importPublicKey, UnmarshalPubkey in H.
    destruct (len k =? 64) eqn:E1.
    + apply Z.eqb_eq in E1.
      destruct (elliptic_Unmarshal _ _) as [[x y]|]; [|discriminate].
      injection H as <-; cbn; repeat split; auto; discriminate.
    + destruct (len k =? 65) eqn:E2; [|discriminate].
      apply Z.eqb_eq in E2.
      destruct (elliptic_Unmarshal _ _) as [[x y]|]; [|discriminate].
      injection H as <-; cbn; repeat split; auto; discriminate.
Qed.

Lemma secrets_Remote : forall h a b s,
  encHandshake_secrets h a b = Ok s -> Remote s = remote h.
Proof.
  intros h a b s H; unfold encHandshake_secrets in H.
  destruct (deref (randomPrivKey h)) as [prv| |]; cbn [rbind] in H; try discriminate.
  destruct (deref (remoteRandomPub h)) as [pub| |]; cbn [rbind] in H; try discriminate.
  destruct (GenerateShared prv pub sskLen sskLen) as [sec| |]; cbn [rbind] in H;
    try discriminate.
  destruct (xor _ (respNonce h)) as [x1| |]; cbn [rbind] in H; try discriminate.
  destruct (xor _ (initNonce h)) as [x2| |]; cbn [rbind] in H; try discriminate.
  injection H as <-; reflexivity.
Qed.

(** An initiator that has a certificate refuses a response that announces
    no certificate, or one of another size than its own: the run ends after
    the auth packet, and its own certificate is not sent. *)
Theorem initiator_certificate_gate :
  forall m ent prv remotePub c h1 authMsg authPacket respMsg h2,
  len (cert m) <> 0 ->
  makeAuthMsg (mkHS (uint16 (len (cert m))) true (Some remotePub) [] [] None None)
              prv ent = Ok (h1, authMsg) ->
  authMsgV4_sealPlain authMsg h1 ent = Ok authPacket ->
  closed c = false -> encAuthRespLen <= len (rd c) ->
  openHandshakeMsg prv (take encAuthRespLen (rd c)) = Ok respMsg ->
  handleAuthResp h1 respMsg = Ok h2 ->
  resp_CertSize respMsg = 0 \/ resp_CertSize respMsg <> uint16 (len (cert m)) ->
  initiatorEncHandshake (Some m) ent prv remotePub c
  = ({| rd := drop encAuthRespLen (rd c); wr := wr c ++ authPacket; closed := false |},
     Err (if resp_CertSize respMsg =? 0
          then errInitiatorCertSizeZero else errRemoteCertSize)).
Proof.
  intros m ent prv remotePub c h1 authMsg authPacket respMsg h2
         Hcert Emk Eseal Hc Hlen Eopen Eh Hsz.
  rewrite (initiator_run_steps (Some m) ent prv remotePub c h1 authMsg authPacket respMsg
             Emk Eseal Hc Hlen Eopen).
  unfold mbind at 1, lift at 1; rewrite Eh.
  unfold mbind at 1, initiatorCertExchange.
  destruct (len (cert m) =? 0) eqn:E0; [apply Z.eqb_eq in E0; contradiction|].
  cbn [negb].
  destruct (resp_CertSize respMsg =? 0) eqn:E1; [reflexivity|].
  destruct (uint16 (len (cert m)) =? resp_CertSize respMsg) eqn:E2; [|reflexivity].
  apply Z.eqb_eq in E2; apply Z.eqb_neq in E1.
  destruct Hsz as [Hz|Hz]; [contradiction | symmetry in E2; contradiction].
Qed.

(** A receiver that has a certificate refuses an auth message that announces
    no certificate, or one of another size than its own, before it answers:
    nothing is written. *)
Theorem receiver_certificate_gate : forall m ent prv c authMsg h1,
  len (cert m) <> 0 ->
  closed c = false -> encAuthMsgLen <= len (rd c) ->
  openHandshakeMsg prv (take encAuthMsgLen (rd c)) = Ok authMsg ->
  handleAuthMsg (mkHS (uint16 (len (cert m))) false None [] [] None None)
                authMsg prv ent = Ok h1 ->
  auth_CertSize authMsg = 0 \/ auth_CertSize authMsg <> uint16 (len (cert m)) ->
  receiverEncHandshake (Some m) ent prv c
  = ({| rd := drop encAuthMsgLen (rd c); wr := wr c; closed := false |},
     Err (if auth_CertSize authMsg =? 0
          then errReceiverCertSizeZero else errRemoteCertSize)).
Proof.
  intros m ent prv c authMsg h1 Hcert Hc Hlen Eopen Eh Hsz.
  unfold receiverEncHandshake.
  unfold mbind at 1, readHandshakeMsg at 1, mbind at 1.
  rewrite io_ReadFull_enough
    by (first [exact Hc | split; [reflexivity | exact Hlen]]).
  unfold mbind at 1, lift at 1; rewrite Eopen.
  unfold mret.
  unfold mbind at 1, lift at 1; rewrite Eh.
  unfold mbind at 1, lift at 1, receiverCertGate.
  rewrite Hc.
  destruct (len (cert m) =? 0) eqn:E0; [apply Z.eqb_eq in E0; contradiction|].
  cbn [negb].
  destruct (auth_CertSize authMsg =? 0) eqn:E1; [reflexivity|].
  destruct (uint16 (len (cert m)) =? auth_CertSize authMsg) eqn:E2; [|reflexivity].
  apply Z.eqb_eq in E2; apply Z.eqb_neq in E1.
  destruct Hsz as [Hz|Hz]; [contradiction | symmetry in E2; contradiction].
Qed.

(** A side without a certificate of its own takes no part in the
    certificate exchange, whatever size the peer announces: it writes its
    handshake packet and nothing else, reads the peer's packet and nothing
    else, and returns the secrets. *)
Theorem no_local_certificate_no_exchange :
  (forall cm ent prv remotePub c h1 authMsg authPacket respMsg h2,
     certSent cm = [] ->
     makeAuthMsg (mkHS (uint16 (match cm with Some m => len (cert m) | None => 0 end))
                       true (Some remotePub) [] [] None None) prv ent
       = Ok (h1, authMsg) ->
     authMsgV4_sealPlain authMsg h1 ent = Ok authPacket ->
     closed c = false -> encAuthRespLen <= len (rd c) ->
     openHandshakeMsg prv (take encAuthRespLen (rd c)) = Ok respMsg ->
     handleAuthResp h1 respMsg = Ok h2 ->
     initiatorEncHandshake cm ent prv remotePub c
     = ({| rd := drop encAuthRespLen (rd c); wr := wr c ++ authPacket; closed := false |},
        encHandshake_secrets h2 authPacket (take encAuthRespLen (rd c))))
  /\
  (forall cm ent prv c authMsg h1 h2 respMsg respPacket,
     certSent cm = [] ->
     closed c = false -> encAuthMsgLen <= len (rd c) ->
     openHandshakeMsg prv (take encAuthMsgLen (rd c)) = Ok authMsg ->
     handleAuthMsg (mkHS (match cm with Some m => uint16 (len (cert m)) | None => 0 end)
                         false None [] [] None None) authMsg prv ent = Ok h1 ->
     makeAuthResp h1 ent = Ok (h2, respMsg) ->
     authRespV4_sealPlain respMsg h2 ent = Ok respPacket ->
     auth_Version authMsg = TaiRLPXVersion ->
     receiverEncHandshake cm ent prv c
     = ({| rd := drop encAuthMsgLen (rd c); wr := wr c ++ respPacket; closed := false |},
        encHandshake_secrets h2 (take encAuthMsgLen (rd c)) respPacket)).
Proof.
  assert (Hoff : forall cm, certSent cm = [] ->
            match cm with Some m => len (cert m) =? 0 | None => true end = true).
  { intros [m|] H; [|reflexivity]; unfold certSent in H.
    destruct (len (cert m) =? 0) eqn:E; [reflexivity|].
    rewrite H in E; discriminate. }
  split.
  - intros cm ent prv remotePub c h1 authMsg authPacket respMsg h2
           Hnone Emk Eseal Hc Hlen Eopen Eh.
    rewrite (initiator_run_steps cm ent prv remotePub c h1 authMsg authPacket respMsg
               Emk Eseal Hc Hlen Eopen).
    unfold mbind at 1, lift at 1; rewrite Eh.
    unfold mbind at 1, initiatorCertExchange.
    specialize (Hoff cm Hnone).
    destruct cm as [m|]; [rewrite Hoff; cbn [negb]|]; reflexivity.
  - intros cm ent prv c authMsg h1 h2 respMsg respPacket
           Hnone Hc Hlen Eopen Eh Emk Eseal Hv.
    assert (Eg : receiverCertGate cm authMsg = Ok false).
    { unfold receiverCertGate; specialize (Hoff cm Hnone).
      destruct cm as [m|]; [rewrite Hoff|]; reflexivity. }
    rewrite (receiver_run_steps cm ent prv c authMsg h1 false h2 respMsg respPacket
               Hc Hlen Eopen Eh Eg Emk Eseal).
    rewrite Hv, Z.eqb_refl; cbn [negb].
    reflexivity.
Qed.

(** The receiver compares versions after it has answered: an auth message
    with another version is refused with the version error, but by then the
    response packet is on the wire. *)
Theorem receiver_answers_before_version_check :
  forall cm ent prv c authMsg h1 find h2 respMsg respPacket,
  closed c = false -> encAuthMsgLen <= len (rd c) ->
  openHandshakeMsg prv (take encAuthMsgLen (rd c)) = Ok authMsg ->
  handleAuthMsg (mkHS (match cm with Some m => uint16 (len (cert m)) | None => 0 end)
                      false None [] [] None None) authMsg prv ent = Ok h1 ->
  receiverCertGate cm authMsg = Ok find ->
  makeAuthResp h1 ent = Ok (h2, respMsg) ->
  authRespV4_sealPlain respMsg h2 ent = Ok respPacket ->
  auth_Version authMsg <> TaiRLPXVersion ->
  receiverEncHandshake cm ent prv c
  = ({| rd := drop encAuthMsgLen (rd c); wr := wr c ++ respPacket; closed := false |},
     Err (errHandshakeVersion (auth_Version authMsg))).
Proof.
  intros cm ent prv c authMsg h1 find h2 respMsg respPacket
         Hc Hlen Eopen Eh Eg Emk Eseal Hv.
  rewrite (receiver_run_steps cm ent prv c authMsg h1 find h2 respMsg respPacket
             Hc Hlen Eopen Eh Eg Emk Eseal).
  destruct (auth_Version authMsg =? TaiRLPXVersion) eqn:E;
    [apply Z.eqb_eq in E; contradiction | reflexivity].
Qed.

(** A peer that sends too little: the initiator has sent its auth packet
    when it finds out, the receiver has sent nothing; both fail with [io.EOF]
    when nothing came and with [io.ErrUnexpectedEOF] otherwise. *)
Theorem handshake_on_short_input :
  (forall cm ent prv remotePub c h1 authMsg authPacket,
     makeAuthMsg (mkHS (uint16 (match cm with Some m => len (cert m) | None => 0 end))
                       true (Some remotePub) [] [] None None) prv ent
       = Ok (h1, authMsg) ->
     authMsgV4_sealPlain authMsg h1 ent = Ok authPacket ->
     closed c = false -> len (rd c) < encAuthRespLen ->
     initiatorEncHandshake cm ent prv remotePub c
     = ({| rd := []; wr := wr c ++ authPacket; closed := false |},
        Err (if len (rd c) =? 0 then io_EOF else io_ErrUnexpectedEOF)))
  /\
  (forall cm ent prv c,
     closed c = false -> len (rd c) < encAuthMsgLen ->
     receiverEncHandshake cm ent prv c
     = ({| rd := []; wr := wr c; closed := false |},
        Err (if len (rd c) =? 0 then io_EOF else io_ErrUnexpectedEOF))).
Proof.
  split.
  - intros cm ent prv remotePub c h1 authMsg authPacket Emk Eseal Hc Hlen.
    unfold initiatorEncHandshake.
    unfold mbind at 1, lift at 1; rewrite Emk.
    unfold mbind at 1, lift at 1; rewrite Eseal.
    unfold mbind at 1; rewrite (conn_Write_open _ _ Hc).
    unfold mbind at 1, readHandshakeMsg at 1, mbind at 1, io_ReadFull.
    cbn [rd wr closed]; rewrite Hc.
    change (encAuthRespLen <=? 0) with false; cbv iota.
    destruct (len (rd c) <? encAuthRespLen) eqn:E; [reflexivity|].
    apply Z.ltb_ge in E; lia.
  - intros cm ent prv c Hc Hlen.
    unfold receiverEncHandshake.
    unfold mbind at 1, readHandshakeMsg at 1, mbind at 1, io_ReadFull.
    rewrite Hc.
    change (encAuthMsgLen <=? 0) with false; cbv iota.
    destruct (len (rd c) <? encAuthMsgLen) eqn:E; [reflexivity|].
    apply Z.ltb_ge in E; lia.
Qed.

Lemma drop_drop : forall a b l, 0 <= a -> 0 <= b -> drop a (drop b l) = drop (b + a) l.
Proof.
  intros a b l Ha Hb; unfold drop; rewrite skipn_skipn.
  f_equal; lia.
Qed.

Lemma uint16_nonneg : forall v, 0 <= uint16 v.
Proof. intros; unfold uint16; apply Z.mod_pos_bound; reflexivity. Qed.

Lemma initiatorCertExchange_reads : forall cm h resp c c',
  initiatorCertExchange cm h resp c = (c', Ok tt) ->
  rd c' = drop (certAwaited cm) (rd c) /\ certAwaited cm <= len (rd c).
Proof.
  intros cm h resp c c' H.
  pose proof (len_nonneg _ (rd c)) as H0.
  unfold initiatorCertExchange, certAwaited in *.
  destruct cm as [m|]; [|injection H as <-; split; [reflexivity | lia]].
  destruct (len (cert m) =? 0); cbn [negb] in H;
    [injection H as <-; split; [reflexivity | lia]|].
  destruct (resp_CertSize resp =? 0) eqn:E0; [discriminate|].
  destruct (uint16 (len (cert m)) =? resp_CertSize resp) eqn:E1; cbn [negb] in H;
    [|discriminate].
  apply Z.eqb_eq in E1; apply Z.eqb_neq in E0.
  unfold mbind at 1 in H.
  destruct (conn_Write (cert m) c) as [c1 r1] eqn:Ew.
  apply conn_Write_inv in Ew; destruct Ew as [(_ & _ & ->) | (_ & -> & Hr & _ & _)];
    [discriminate|].
  unfold mbind at 1 in H.
  destruct (io_ReadFull (resp_CertSize resp) c1) as [c2 r2] eqn:Er.
  destruct r2 as [buf| |]; try discriminate.
  apply io_ReadFull_Ok in Er; destruct Er as (_ & Hr2 & _ & _ & Hn).
  unfold mbind, lift in H.
  destruct (VerifyCert (certList m) buf); try discriminate.
  destruct (FromCertBytesToPubKey buf); try discriminate.
  destruct (negb (DeepEqual _ (remote h))); try discriminate.
  unfold mret in H; injection H as <-.
  pose proof (uint16_nonneg (len (cert m))) as Hu.
  rewrite Hr2, Hr, E1; split; [reflexivity|].
  rewrite Hr in Hn; apply Hn; lia.
Qed.

Lemma receiverCertExchange_reads : forall cm find h authMsg c c',
  receiverCertGate cm authMsg = Ok find ->
  receiverCertExchange cm find h authMsg c = (c', Ok tt) ->
  rd c' = drop (certAwaited cm) (rd c) /\ certAwaited cm <= len (rd c).
Proof.
  intros cm find h authMsg c c' Hg H.
  pose proof (len_nonneg _ (rd c)) as H0.
  unfold receiverCertGate, certAwaited in *.
  unfold receiverCertExchange in H.
  destruct cm as [m|];
    [|injection Hg as <-; injection H as <-; split; [reflexivity | lia]].
  destruct (len (cert m) =? 0); cbn [negb] in Hg;
    [injection Hg as <-; injection H as <-; split; [reflexivity | lia]|].
  destruct (auth_CertSize authMsg =? 0) eqn:E0; [discriminate|].
  destruct (uint16 (len (cert m)) =? auth_CertSize authMsg) eqn:E1; cbn [negb] in Hg;
    [|discriminate].
  injection Hg as <-.
  apply Z.eqb_eq in E1; apply Z.eqb_neq in E0.
  unfold mbind at 1 in H.
  destruct (io_ReadFull (auth_CertSize authMsg) c) as [c1 r1] eqn:Er.
  destruct r1 as [buf| |]; try discriminate.
  apply io_ReadFull_Ok in Er; destruct Er as (_ & Hr1 & _ & _ & Hn).
  unfold mbind at 1, lift at 1, deref in H.
  unfold mbind at 1, lift at 1 in H.
  destruct (VerifyCert (certList m) buf); try discriminate.
  unfold mbind at 1, lift at 1 in H.
  destruct (FromCertBytesToPubKey buf); try discriminate.
  destruct (negb (DeepEqual _ (remote h))); try discriminate.
  destruct (conn_Write (cert m) c1) as [c2 r2] eqn:Ew.
  apply conn_Write_inv in Ew; destruct Ew as [(_ & _ & ->) | (_ & -> & Hr & _ & _)];
    [discriminate|].
  injection H as <-.
  pose proof (uint16_nonneg (len (cert m))) as Hu.
  rewrite Hr, Hr1, E1; split; [reflexivity|].
  apply Hn; lia.
Qed.

(** A handshake that returns secrets has read its packet and, when it has a
    certificate of its own, as many bytes of certificate as it awaits, and
    not one byte more: what follows on the connection is left for the frame
    codec. *)
Theorem handshake_reads_only_its_packets :
  (forall cm ent prv remotePub c c' s,
     initiatorEncHandshake cm ent prv remotePub c = (c', Ok s) ->
     encAuthRespLen + certAwaited cm <= len (rd c) /\
     rd c' = drop (encAuthRespLen + certAwaited cm) (rd c))
  /\
  (forall cm ent prv c c' s,
     receiverEncHandshake cm ent prv c = (c', Ok s) ->
     encAuthMsgLen + certAwaited cm <= len (rd c) /\
     rd c' = drop (encAuthMsgLen + certAwaited cm) (rd c)).
Proof.
  assert (Hca : forall cm, 0 <= certAwaited cm).
  { intros [m|]; unfold certAwaited; [|lia].
    destruct (len (cert m) =? 0); [lia | apply uint16_nonneg]. }
  split.
  - intros cm ent prv remotePub c c' s H.
    unfold initiatorEncHandshake in H.
    unfold mbind at 1, lift at 1 in H.
    destruct (makeAuthMsg _ prv ent) as [[h1 authMsg]| |] eqn:Emk; try discriminate.
    unfold mbind at 1, lift at 1 in H.
    destruct (authMsgV4_sealPlain authMsg h1 ent) as [authPacket| |] eqn:Eseal;
      try discriminate.
    unfold mbind at 1 in H.
    destruct (conn_Write authPacket c) as [c1 r1] eqn:Ew.
    apply conn_Write_inv in Ew.
    destruct Ew as [(_ & _ & ->) | (Hopen & -> & Hrd1 & Hwr1 & Hcl1)]; [discriminate|].
    unfold mbind at 1, readHandshakeMsg at 1, mbind at 1 in H.
    destruct (io_ReadFull encAuthRespLen c1) as [c2 r2] eqn:Er.
    destruct r2 as [buf| |]; try discriminate.
    apply io_ReadFull_Ok in Er; destruct Er as (-> & Hrd2 & Hwr2 & Hcl2 & Hn).
    unfold mbind at 1, lift at 1 in H.
    destruct (openHandshakeMsg prv (take encAuthRespLen (rd c1))) as [respMsg| |];
      try discriminate.
    unfold mret in H.
    unfold mbind at 1, lift at 1 in H.
    destruct (handleAuthResp h1 respMsg) as [h2| |]; try discriminate.
    unfold mbind at 1 in H.
    destruct (initiatorCertExchange cm h2 respMsg c2) as [c3 r3] eqn:Ecert.
    destruct r3 as [[]| |]; try discriminate.
    apply initiatorCertExchange_reads in Ecert; destruct Ecert as [Hrd3 Hlen3].
    unfold lift in H.
    destruct (encHandshake_secrets h2 authPacket _); try discriminate.
    injection H as <- _.
    destruct (Hn ltac:(reflexivity)) as [_ Hn'].
    rewrite Hrd1 in *.
    rewrite Hrd2 in Hrd3, Hlen3.
    rewrite len_drop in Hlen3 by (split; [discriminate | exact Hn']).
    split; [lia|].
    rewrite Hrd3; apply drop_drop; [apply Hca | discriminate].
  - intros cm ent prv c c' s H.
    unfold receiverEncHandshake in H.
    unfold mbind at 1, readHandshakeMsg at 1, mbind at 1 in H.
    destruct (io_ReadFull encAuthMsgLen c) as [c1 r1] eqn:Er.
    destruct r1 as [buf| |]; try discriminate.
    apply io_ReadFull_Ok in Er; destruct Er as (-> & Hrd1 & Hwr1 & Hcl1 & Hn).
    unfold mbind at 1, lift at 1 in H.
    destruct (openHandshakeMsg prv (take encAuthMsgLen (rd c))) as [authMsg| |];
      try discriminate.
    unfold mret in H.
    unfold mbind at 1, lift at 1 in H.
    destruct (handleAuthMsg _ authMsg prv ent) as [h1| |]; try discriminate.
    unfold mbind at 1, lift at 1 in H.
    destruct (receiverCertGate cm authMsg) as [find| |] eqn:Egate; try discriminate.
    unfold mbind at 1, lift at 1 in H.
    destruct (makeAuthResp h1 ent) as [[h2 respMsg]| |]; try discriminate.
    unfold mbind at 1, lift at 1 in H.
    destruct (authRespV4_sealPlain respMsg h2 ent) as [respPacket| |]; try discriminate.
    unfold mbind at 1 in H.
    destruct (conn_Write respPacket c1) as [c2 r2] eqn:Ew.
    apply conn_Write_inv in Ew.
    destruct Ew as [(_ & _ & ->) | (_ & -> & Hrd2 & _ & _)]; [discriminate|].
    destruct (negb (auth_Version authMsg =? TaiRLPXVersion)); [discriminate|].
    unfold mbind at 1 in H.
    destruct (receiverCertExchange cm find h2 authMsg c2) as [c3 r3] eqn:Ecert.
    destruct r3 as [[]| |]; try discriminate.
    apply (receiverCertExchange_reads cm find h2 authMsg c2 c3 Egate) in Ecert.
    destruct Ecert as [Hrd3 Hlen3].
    unfold lift in H.
    destruct (encHandshake_secrets h2 _ respPacket); try discriminate.
    injection H as <- _.
    destruct (Hn ltac:(reflexivity)) as [_ Hn'].
    rewrite Hrd2, Hrd1 in Hrd3, Hlen3.
    rewrite len_drop in Hlen3 by (split; [discriminate | exact Hn']).
    split; [lia|].
    rewrite Hrd3; apply drop_drop; [apply Hca | discriminate].
Qed.

End HandshakeMore.

(* ================================================================== *)
(** ** More about signatures and keys *)

Section CryptoFacts.

Context {prims : SymmetricPrimitives} {ec : CurveSuites} {cfg : CryptoConfig}
        {kc : KeyCollaborators}.

(** In the P256 and SM2 modes [SigToPub] reads a compressed key from what
    follows the first 65 bytes of the signature and looks at nothing else:
    neither at the hash nor at the 65 bytes. *)
Lemma SigToPub_reads_key_from_tail : forall hash hash' sig sig',
  CryptoType <> CRYPTO_S256_SH3_AES ->
  65 <= len sig -> 65 <= len sig' ->
  drop 65 sig' = drop 65 sig ->
  SigToPub hash' sig' = SigToPub hash sig /\
  SigToPub hash sig = DecompressPubkey (drop 65 sig).
Proof.
  intros hash hash' sig sig' Hmode H H' Htail.
  assert (Hs : forall s, 65 <= len s -> slice_from 65 s = Ok (drop 65 s)).
  { intros s Hl; unfold slice_from.
    destruct (len s <? 65) eqn:E; [apply Z.ltb_lt in E; lia | reflexivity]. }
  unfold SigToPub.
  destruct CryptoType; try contradiction;
    rewrite (Hs sig H), (Hs sig' H'), Htail; cbn [rbind]; auto.
Qed.

(** In the P256 and SM2 modes a signature from [Sign] is the 65 bytes of the
    curve's signature followed by the compressed public key of the signer,
    and [SigToPub] gives back that key decompressed, for whatever digest it
    is asked about. *)
Theorem Sign_then_SigToPub : forall seed d k sig,
  CryptoType <> CRYPTO_S256_SH3_AES ->
  Sign seed d k = Ok sig ->
  exists raw,
    len raw = 65 /\ sig = raw ++ CompressPubkey (Some (PubOf k)) /\
    forall d', SigToPub d' sig = DecompressPubkey (CompressPubkey (Some (PubOf k))).
Proof.
  intros seed d k sig Hmode H.
  assert (Hgen : forall raw, len raw = 65 ->
            forall d', SigToPub d' (raw ++ CompressPubkey (Some (PubOf k)))
                       = DecompressPubkey (CompressPubkey (Some (PubOf k)))).
  { intros raw Hraw d'.
    pose proof (len_nonneg _ (CompressPubkey (Some (PubOf k)))) as H0.
    assert (Hs : slice_from 65 (raw ++ CompressPubkey (Some (PubOf k)))
                 = Ok (CompressPubkey (Some (PubOf k)))).
    { unfold slice_from; rewrite len_app, Hraw.
      destruct (65 + len (CompressPubkey (Some (PubOf k))) <? 65) eqn:E;
        [apply Z.ltb_lt in E; lia|].
      rewrite drop_app_exact by exact Hraw; reflexivity. }
    unfold SigToPub; destruct CryptoType; try contradiction; rewrite Hs; reflexivity. }
  unfold Sign in H.
  destruct CryptoType; try contradiction.
  - destruct (p256_Sign seed k d) as [raw| |]; cbn [rbind] in H; try discriminate.
    destruct (len raw =? 65) eqn:E; cbn [negb] in H; [|discriminate].
    apply Z.eqb_eq in E; injection H as <-.
    exists raw; repeat split; auto.
  - destruct (sm2_Sign seed k d) as [raw| |]; cbn [rbind] in H; try discriminate.
    destruct (len raw =? 65) eqn:E; cbn [negb] in H; [|discriminate].
    apply Z.eqb_eq in E; injection H as <-.
    exists raw; repeat split; auto.
Qed.

(** A signature of fewer than 65 bytes makes [Ecrecover] and [SigToPub]
    panic in every mode: both take [sig[65:]] ([Ecrecover] in the line that
    prints it) before anything else. *)
Theorem short_signature_panics : forall hash sig,
  len sig < 65 ->
  Ecrecover hash sig = Panic "slice bounds out of range" /\
  SigToPub hash sig = Panic "slice bounds out of range".
Proof.
  intros hash sig H.
  assert (Hs : slice_from 65 sig = Panic "slice bounds out of range").
  { unfold slice_from; destruct (len sig <? 65) eqn:E;
      [reflexivity | apply Z.ltb_ge in E; lia]. }
  assert (He : Ecrecover hash sig = Panic "slice bounds out of range").
  { unfold Ecrecover.
    destruct (len sig =? 98) eqn:E; [apply Z.eqb_eq in E; lia|].
    cbn [negb]; rewrite Hs; reflexivity. }
  split; [exact He|].
  unfold SigToPub; destruct CryptoType; rewrite ?Hs, ?He; reflexivity.
Qed.

(** [ValidateSignatureValues] and signature malleability: it accepts under
    the homestead rules only what it accepts without them; and of a
    signature it accepts without them and the same signature with [s]
    replaced by [N - s], it accepts both without the homestead rules and
    exactly one with them. *)
Theorem ValidateSignatureValues_malleability : forall v r s,
  (ValidateSignatureValues v r s true = true ->
   ValidateSignatureValues v r s false = true)
  /\
  (ValidateSignatureValues v r s false = true ->
   ValidateSignatureValues v r (secp256k1N - s) false = true /\
   ValidateSignatureValues v r (secp256k1N - s) true
   = negb (ValidateSignatureValues v r s true)).
Proof.
  intros v r s.
  assert (HN : secp256k1N = 2 * secp256k1halfN + 1) by reflexivity.
  assert (Hpos : 0 < secp256k1halfN) by reflexivity.
  unfold ValidateSignatureValues; generalize dependent secp256k1halfN; intros half HN Hpos.
  generalize dependent secp256k1N; intros N HN; subst N.
  split.
  - cbn [andb].
    destruct ((r <? 1) || (s <? 1)); [discriminate|].
    destruct (s >? half); [discriminate | auto].
  - cbn [andb].
    destruct (r <? 1) eqn:E1; cbn [orb]; [discriminate|].
    destruct (s <? 1) eqn:E2; [discriminate|].
    destruct (r <? 2 * half + 1) eqn:E3; cbn [andb]; [|discriminate].
    destruct (s <? 2 * half + 1) eqn:E4; cbn [andb]; [|discriminate].
    intros Hv; rewrite Hv.
    apply Z.ltb_ge in E1, E2; apply Z.ltb_lt in E3, E4.
    replace (2 * half + 1 - s <? 1) with false by (symmetry; apply Z.ltb_ge; lia).
    replace (2 * half + 1 - s <? 2 * half + 1) with true by (symmetry; apply Z.ltb_lt; lia).
    split; [reflexivity|].
    rewrite !Z.gtb_ltb.
    destruct (half <? s) eqn:E5.
    + apply Z.ltb_lt in E5.
      replace (half <? 2 * half + 1 - s) with false by (symmetry; apply Z.ltb_ge; lia).
      reflexivity.
    + apply Z.ltb_ge in E5.
      replace (half <? 2 * half + 1 - s) with true by (symmetry; apply Z.ltb_lt; lia).
      reflexivity.
Qed.

(** What [ToECDSA] lets through: a key of exactly the curve's size whose
    value is positive and below [secp256k1N] (in every mode) and for which
    the curve gives a point; [ToECDSAUnsafe] returns that key, or nil. *)
Theorem ToECDSA_accepts : forall d k,
  ToECDSA d = inl k ->
  8 * len d = curve_BitSize (curveOf CryptoType) /\
  D k = be_value d /\ 0 < D k < secp256k1N /\
  Curve (PubOf k) = curveOf CryptoType /\
  (exists x y, curve_ScalarBaseMult (curveOf CryptoType) d = Some (x, y)
               /\ X (PubOf k) = Some x /\ Y (PubOf k) = Some y) /\
  ToECDSAUnsafe d = Some k.
Proof.
  intros d k H.
  unfold ToECDSAUnsafe; fold (ToECDSA d); rewrite H.
  unfold ToECDSA, toECDSA in H; cbn [andb] in H.
  destruct (8 * len d =? curve_BitSize (curveOf CryptoType)) eqn:E1; cbn [negb] in H;
    [|discriminate].
  destruct (be_value d >=? secp256k1N) eqn:E2; [discriminate|].
  destruct (be_value d <=? 0) eqn:E3; [discriminate|].
  destruct (curve_ScalarBaseMult (curveOf CryptoType) d) as [[x y]|] eqn:E4; [|discriminate].
  injection H as <-; cbn [D PubOf Curve X Y].
  apply Z.eqb_eq in E1; rewrite Z.geb_leb in E2; apply Z.leb_gt in E2, E3.
  repeat split; auto; try lia.
  exists x, y; auto.
Qed.

Lemma be_bytes_snoc_value : forall n v x,
  0 <= x < 256 -> be_bytes (S n) (v * 256 + x) = be_bytes n v ++ [x].
Proof.
  intros n v x Hx; cbn [be_bytes].
  rewrite Z.add_comm, Z.div_add, Z.mod_add by lia.
  rewrite Z.div_small, Z.mod_small by lia.
  reflexivity.
Qed.

Lemma be_bytes_be_value : forall d,
  Forall (fun b => 0 <= b < 256) d -> be_bytes (length d) (be_value d) = d.
Proof.
  intros d; induction d as [|x d IH] using rev_ind; intros H; [reflexivity|].
  apply Forall_app in H; destruct H as [Hd Hx].
  inversion Hx as [|? ? Hx' _]; subst.
  rewrite length_app; cbn [length]; rewrite Nat.add_1_r.
  unfold be_value; rewrite fold_left_app; cbn [fold_left]; fold (be_value d).
  rewrite be_bytes_snoc_value by assumption.
  rewrite IH by assumption; reflexivity.
Qed.

(** A key from [ToECDSA]: the length of its bytes, its value, its curve. *)
Lemma ToECDSA_key : forall d k,
  ToECDSA d = inl k ->
  8 * len d = curve_BitSize (curveOf CryptoType) /\ D k = be_value d /\
  Curve (PubOf k) = curveOf CryptoType.
Proof.
  intros d k H.
  unfold ToECDSA, toECDSA in H; cbn [andb] in H.
  destruct (8 * len d =? curve_BitSize (curveOf CryptoType)) eqn:E1; cbn [negb] in H;
    [|discriminate].
  destruct (be_value d >=? secp256k1N); [discriminate|].
  destruct (be_value d <=? 0); [discriminate|].
  destruct (curve_ScalarBaseMult (curveOf CryptoType) d) as [[x y]|]; [|discriminate].
  injection H as <-; cbn [D PubOf Curve].
  apply Z.eqb_eq in E1; auto.
Qed.

(** A key that [ToECDSA] has read from [d] is written back by [FromECDSA]
    as [d], given that [math.PaddedBigBytes(v, n)] is the big-endian form of
    [v] on [n] bytes. *)
Theorem FromECDSA_ToECDSA : forall d k,
  (forall v n, 0 <= n -> math_PaddedBigBytes v n = be_bytes (Z.to_nat n) v) ->
  Forall (fun b => 0 <= b < 256) d ->
  ToECDSA d = inl k ->
  FromECDSA (Some k) = d.
Proof.
  intros d k Hpad Hbytes H.
  destruct (ToECDSA_key d k H) as (Hlen & HD & Hc).
  unfold FromECDSA; rewrite Hc, <- Hlen, HD.
  rewrite Z.mul_comm, Z.div_mul by lia.
  rewrite Hpad by apply len_nonneg.
  unfold len; rewrite Nat2Z.id.
  apply be_bytes_be_value; exact Hbytes.
Qed.

(** Address derivation panics on a key that lacks a coordinate, and in the
    S256 mode on every input: there [Keccak256] returns nil, and [[12:]] of
    nil is out of range. *)
Theorem address_derivation_panics :
  (forall p, X p = None \/ Y p = None ->
     PubkeyToAddress p = Panic "slice bounds out of range")
  /\
  (CryptoType = CRYPTO_S256_SH3_AES ->
   (forall p, PubkeyToAddress p = Panic "slice bounds out of range") /\
   (forall b salt inithash,
      CreateAddress2 b salt inithash = Panic "slice bounds out of range")).
Proof.
  split.
  - intros [c [x|] [y|]] [H|H]; try discriminate; reflexivity.
  - intros Hmode; split.
    + intros p; unfold PubkeyToAddress.
      destruct (slice_from 1 (FromECDSAPub (Some p))) as [t| |] eqn:E; cbn [rbind].
      * unfold Keccak256; rewrite Hmode; reflexivity.
      * unfold slice_from in E; destruct (len _ <? 1); discriminate.
      * unfold slice_from in E; destruct (len _ <? 1); [|discriminate].
        injection E as <-; reflexivity.
    + intros b salt inithash; unfold CreateAddress2, Keccak256; rewrite Hmode; reflexivity.
Qed.

(** [VerifySignature] refuses whatever is not a 98-byte signature over a
    32-byte digest. In the S256 mode, where the signature of [secp256k1.Sign]
    has 65 bytes, it therefore refuses every signature that [Sign] makes. *)
Theorem VerifySignature_lengths :
  (forall pubkey digest sig,
     len sig <> 98 \/ len digest <> 32 -> VerifySignature pubkey digest sig = Ok false)
  /\
  (CryptoType = CRYPTO_S256_SH3_AES ->
   (forall digest seckey sig, secp256k1_Sign digest seckey = Ok sig -> len sig = 65) ->
   forall seed digest k sig pubkey,
     Sign seed digest k = Ok sig -> VerifySignature pubkey digest sig = Ok false).
Proof.
  assert (H1 : forall pubkey digest sig,
            len sig <> 98 \/ len digest <> 32 -> VerifySignature pubkey digest sig = Ok false).
  { intros pubkey digest sig H; unfold VerifySignature.
    destruct (len sig =? 98) eqn:E1; cbn [negb orb]; [|reflexivity].
    destruct (len digest =? 32) eqn:E2; cbn [negb]; [|reflexivity].
    apply Z.eqb_eq in E1, E2; destruct H; contradiction. }
  split; [exact H1|].
  intros Hmode Hraw seed digest k sig pubkey H.
  apply H1; left.
  unfold Sign in H; rewrite Hmode in H.
  destruct (len digest =? 32); cbn [negb] in H; [|discriminate].
  rewrite (Hraw _ _ _ H); discriminate.
Qed.

End CryptoFacts.

Section HexFacts.

Context {prims : SymmetricPrimitives} {ec : CurveSuites} {cfg : CryptoConfig}
        {kc : KeyCollaborators}.

Lemma hexDigit_isHexChar : forall n, 0 <= n < 16 -> isHexChar (hexDigit n).
Proof.
  intros n H; unfold isHexChar, hexDigit.
  destruct (n <? 10) eqn:E; [apply Z.ltb_lt in E | apply Z.ltb_ge in E]; lia.
Qed.

Lemma hex_EncodeToString_chars : forall a,
  Forall (fun b => 0 <= b < 256) a -> Forall isHexChar (hex_EncodeToString a).
Proof.
  induction a as [|b a IH]; intros H; [constructor|].
  inversion H as [|? ? Hb Ha]; subst.
  unfold hex_EncodeToString; cbn [flat_map app].
  constructor; [|constructor; [|apply IH; exact Ha]]; apply hexDigit_isHexChar.
  - split; [apply Z.div_pos; lia | apply Z.div_lt_upper_bound; lia].
  - apply Z.mod_pos_bound; lia.
Qed.

Lemma hex_EncodeToString_length : forall a,
  length (hex_EncodeToString a) = (2 * length a)%nat.
Proof.
  induction a as [|b a IH]; [reflexivity|].
  unfold hex_EncodeToString in *; cbn [flat_map app length]; rewrite IH; lia.
Qed.

Lemma checksumFrom_Ok : forall hash chars i,
  Forall isHexChar chars ->
  (i + length chars <= 2 * length hash)%nat ->
  exists r, checksumFrom hash i chars = Ok r /\
            length r = length chars /\ map lowerHex r = chars.
Proof.
  intros hash chars; induction chars as [|c chars IH]; intros i Hc Hi.
  - exists []; auto.
  - inversion Hc as [|? ? Hc1 Hc2]; subst; cbn [length] in Hi.
    cbn [checksumFrom].
    destruct (nth_error hash (Nat.div i 2)) as [h|] eqn:E.
    + destruct (IH (S i) Hc2 ltac:(lia)) as (r & Er & Hl & Hm).
      rewrite Er; cbn [rbind].
      eexists; split; [reflexivity|].
      split; [cbn [length]; rewrite Hl; reflexivity|].
      cbn [map]; rewrite Hm; f_equal.
      set (hb := if Nat.even i then Z.shiftr h 4 else Z.land h 15); clearbody hb.
      unfold lowerHex, isHexChar, to_byte in *.
      destruct ((c >? 57) && (hb >? 7)) eqn:Eb.
      * apply andb_prop in Eb; destruct Eb as [Eb _]; apply Z.gtb_lt in Eb.
        rewrite Z.mod_small by lia.
        replace ((65 <=? c - 32) && (c - 32 <=? 70)) with true; [lia|].
        symmetry; apply andb_true_intro; split; apply Z.leb_le; lia.
      * replace ((65 <=? c) && (c <=? 70)) with false; [reflexivity|].
        symmetry; apply andb_false_iff.
        destruct Hc1; [left | right]; apply Z.leb_gt; lia.
    + apply nth_error_None in E.
      assert (Nat.div i 2 < length hash)%nat; [|lia].
      apply Nat.Div0.div_lt_upper_bound; lia.
Qed.

Lemma checksumFrom_Panic : forall hash chars i,
  (i <= 2 * length hash)%nat ->
  (2 * length hash < i + length chars)%nat ->
  checksumFrom hash i chars = Panic "index out of range".
Proof.
  intros hash chars; induction chars as [|c chars IH]; intros i H1 H2.
  - cbn [length] in H2; lia.
  - cbn [checksumFrom]; cbn [length] in H2.
    destruct (nth_error hash (Nat.div i 2)) as [h|] eqn:E; [|reflexivity].
    assert (Hlt : (Nat.div i 2 < length hash)%nat)
      by (apply nth_error_Some; rewrite E; discriminate).
    assert (i < 2 * length hash)%nat.
    { destruct (Nat.lt_ge_cases i (2 * length hash)) as [Hl|Hl]; [exact Hl|].
      exfalso.
      assert (length hash <= Nat.div i 2)%nat; [|lia].
      apply Nat.div_le_lower_bound; lia. }
    rewrite IH by lia; reflexivity.
Qed.

Lemma digest_length_32 : forall b : bytes, len b = 32 -> length b = 32%nat.
Proof. intros b H; unfold len in H; lia. Qed.

(** For at most 32 bytes, in the P256 and SM2 modes, [Hex] returns ["0x"]
    and two characters per byte, which are the plain lower-case hexadecimal
    digits of the input but for the case of the letters. *)
Theorem Hex_is_hex_up_to_case : forall a,
  CryptoType <> CRYPTO_S256_SH3_AES ->
  Forall (fun b => 0 <= b < 256) a ->
  len a <= 32 ->
  exists r,
    Hex a = Ok ([48; 120] ++ r) /\
    length r = (2 * length a)%nat /\
    map lowerHex r = hex_EncodeToString a.
Proof.
  intros a Hmode Hbytes Hlen.
  assert (Hgen : forall hash, len hash = 32 ->
            exists r, checksumFrom hash 0 (hex_EncodeToString a) = Ok r /\
                      length r = (2 * length a)%nat /\
                      map lowerHex r = hex_EncodeToString a).
  { intros hash Hh.
    destruct (checksumFrom_Ok hash (hex_EncodeToString a) 0
                (hex_EncodeToString_chars a Hbytes)) as (r & Er & Hl & Hm).
    - rewrite hex_EncodeToString_length, (digest_length_32 hash Hh).
      unfold len in Hlen; lia.
    - exists r; rewrite Hl, hex_EncodeToString_length; auto. }
  unfold Hex; destruct CryptoType; try contradiction.
  - destruct (Hgen (hash_Sum (hash_Write sha3_NewLegacyKeccak256 (hex_EncodeToString a)))
                (hash_Sum_len _)) as (r & Er & Hl & Hm).
    exists r; rewrite Er; auto.
  - destruct (Hgen (copyInto 32 (sm3_digest (hex_EncodeToString a)))
                (copyInto_length 32 _ ltac:(lia))) as (r & Er & Hl & Hm).
    exists r; rewrite Er; auto.
Qed.

(** For more than 32 bytes, in the P256 and SM2 modes, [Hex] panics: the
    loop indexes the 32-byte hash with half the position of each
    character. *)
Theorem Hex_panics_beyond_32_bytes : forall a,
  CryptoType <> CRYPTO_S256_SH3_AES ->
  32 < len a ->
  Hex a = Panic "index out of range".
Proof.
  intros a Hmode Hlen.
  assert (Hgen : forall hash, len hash = 32 ->
            checksumFrom hash 0 (hex_EncodeToString a) = Panic "index out of range").
  { intros hash Hh; apply checksumFrom_Panic.
    - lia.
    - rewrite hex_EncodeToString_length, (digest_length_32 hash Hh).
      unfold len in Hlen; lia. }
  unfold Hex; destruct CryptoType; try contradiction.
  - rewrite Hgen by apply hash_Sum_len; reflexivity.
  - rewrite Hgen by (apply copyInto_length; lia); reflexivity.
Qed.

End HexFacts.

(* ================================================================== *)
(** ** The transport: from the handshake to the codec *)

Section TransportFacts.

Context {prims : SymmetricPrimitives} {encs : FrameEncoders} {ec : CurveSuites}
        {cfg : CryptoConfig} {hsenc : HandshakeEncoders} {ca : CertAuthority}.

(** The keys of the secrets are what [Keccak256] returns. *)
Lemma secrets_keys : forall h a b s,
  encHandshake_secrets h a b = Ok s ->
  exists x y, AES s = Keccak256 x /\ MAC s = Keccak256 y.
Proof.
  intros h a b s H; unfold encHandshake_secrets in H.
  destruct (deref (randomPrivKey h)) as [prv| |]; cbn [rbind] in H; try discriminate.
  destruct (deref (remoteRandomPub h)) as [pub| |]; cbn [rbind] in H; try discriminate.
  destruct (GenerateShared prv pub sskLen sskLen) as [sec| |]; cbn [rbind] in H;
    try discriminate.
  destruct (xor _ (respNonce h)) as [x1| |]; cbn [rbind] in H; try discriminate.
  destruct (xor _ (initNonce h)) as [x2| |]; cbn [rbind] in H; try discriminate.
  injection H as <-; cbn [AES MAC]; eauto.
Qed.

Lemma Keccak256_len : forall data,
  len (Keccak256 data) = if match CryptoType with CRYPTO_S256_SH3_AES => true | _ => false end
                         then 0 else 32.
Proof.
  intros data; unfold Keccak256; destruct CryptoType.
  - apply hash_Sum_len.
  - apply copyInto_length; lia.
  - reflexivity.
Qed.

(** What a run of either side returns comes out of [secrets]. *)
Lemma run_secrets : forall cm ent prv dial c c' s,
  match dial with
  | None => receiverEncHandshake cm ent prv c
  | Some d => initiatorEncHandshake cm ent prv d c
  end = (c', Ok s) ->
  exists h a b, encHandshake_secrets h a b = Ok s.
Proof.
  intros cm ent prv [d|] c c' s H.
  - apply initiator_run_inv in H.
    destruct H as (h1 & am & ap & rm & h2 & _ & _ & _ & _ & Esec & _); eauto.
  - apply receiver_run_inv in H.
    destruct H as (am & h1 & find & h2 & rm & rp & _ & _ & _ & _ & _ & _ & Esec & _); eauto.
Qed.

(** In the P256 and SM2 modes the secrets of a handshake always make a
    codec: both keys have 32 bytes. [doEncHandshake] then returns the remote
    key of the secrets and leaves a codec that encrypts and decrypts with the
    AES key from position 0 under a zero IV, without compression. *)
Theorem doEncHandshake_builds_codec : forall cm ent prv dial t c s,
  CryptoType <> CRYPTO_S256_SH3_AES ->
  match dial with
  | None => receiverEncHandshake cm ent prv (fd t)
  | Some d => initiatorEncHandshake cm ent prv d (fd t)
  end = (c, Ok s) ->
  len (AES s) = 32 /\ len (MAC s) = 32 /\
  doEncHandshake cm ent prv dial t
  = ({| fd := c;
        t_rw := Some (mkRW c (cipher_NewCTR (AES s) (make 16))
                           (cipher_NewCTR (AES s) (make 16))
                           (MAC s) (EgressMAC s) (IngressMAC s) false) |},
     Ok (Remote s)).
Proof.
  intros cm ent prv dial t c s Hmode H.
  destruct (run_secrets cm ent prv dial (fd t) c s H) as (h & a & b & Esec).
  destruct (secrets_keys h a b s Esec) as (x & y & HA & HM).
  assert (L : forall data, len (Keccak256 data) = 32).
  { intros data; rewrite Keccak256_len; destruct CryptoType; try reflexivity; contradiction. }
  assert (LA : len (AES s) = 32) by (rewrite HA; apply L).
  assert (LM : len (MAC s) = 32) by (rewrite HM; apply L).
  split; [exact LA|]; split; [exact LM|].
  unfold doEncHandshake; rewrite H.
  unfold newRLPXFrameRW, aes_NewCipher; rewrite LA, LM; reflexivity.
Qed.

(** In the S256 mode [doEncHandshake] never returns a remote key: there
    [Keccak256] returns nil, the secrets hold empty keys, and as soon as the
    handshake itself succeeds [newRLPXFrameRW] panics on the MAC secret. *)
Theorem doEncHandshake_never_succeeds_in_S256 : forall cm ent prv dial t,
  CryptoType = CRYPTO_S256_SH3_AES ->
  (forall t' r, doEncHandshake cm ent prv dial t <> (t', Ok r)) /\
  (forall c s,
     match dial with
     | None => receiverEncHandshake cm ent prv (fd t)
     | Some d => initiatorEncHandshake cm ent prv d (fd t)
     end = (c, Ok s) ->
     MAC s = [] /\ AES s = [] /\
     snd (doEncHandshake cm ent prv dial t) = Panic "invalid MAC secret").
Proof.
  intros cm ent prv dial t Hmode.
  assert (Hrun : forall c s,
            match dial with
            | None => receiverEncHandshake cm ent prv (fd t)
            | Some d => initiatorEncHandshake cm ent prv d (fd t)
            end = (c, Ok s) ->
            MAC s = [] /\ AES s = [] /\
            doEncHandshake cm ent prv dial t
            = ({| fd := c; t_rw := t_rw t |}, Panic "invalid MAC secret")).
  { intros c s H.
    destruct (run_secrets cm ent prv dial (fd t) c s H) as (h & a & b & Esec).
    destruct (secrets_keys h a b s Esec) as (x & y & HA & HM).
    assert (L : forall data, Keccak256 data = [])
      by (intros data; unfold Keccak256; rewrite Hmode; reflexivity).
    rewrite L in HA, HM.
    split; [exact HM|]; split; [exact HA|].
    unfold doEncHandshake; rewrite H.
    unfold newRLPXFrameRW; rewrite HM; reflexivity. }
  split.
  - intros t' r H.
    unfold doEncHandshake in H.
    destruct (match dial with
              | None => receiverEncHandshake cm ent prv (fd t)
              | Some d => initiatorEncHandshake cm ent prv d (fd t)
              end) as [c [s|e|w]] eqn:E; try discriminate.
    destruct (Hrun c s eq_refl) as (_ & _ & Hd).
    unfold doEncHandshake in Hd; rewrite E in Hd.
    rewrite Hd in H; discriminate.
  - intros c s H; destruct (Hrun c s H) as (HM & HA & Hd).
    rewrite Hd; auto.
Qed.

(** The identity [doEncHandshake] returns: the dialling side gets back the
    key it dialled; the listening side gets the key it imported from the
    [InitiatorPubkey] field of the auth message it opened. *)
Theorem doEncHandshake_reports_identity : forall cm ent prv dial t t' r,
  doEncHandshake cm ent prv dial t = (t', Ok r) ->
  match dial with
  | Some d => r = Some d
  | None =>
      exists authMsg key,
        openHandshakeMsg prv (take encAuthMsgLen (rd (fd t))) = Ok authMsg /\
        importPublicKey (InitiatorPubkey authMsg) = Ok key /\
        r = Some key
  end.
Proof.
  intros cm ent prv dial t t' r H.
  unfold doEncHandshake in H.
  destruct dial as [d|].
  - destruct (initiatorEncHandshake cm ent prv d (fd t)) as [c [s|e|w]] eqn:E;
      try discriminate.
    destruct (newRLPXFrameRW c s); try discriminate.
    injection H as _ <-.
    apply initiator_run_inv in E.
    destruct E as (h1 & am & ap & rm & h2 & Emk & _ & _ & Eh & Esec & _).
    rewrite (secrets_Remote _ _ _ _ Esec), (handleAuthResp_remote _ _ _ Eh).
    apply makeAuthMsg_version in Emk; destruct Emk as [_ ->]; reflexivity.
  - destruct (receiverEncHandshake cm ent prv (fd t)) as [c [s|e|w]] eqn:E;
      try discriminate.
    destruct (newRLPXFrameRW c s); try discriminate.
    injection H as _ <-.
    apply receiver_run_inv in E.
    destruct E as (am & h1 & find & h2 & rm & rp & Eopen & Eh & _ & Emk & _ & _ & Esec & _).
    apply handleAuthMsg_inv in Eh; [|reflexivity].
    destruct Eh as (rpub & key & d & rrp & Eimp & _ & _ & _ & ->).
    exists am, rpub; split; [exact Eopen|]; split; [exact Eimp|].
    rewrite (secrets_Remote _ _ _ _ Esec).
    apply makeAuthResp_version in Emk; destruct Emk as [_ ->]; reflexivity.
Qed.

(** In the P256 and SM2 modes [handleAuthMsg] does not look at the first 65
    bytes of the signature: two auth messages that differ only there are
    handled alike. *)
Theorem handleAuthMsg_ignores_signature_head : forall h msg msg' prv ent,
  CryptoType <> CRYPTO_S256_SH3_AES ->
  65 <= len (Signature msg) -> 65 <= len (Signature msg') ->
  drop 65 (Signature msg') = drop 65 (Signature msg) ->
  InitiatorPubkey msg' = InitiatorPubkey msg ->
  auth_Nonce msg' = auth_Nonce msg ->
  handleAuthMsg h msg' prv ent = handleAuthMsg h msg prv ent.
Proof.
  intros h msg msg' prv ent Hmode H H' Htail Hpub Hnonce.
  assert (Hs : forall s, 65 <= len s -> slice_from 65 s = Ok (drop 65 s)).
  { intros s Hl; unfold slice_from.
    destruct (len s <? 65) eqn:E; [apply Z.ltb_lt in E; lia | reflexivity]. }
  assert (Hsig : forall d, SigToPub d (Signature msg') = SigToPub d (Signature msg)).
  { intros d; unfold SigToPub.
    destruct CryptoType; try contradiction; rewrite (Hs _ H), (Hs _ H'), Htail; reflexivity. }
  unfold handleAuthMsg; rewrite Hpub, Hnonce.
  destruct (importPublicKey (InitiatorPubkey msg)); cbn [rbind]; try reflexivity.
  destruct (match randomPrivKey h with
            | Some k => Ok k
            | None => GenerateKey (rand_key ent)
            end); cbn [rbind]; try reflexivity.
  destruct (signedDigest _ prv); cbn [rbind]; try reflexivity.
  rewrite Hsig; reflexivity.
Qed.

(** Secrets that agree (same AES and MAC keys, one side's egress MAC the
    other side's ingress MAC) make codecs that understand each other: what
    one side writes with [WriteMsg] the other reads with [ReadMsg]. *)
Theorem established_codecs_deliver : forall sA sB cA cB a b msg rest,
  AES sA = AES sB -> MAC sA = MAC sB -> EgressMAC sA = IngressMAC sB ->
  newRLPXFrameRW cA sA = Ok a -> newRLPXFrameRW cB sB = Ok b ->
  closed cA = false -> closed cB = false ->
  Size msg = len (Payload msg) ->
  (forall p, rlp_DecodeUint (rlp_EncodeUint (Code msg) ++ p) = Ok (Code msg, p)) ->
  len (rlp_EncodeUint (Code msg)) + len (Payload msg) <= maxUint24 ->
  exists a' frame b',
    WriteMsg msg a = (a', Ok tt) /\
    wr (conn a') = wr cA ++ frame /\
    ReadMsg (receiving b (frame ++ rest)) = (b', Ok msg) /\
    rd (conn b') = rest.
Proof.
  intros sA sB cA cB a b msg rest HA HM HE Ha Hb HcA HcB Hsize Hrlp Hfit.
  unfold newRLPXFrameRW in Ha, Hb.
  destruct (aes_NewCipher (MAC sA)) as [mA| |] eqn:EmA; try discriminate.
  destruct (aes_NewCipher (AES sA)) as [eA| |] eqn:EeA; try discriminate.
  destruct (aes_NewCipher (MAC sB)) as [mB| |] eqn:EmB; try discriminate.
  destruct (aes_NewCipher (AES sB)) as [eB| |] eqn:EeB; try discriminate.
  rewrite HM in EmA; rewrite EmA in EmB; injection EmB as <-.
  rewrite HA in EeA; rewrite EeA in EeB; injection EeB as <-.
  injection Ha as <-; injection Hb as <-.
  set (a := mkRW cA (cipher_NewCTR eA (make 16)) (cipher_NewCTR eA (make 16)) mA
                 (EgressMAC sA) (IngressMAC sA) false).
  set (b := mkRW cB (cipher_NewCTR eA (make 16)) (cipher_NewCTR eA (make 16)) mA
                 (EgressMAC sB) (IngressMAC sB) false).
  assert (Hm : matched a b) by (unfold matched, a, b; cbn; auto).
  destruct (deliver_plain a b msg rest Hm HcA HcB eq_refl Hsize Hrlp Hfit)
    as (HW & HR & _).
  eexists _, _, _; split; [exact HW|].
  split; [reflexivity|].
  split; [exact HR | reflexivity].
Qed.

End TransportFacts.

(* ================================================================== *)
(** ** The further properties on the reference runs *)

Section OnMoreReferenceRuns.

Import Ref RefKeys Scenario ScenarioMore.

Lemma bytes_in_range : forall l,
  forallb (fun b => (0 <=? b) && (b <? 256)) l = true -> Forall (fun b => 0 <= b < 256) l.
Proof.
  intros l H; apply Forall_forall; intros b Hb.
  apply (proj1 (forallb_forall _ l) H) in Hb; lia.
Qed.

(** A 20-byte seed and its first 16 bytes give the same tag; a 3-byte seed
    makes [updateMAC] panic. *)
Lemma updateMAC_reads_16_seed_bytes_witness :
  (exists mac' tag,
     updateMAC [1; 2; 3] frameMacKey (map Z.of_nat (seq 1 20)) = Ok (mac', tag) /\
     len tag = 16 /\ len mac' = len [1; 2; 3] + 16 /\
     updateMAC [1; 2; 3] frameMacKey (take 16 (map Z.of_nat (seq 1 20))) = Ok (mac', tag))
  /\
  updateMAC [1; 2; 3] frameMacKey [1; 2; 3] = Panic "index out of range".
Proof.
  split.
  - apply (proj1 updateMAC_reads_16_seed_bytes); vm_compute; discriminate.
  - apply (proj2 updateMAC_reads_16_seed_bytes); reflexivity.
Defined.

(** The frame of [msg17]: 18 bytes of content, 80 bytes on the wire. *)
Lemma frame_wire_length_witness :
  let n := len (rlp_EncodeUint (Code msg17)) + len (Payload msg17) in
  exists frame,
    snd (WriteMsg msg17 (writer false)) = Ok tt /\
    wr (conn (fst (WriteMsg msg17 (writer false)))) = wr (conn (writer false)) ++ frame /\
    len frame = 48 + 16 * ((n + 15) / 16).
Proof.
  assert (Hfit : len (rlp_EncodeUint (Code msg17)) + len (Payload msg17) <= maxUint24)
    by (vm_compute; discriminate).
  exact (frame_wire_length (writer false) msg17 msg17 eq_refl eq_refl Hfit eq_refl).
Defined.

(** [msg17] written to the closed connection. *)
Lemma WriteMsg_closed_connection_witness :
  let rw := closedWriter in
  let fsize := frameSize (rlp_EncodeUint (Code msg17)) msg17 in
  let hdr := snd (XORKeyStream (enc rw) (plainHeader fsize)) in
  WriteMsg msg17 rw
  = (mkRW (conn rw)
          (mkCtr (ctr_block (enc rw)) (ctr_iv (enc rw)) (ctr_pos (enc rw) + 16))
          (dec rw) (macCipher rw)
          (reseed (egressMAC rw) (macCipher rw) hdr)
          (ingressMAC rw) (snappy rw),
     Err io_ErrClosedPipe).
Proof.
  assert (Hfit : frameSize (rlp_EncodeUint (Code msg17)) msg17 <= maxUint24)
    by (vm_compute; discriminate).
  exact (WriteMsg_closed_connection closedWriter msg17 msg17 eq_refl Hfit eq_refl).
Defined.

(** Three bytes where a header is expected. *)
Lemma ReadMsg_short_header_witness :
  let r := receiving (reader false) [1; 2; 3] in
  ReadMsg r
  = (set_conn r {| rd := []; wr := wr (conn r); closed := false |},
     Err (if len (rd (conn r)) =? 0 then io_EOF else io_ErrUnexpectedEOF)).
Proof.
  apply (ReadMsg_short_header (receiving (reader false) [1; 2; 3])).
  - reflexivity.
  - reflexivity.
Defined.

(** [msg17], then [msg5]. *)
Lemma frames_delivered_in_order_witness :
  exists w1 w2 sent r1 r2,
    WriteMsg msg17 (writer false) = (w1, Ok tt) /\ WriteMsg msg5 w1 = (w2, Ok tt) /\
    wr (conn w2) = wr (conn (writer false)) ++ sent /\
    ReadMsg (receiving (reader false) (sent ++ [1; 1])) = (r1, Ok msg17) /\
    ReadMsg r1 = (r2, Ok msg5) /\
    rd (conn r2) = [1; 1] /\ matched w2 r2.
Proof.
  apply (frames_delivered_in_order (writer false) (reader false) msg17 msg5 [1; 1]).
  - repeat split.
  - reflexivity.
  - reflexivity.
  - reflexivity.
  - reflexivity.
  - reflexivity.
  - intro p; reflexivity.
  - intro p; reflexivity.
  - vm_compute; discriminate.
  - vm_compute; discriminate.
Defined.

(** A five-byte payload that announces [2^24] bytes. *)
Lemma ReadMsg_refuses_oversized_decompression_witness :
  let f := sealFrame (writer true) (rlp_EncodeUint 3) bigAnnounce
                     (len (rlp_EncodeUint 3) + len bigAnnounce) in
  ReadMsg (receiving (reader true) (wire f ++ [1; 1]))
  = (accepted (reader true) f [1; 1], Err errPlainMessageTooLarge).
Proof.
  apply (ReadMsg_refuses_oversized_decompression (writer true) (reader true) 3 bigAnnounce
           (2 ^ 24) [1; 1]).
  - repeat split.
  - reflexivity.
  - reflexivity.
  - intro p; reflexivity.
  - vm_compute; discriminate.
  - reflexivity.
  - reflexivity.
Defined.

(** Three bytes are refused; the 64 bytes of A's key without the format byte
    are read as the 65 bytes with it; the key that comes back is A's. *)
Lemma importPublicKey_lengths_witness :
  importPublicKey [1; 2; 3] = Err (errInvalidPubkeyLength (len [1; 2; 3]))
  /\
  importPublicKey (drop 1 (certOf keyA)) = importPublicKey (0x04 :: drop 1 (certOf keyA))
  /\
  ((len (certOf keyA) = 64 \/ len (certOf keyA) = 65) /\
   Curve (PubOf keyA) = curveOf CryptoType /\
   X (PubOf keyA) <> None /\ Y (PubOf keyA) <> None).
Proof.
  destruct importPublicKey_lengths as [Hbad [H64 Hok]].
  split; [apply Hbad; vm_compute; discriminate|].
  split; [apply H64; vm_compute; reflexivity|].
  apply Hok; vm_compute; reflexivity.
Defined.

(** A, who has a certificate, reads the response of a B who has none. *)
Lemma initiator_certificate_gate_witness :
  initiatorEncHandshake (Some cmA) entA keyA (PubOf keyB) (pipe respPacketB)
  = ({| rd := drop encAuthRespLen (rd (pipe respPacketB));
        wr := wr (pipe respPacketB) ++ authPacketAc; closed := false |},
     Err (if resp_CertSize respMsgB =? 0
          then errInitiatorCertSizeZero else errRemoteCertSize)).
Proof.
  apply (initiator_certificate_gate cmA entA keyA (PubOf keyB) (pipe respPacketB)
           (fst madeAuthAc) (snd madeAuthAc) authPacketAc respMsgB
           (valueOf noState (handleAuthResp (fst madeAuthAc) respMsgB))).
  - vm_compute; discriminate.
  - vm_compute; reflexivity.
  - vm_compute; reflexivity.
  - reflexivity.
  - vm_compute; discriminate.
  - vm_compute; reflexivity.
  - vm_compute; reflexivity.
  - left; vm_compute; reflexivity.
Defined.

(** B, who has a certificate, reads the auth packet of an A who has none. *)
Lemma receiver_certificate_gate_witness :
  receiverEncHandshake (Some cmB) entB keyB (pipe authPacketA)
  = ({| rd := drop encAuthMsgLen (rd (pipe authPacketA));
        wr := wr (pipe authPacketA); closed := false |},
     Err (if auth_CertSize authMsgA =? 0
          then errReceiverCertSizeZero else errRemoteCertSize)).
Proof.
  apply (receiver_certificate_gate cmB entB keyB (pipe authPacketA) authMsgA handledAcert).
  - vm_compute; discriminate.
  - reflexivity.
  - vm_compute; discriminate.
  - vm_compute; reflexivity.
  - vm_compute; reflexivity.
  - left; vm_compute; reflexivity.
Defined.

(** A without a certificate reads the response of a B who announces 65 bytes
    of certificate and sends them: A returns secrets and leaves the
    certificate unread. The same for B without a certificate. *)
Lemma no_local_certificate_no_exchange_witness :
  (resp_CertSize respMsgBc = 65 /\
   initiatorEncHandshake None entA keyA (PubOf keyB) (pipe (respPacketBc ++ certOf keyB))
   = ({| rd := drop encAuthRespLen (rd (pipe (respPacketBc ++ certOf keyB)));
         wr := wr (pipe (respPacketBc ++ certOf keyB)) ++ authPacketA; closed := false |},
      encHandshake_secrets handledRespAn authPacketA
        (take encAuthRespLen (rd (pipe (respPacketBc ++ certOf keyB))))))
  /\
  (auth_CertSize authMsgAc = 65 /\
   receiverEncHandshake None entB keyB (pipe (authPacketAc ++ certOf keyA))
   = ({| rd := drop encAuthMsgLen (rd (pipe (authPacketAc ++ certOf keyA)));
         wr := wr (pipe (authPacketAc ++ certOf keyA)) ++ respPacketBn; closed := false |},
      encHandshake_secrets (fst madeRespBn)
        (take encAuthMsgLen (rd (pipe (authPacketAc ++ certOf keyA)))) respPacketBn)).
Proof.
  destruct no_local_certificate_no_exchange as [HI HR].
  split; (split; [vm_compute; reflexivity|]).
  - apply (HI None entA keyA (PubOf keyB) (pipe (respPacketBc ++ certOf keyB))
              (fst madeAuthA) (snd madeAuthA) authPacketA respMsgBc handledRespAn).
    + reflexivity.
    + vm_compute; reflexivity.
    + vm_compute; reflexivity.
    + reflexivity.
    + vm_compute; discriminate.
    + vm_compute; reflexivity.
    + vm_compute; reflexivity.
  - apply (HR None entB keyB (pipe (authPacketAc ++ certOf keyA)) authMsgAc handledAn
              (fst madeRespBn) (snd madeRespBn) respPacketBn).
    + reflexivity.
    + reflexivity.
    + vm_compute; discriminate.
    + vm_compute; reflexivity.
    + vm_compute; reflexivity.
    + vm_compute; reflexivity.
    + vm_compute; reflexivity.
    + vm_compute; reflexivity.
Defined.

(** B reads an auth packet of version 16: the response is written, then the
    run fails. *)
Lemma receiver_answers_before_version_check_witness :
  receiverEncHandshake None entB keyB (pipe authPacketV16)
  = ({| rd := drop encAuthMsgLen (rd (pipe authPacketV16));
        wr := wr (pipe authPacketV16) ++ respPacketToV16; closed := false |},
     Err (errHandshakeVersion (auth_Version authMsgV16))).
Proof.
  apply (receiver_answers_before_version_check None entB keyB (pipe authPacketV16)
           authMsgV16 handledV16 false (fst madeRespV16) (snd madeRespV16) respPacketToV16).
  - reflexivity.
  - vm_compute; discriminate.
  - vm_compute; reflexivity.
  - vm_compute; reflexivity.
  - reflexivity.
  - vm_compute; reflexivity.
  - vm_compute; reflexivity.
  - vm_compute; discriminate.
Defined.

(** Three bytes for the initiator, none for the receiver. *)
Lemma handshake_on_short_input_witness :
  initiatorEncHandshake None entA keyA (PubOf keyB) (pipe [1; 2; 3])
  = ({| rd := []; wr := wr (pipe [1; 2; 3]) ++ authPacketA; closed := false |},
     Err (if len (rd (pipe [1; 2; 3])) =? 0 then io_EOF else io_ErrUnexpectedEOF))
  /\
  receiverEncHandshake None entB keyB (pipe [])
  = ({| rd := []; wr := wr (pipe []); closed := false |},
     Err (if len (rd (pipe [])) =? 0 then io_EOF else io_ErrUnexpectedEOF)).
Proof.
  destruct handshake_on_short_input as [HI HR].
  split.
  - apply (HI None entA keyA (PubOf keyB) (pipe [1; 2; 3]) (fst madeAuthA) (snd madeAuthA)).
    + vm_compute; reflexivity.
    + vm_compute; reflexivity.
    + reflexivity.
    + reflexivity.
  - apply (HR None entB keyB (pipe [])); reflexivity.
Defined.

(** The run of A with certificates, with two more bytes waiting behind B's
    packet and certificate. *)
Lemma handshake_reads_only_its_packets_witness :
  let c := pipe (respPacketBc ++ certOf keyB ++ [7; 7]) in
  let run := initiatorEncHandshake (Some cmA) entA keyA (PubOf keyB) c in
  encAuthRespLen + certAwaited (Some cmA) <= len (rd c) /\
  rd (fst run) = drop (encAuthRespLen + certAwaited (Some cmA)) (rd c).
Proof.
  apply (proj1 handshake_reads_only_its_packets (Some cmA) entA keyA (PubOf keyB)
           (pipe (respPacketBc ++ certOf keyB ++ [7; 7]))
           (fst (initiatorEncHandshake (Some cmA) entA keyA (PubOf keyB)
                   (pipe (respPacketBc ++ certOf keyB ++ [7; 7]))))
           (secretsOf runAc)).
  vm_compute; reflexivity.
Defined.

(** The run of A without certificates, seen from [doEncHandshake]. *)
Lemma doEncHandshake_builds_codec_witness :
  let s := secretsOf runA in
  len (AES s) = 32 /\ len (MAC s) = 32 /\
  doEncHandshake None entA keyA (Some (PubOf keyB)) (mkRLPX (pipe respPacketB) None)
  = ({| fd := fst runA;
        t_rw := Some (mkRW (fst runA) (cipher_NewCTR (AES s) (make 16))
                           (cipher_NewCTR (AES s) (make 16))
                           (MAC s) (EgressMAC s) (IngressMAC s) false) |},
     Ok (Remote s)).
Proof.
  apply (doEncHandshake_builds_codec None entA keyA (Some (PubOf keyB))
           (mkRLPX (pipe respPacketB) None) (fst runA) (secretsOf runA)).
  - discriminate.
  - vm_compute; reflexivity.
Defined.

(** In the S256 mode the handshake of A on a response sealed for it returns
    secrets, and [doEncHandshake] panics. *)
Lemma doEncHandshake_never_succeeds_in_S256_witness :
  let t := mkRLPX (pipe respPacketS256) None in
  (forall t' r,
     doEncHandshake (cfg := s256cfg) None entA keyA (Some (PubOf keyB)) t <> (t', Ok r)) /\
  (MAC (secretsOf runS256) = [] /\ AES (secretsOf runS256) = [] /\
   snd (doEncHandshake (cfg := s256cfg) None entA keyA (Some (PubOf keyB)) t)
   = Panic "invalid MAC secret").
Proof.
  destruct (doEncHandshake_never_succeeds_in_S256 (cfg := s256cfg) None entA keyA
              (Some (PubOf keyB)) (mkRLPX (pipe respPacketS256) None) eq_refl) as [Hno Hrun].
  split; [exact Hno|].
  apply (Hrun (fst runS256) (secretsOf runS256)).
  vm_compute; reflexivity.
Defined.

(** B's run on the auth packet of A reports the key of A. *)
Lemma doEncHandshake_reports_identity_witness :
  exists authMsg key,
    openHandshakeMsg keyB (take encAuthMsgLen (rd (fd (mkRLPX (pipe authPacketA) None))))
    = Ok authMsg /\
    importPublicKey (InitiatorPubkey authMsg) = Ok key /\
    Some (PubOf keyA) = Some key.
Proof.
  apply (doEncHandshake_reports_identity None entB keyB None (mkRLPX (pipe authPacketA) None)
           (fst (doEncHandshake None entB keyB None (mkRLPX (pipe authPacketA) None)))
           (Some (PubOf keyA))).
  vm_compute; reflexivity.
Defined.

(** The auth message of A and the same message with the first 65 bytes of
    its signature zeroed. *)
Lemma handleAuthMsg_ignores_signature_head_witness :
  Signature authMsgForged <> Signature authMsgA /\
  handleAuthMsg noState authMsgForged keyB entB = handleAuthMsg noState authMsgA keyB entB.
Proof.
  split; [vm_compute; discriminate|].
  apply handleAuthMsg_ignores_signature_head.
  - discriminate.
  - vm_compute; discriminate.
  - vm_compute; discriminate.
  - vm_compute; reflexivity.
  - vm_compute; reflexivity.
  - vm_compute; reflexivity.
Defined.

(** The secrets of the two runs with certificates, and [msg17] from A to B. *)
Lemma established_codecs_deliver_witness :
  let a := valueOf (writer false) (newRLPXFrameRW (pipe []) (secretsOf runAc)) in
  let b := valueOf (writer false) (newRLPXFrameRW (pipe []) (secretsOf runBc)) in
  exists a' frame b',
    WriteMsg msg17 a = (a', Ok tt) /\
    wr (conn a') = wr (pipe []) ++ frame /\
    ReadMsg (receiving b (frame ++ [1; 1])) = (b', Ok msg17) /\
    rd (conn b') = [1; 1].
Proof.
  apply (established_codecs_deliver (secretsOf runAc) (secretsOf runBc) (pipe []) (pipe [])
           (valueOf (writer false) (newRLPXFrameRW (pipe []) (secretsOf runAc)))
           (valueOf (writer false) (newRLPXFrameRW (pipe []) (secretsOf runBc)))
           msg17 [1; 1]).
  - vm_compute; reflexivity.
  - vm_compute; reflexivity.
  - vm_compute; reflexivity.
  - vm_compute; reflexivity.
  - vm_compute; reflexivity.
  - reflexivity.
  - reflexivity.
  - reflexivity.
  - intro p; reflexivity.
  - vm_compute; discriminate.
Defined.

(** A signs a digest; the key comes back for that digest and for any
    other. *)
Lemma Sign_then_SigToPub_witness :
  exists raw,
    len raw = 65 /\
    bytesOf (Sign [5] digest32 keyA) = raw ++ CompressPubkey (Some (PubOf keyA)) /\
    forall d', SigToPub d' (bytesOf (Sign [5] digest32 keyA))
               = DecompressPubkey (CompressPubkey (Some (PubOf keyA))).
Proof.
  apply (Sign_then_SigToPub [5] digest32 keyA (bytesOf (Sign [5] digest32 keyA))).
  - discriminate.
  - vm_compute; reflexivity.
Defined.

(** A three-byte signature. *)
Lemma short_signature_panics_witness :
  Ecrecover digest32 [1; 2; 3] = Panic "slice bounds out of range" /\
  SigToPub digest32 [1; 2; 3] = Panic "slice bounds out of range".
Proof. apply short_signature_panics; reflexivity. Defined.

(** The signature [(r, s) = (1, 1)] and its twin [(1, N - 1)]. *)
Lemma ValidateSignatureValues_malleability_witness :
  ValidateSignatureValues 0 1 1 false = true /\
  ValidateSignatureValues 0 1 (secp256k1N - 1) false = true /\
  ValidateSignatureValues 0 1 (secp256k1N - 1) true
  = negb (ValidateSignatureValues 0 1 1 true).
Proof.
  split; [exact (proj1 (ValidateSignatureValues_malleability 0 1 1) eq_refl)|].
  exact (proj2 (ValidateSignatureValues_malleability 0 1 1) eq_refl).
Defined.

(** The 32 bytes [1 .. 32] as a key. *)
Lemma ToECDSA_accepts_witness :
  8 * len keyBytes = curve_BitSize (curveOf CryptoType) /\
  D importedKey = be_value keyBytes /\ 0 < D importedKey < secp256k1N /\
  Curve (PubOf importedKey) = curveOf CryptoType /\
  (exists x y, curve_ScalarBaseMult (curveOf CryptoType) keyBytes = Some (x, y)
               /\ X (PubOf importedKey) = Some x /\ Y (PubOf importedKey) = Some y) /\
  ToECDSAUnsafe keyBytes = Some importedKey.
Proof. apply (ToECDSA_accepts keyBytes importedKey); vm_compute; reflexivity. Defined.

(** The same key, written back. *)
Lemma FromECDSA_ToECDSA_witness : FromECDSA (Some importedKey) = keyBytes.
Proof.
  apply (FromECDSA_ToECDSA keyBytes importedKey).
  - intros v n _; reflexivity.
  - apply bytes_in_range; reflexivity.
  - vm_compute; reflexivity.
Defined.

(** A key without coordinates; and the key of A in the S256 mode. *)
Lemma address_derivation_panics_witness :
  PubkeyToAddress noCoordinates = Panic "slice bounds out of range"
  /\
  PubkeyToAddress (cfg := s256cfg) (PubOf keyA) = Panic "slice bounds out of range"
  /\
  CreateAddress2 (cfg := s256cfg) address20 digest32 [1; 2]
  = Panic "slice bounds out of range".
Proof.
  split.
  - apply (proj1 address_derivation_panics); left; reflexivity.
  - split.
    + apply (proj1 (proj2 (address_derivation_panics (cfg := s256cfg)) eq_refl)).
    + apply (proj2 (proj2 (address_derivation_panics (cfg := s256cfg)) eq_refl)).
Defined.

(** A three-byte signature; and, in the S256 mode, the signature that [Sign]
    makes with the key of A. *)
Lemma VerifySignature_lengths_witness :
  VerifySignature (certOf keyA) digest32 [1; 2; 3] = Ok false
  /\
  VerifySignature (cfg := s256cfg) (certOf keyA) digest32
                  (bytesOf (Sign (cfg := s256cfg) [5] digest32 keyA)) = Ok false.
Proof.
  split.
  - apply (proj1 VerifySignature_lengths); left; vm_compute; discriminate.
  - apply (proj2 (VerifySignature_lengths (cfg := s256cfg)) eq_refl) with (seed := [5]) (k := keyA).
    + intros digest seckey sig H.
      assert (E : sig = polyHash (be_value seckey) digest
                        ++ polyHash (be_value seckey + 1) digest ++ [0])
        by (unfold secp256k1_Sign, ec in H; congruence).
      rewrite E; unfold len; rewrite !length_app, !RefLaws.polyHash_length; reflexivity.
    + vm_compute; reflexivity.
Defined.

(** The address [a0 a1 .. b3]. *)
Lemma Hex_is_hex_up_to_case_witness :
  exists r,
    Hex address20 = Ok ([48; 120] ++ r) /\
    length r = (2 * length address20)%nat /\
    map lowerHex r = hex_EncodeToString address20.
Proof.
  apply (Hex_is_hex_up_to_case address20).
  - discriminate.
  - apply bytes_in_range; reflexivity.
  - vm_compute; discriminate.
Defined.

(** 33 bytes. *)
Lemma Hex_panics_beyond_32_bytes_witness : Hex (make 33) = Panic "index out of range".
Proof.
  apply (Hex_panics_beyond_32_bytes (make 33)).
  - discriminate.
  - reflexivity.
Defined.

End OnMoreReferenceRuns.
